(** * Deal Underwriter: the underwriting engine, embedded and verified

    The engine of the repository (amortization formulas, NPV and IRR, the
    recommendation classifier, [computeModel], the sensitivity grid and the
    tornado ranking) is translated function by function into executable
    definitions, and the statements of the specification are settled
    against them.

    ** Numbers

    A JavaScript [number] is modelled by the type [number] below: a finite
    value is an exact rational ([Qc], canonical fractions, so that equal
    values are equal terms), and the three non-finite values [Infinity],
    [-Infinity] and [NaN] are kept, with the IEEE rules for them, because
    the source tests for them ([Number.isFinite], [clampNum]) and compares
    against them ([NaN < x] is false).  Three idealisations are made and
    hold throughout the file:
    - finite arithmetic is exact: no rounding, overflow or underflow
      (the root search of [irr], which behaves differently once an NPV
      overflows, is also stated for an arbitrary evaluation of the NPV,
      see [irr_with]);
    - there is a single zero, which behaves as [+0] (so [x / 0] is
      [Infinity] for positive [x]);
    - the arguments the source only ever uses as integers (the hold period
      [saleYear], the amortization term [amortYears], the payment count
      [kPayments], the loop counters used as exponents of [Math.pow]) are
      integers ([nat] or [Z]); the caller builds them with [Math.floor]. *)

From Stdlib Require Import QArith Qcanon Qcabs Qround ZArith List Bool String.
From Stdlib Require Import Lia Lqa.
From Stdlib Require Import Sorting.Sorted Sorting.Permutation.
Import ListNotations.

(** ** The [number] type *)

Inductive number : Type :=
| Fin (q : Qc)
| PosInf
| NegInf
| NaN.

Declare Scope num_scope.
Delimit Scope num_scope with num.
Bind Scope num_scope with number.

Definition ofQ (q : Q) : number := Fin (Q2Qc q).
Definition ofZ (z : Z) : number := Fin (Q2Qc (inject_Z z)).

Definition zero : number := ofZ 0.
Definition one : number := ofZ 1.

Definition isFinite (x : number) : bool :=
  match x with Fin _ => true | _ => false end.

(** The infinity with the sign of a comparison against zero; [0 * Infinity]
    and [0 / 0] are [NaN]. *)
Definition inf_of (c : comparison) : number :=
  match c with Gt => PosInf | Lt => NegInf | Eq => NaN end.

Definition neg (x : number) : number :=
  match x with
  | Fin a => Fin (- a)
  | PosInf => NegInf
  | NegInf => PosInf
  | NaN => NaN
  end.

Definition add (x y : number) : number :=
  match x, y with
  | NaN, _ | _, NaN => NaN
  | Fin a, Fin b => Fin (a + b)
  | PosInf, NegInf | NegInf, PosInf => NaN
  | PosInf, _ | _, PosInf => PosInf
  | NegInf, _ | _, NegInf => NegInf
  end.

Definition sub (x y : number) : number := add x (neg y).

Definition mul (x y : number) : number :=
  match x, y with
  | NaN, _ | _, NaN => NaN
  | Fin a, Fin b => Fin (a * b)
  | Fin a, PosInf | PosInf, Fin a => inf_of (a ?= 0)%Qc
  | Fin a, NegInf | NegInf, Fin a => inf_of (0 ?= a)%Qc
  | PosInf, PosInf | NegInf, NegInf => PosInf
  | PosInf, NegInf | NegInf, PosInf => NegInf
  end.

Definition div (x y : number) : number :=
  match x, y with
  | NaN, _ | _, NaN => NaN
  | Fin a, Fin b =>
      if Qc_eq_bool b 0 then inf_of (a ?= 0)%Qc else Fin (a / b)
  | Fin _, _ => Fin 0
  | PosInf, Fin b => match (b ?= 0)%Qc with Lt => NegInf | _ => PosInf end
  | NegInf, Fin b => match (b ?= 0)%Qc with Lt => PosInf | _ => NegInf end
  | _, _ => NaN
  end.

Infix "+" := add : num_scope.
Infix "-" := sub : num_scope.
Infix "*" := mul : num_scope.
Infix "/" := div : num_scope.
Notation "- x" := (neg x) : num_scope.

(** Comparison of two numbers; [None] when one of them is [NaN], in which
    case every JavaScript comparison answers [false]. *)
Definition ncompare (x y : number) : option comparison :=
  match x, y with
  | NaN, _ | _, NaN => None
  | Fin a, Fin b => Some (a ?= b)%Qc
  | PosInf, PosInf | NegInf, NegInf => Some Eq
  | NegInf, _ | _, PosInf => Some Lt
  | PosInf, _ | _, NegInf => Some Gt
  end.

Definition ltb (x y : number) : bool :=
  match ncompare x y with Some Lt => true | _ => false end.
Definition leb (x y : number) : bool :=
  match ncompare x y with Some Lt | Some Eq => true | _ => false end.
Definition gtb (x y : number) : bool :=
  match ncompare x y with Some Gt => true | _ => false end.
Definition geb (x y : number) : bool :=
  match ncompare x y with Some Gt | Some Eq => true | _ => false end.
(** [===] on numbers. *)
Definition eqb (x y : number) : bool :=
  match ncompare x y with Some Eq => true | _ => false end.

Infix "<?" := ltb : num_scope.
Infix "<=?" := leb : num_scope.
Infix ">?" := gtb (at level 70) : num_scope.
Infix ">=?" := geb (at level 70) : num_scope.
Infix "===" := eqb (at level 70) : num_scope.

(** [Math.max], [Math.min] and [Math.abs]: [NaN] as soon as an argument is. *)
Definition max (x y : number) : number :=
  match ncompare x y with
  | None => NaN
  | Some Lt => y
  | Some _ => x
  end.

Definition min (x y : number) : number :=
  match ncompare x y with
  | None => NaN
  | Some Gt => y
  | Some _ => x
  end.

Definition abs (x : number) : number :=
  match x with
  | Fin a => Fin (Qcabs a)
  | PosInf | NegInf => PosInf
  | NaN => NaN
  end.

(** [Math.pow] at an integer exponent.  [pow x 0] is [1] for every [x],
    [NaN] included; a zero base with a negative exponent gives [Infinity]. *)
Definition pow (x : number) (k : Z) : number :=
  match k with
  | Z0 => one
  | Zpos p =>
      match x with
      | Fin a => Fin (a ^ Pos.to_nat p)
      | PosInf => PosInf
      | NegInf => if Z.odd k then NegInf else PosInf
      | NaN => NaN
      end
  | Zneg p =>
      match x with
      | Fin a =>
          if Qc_eq_bool a 0 then PosInf else Fin (/ (a ^ Pos.to_nat p))
      | PosInf | NegInf => Fin 0
      | NaN => NaN
      end
  end.

(** [clampNum v fallback]: [Number(v)] of a number is the number itself;
    it is kept when finite and replaced by the fallback otherwise. *)
Definition clampNum (v fallback : number) : number :=
  let n := v in
  if isFinite n then n else fallback.

Local Open Scope num_scope.

Notation "0" := zero : num_scope.
Notation "1" := one : num_scope.

(** ** Amortization *)

Definition pmtMonthly (loanAmount annualRate : number) (amortYears : Z)
  : number :=
  let r := annualRate / ofZ 12 in
  let n := (amortYears * 12)%Z in
  if (loanAmount <=? 0) || (n <=? 0)%Z then 0
  else if r === 0 then loanAmount / ofZ n
  else (loanAmount * r) / (1 - pow (1 + r) (- n)).

Definition remainingBalance (loanAmount annualRate : number)
  (amortYears kPayments : Z) : number :=
  let r := annualRate / ofZ 12 in
  let n := (amortYears * 12)%Z in
  if (loanAmount <=? 0) || (n <=? 0)%Z then 0
  else
    let pmt := pmtMonthly loanAmount annualRate amortYears in
    if r === 0 then loanAmount * (1 - ofZ kPayments / ofZ n)
    else loanAmount * pow (1 + r) kPayments
         - pmt * ((pow (1 + r) kPayments - 1) / r).

(** ** NPV and IRR *)

(** The body of the [for] loop of [npv], from index [t] on, with the running
    [total]. *)
Fixpoint npv_from (r : number) (t : Z) (total : number)
  (cashflows : list number) : number :=
  match cashflows with
  | [] => total
  | cf0 :: rest =>
      let cf := clampNum cf0 NaN in
      if negb (isFinite cf) then NaN
      else npv_from r (t + 1) (total + cf / pow (1 + r) t) rest
  end.

Definition npv (rate : number) (cashflows : list number) : number :=
  let r := clampNum rate NaN in
  if negb (isFinite r) then NaN
  else npv_from r 0 0 cashflows.

(** The first loop of [irr]: [None] when an entry is not finite, otherwise
    the two flags. *)
Fixpoint irr_signs (hasNeg hasPos : bool) (cashflows : list number)
  : option (bool * bool) :=
  match cashflows with
  | [] => Some (hasNeg, hasPos)
  | cf0 :: rest =>
      let cf := clampNum cf0 NaN in
      if negb (isFinite cf) then None
      else irr_signs (if cf <? 0 then true else hasNeg)
                     (if cf >? 0 then true else hasPos) rest
  end.

(** The [while] loop that doubles the upper bound; [tries] counts the
    doublings still allowed (20 at the start). *)
Fixpoint irr_widen (cashflows : list number) (fLo : number) (tries : nat)
  (hi fHi : number) : number * number :=
  match tries with
  | O => (hi, fHi)
  | S tries' =>
      if fLo * fHi >? 0 then
        let hi' := hi * ofZ 2 in
        irr_widen cashflows fLo tries' hi' (npv hi' cashflows)
      else (hi, fHi)
  end.

(** The bisection loop, [iters] iterations left (140 at the start).  [fLo]
    is the NPV at the first lower bound: the source never updates it.  The
    tolerance [0.0000001] is the source's [1e-7]. *)
Fixpoint irr_bisect (cashflows : list number) (fLo : number) (iters : nat)
  (lo hi : number) : option number :=
  match iters with
  | O => Some ((lo + hi) / ofZ 2)
  | S iters' =>
      let mid := (lo + hi) / ofZ 2 in
      let fMid := npv mid cashflows in
      if negb (isFinite fMid) then None
      else if abs fMid <? ofQ 0.0000001 then Some mid
      else if fLo * fMid <=? 0 then irr_bisect cashflows fLo iters' lo mid
      else irr_bisect cashflows fLo iters' mid hi
  end.

Definition irr_lo0 : number := ofQ (-0.9999).
Definition irr_hi0 : number := ofZ 5.

(** [null] is [None]. *)
Definition irr (cashflows : list number) : option number :=
  match irr_signs false false cashflows with
  | None => None
  | Some (hasNeg, hasPos) =>
      if negb hasNeg || negb hasPos then None
      else
        let lo := irr_lo0 in
        let hi := irr_hi0 in
        let fLo := npv lo cashflows in
        let fHi := npv hi cashflows in
        let '(hi, fHi) := irr_widen cashflows fLo 20 hi fHi in
        if fLo * fHi >? 0 then None
        else irr_bisect cashflows fLo 140 lo hi
  end.

(** After its first loop [irr] reads the cash flows through [npv] only.  In
    double precision the value of [npv] can be infinite or [NaN] where the
    exact sum is a number: a partial sum overflows.  The three definitions
    below are the rest of [irr] with the evaluation [r => npv(r, cashflows)]
    as a parameter [f], so that what is proved of them holds whatever that
    evaluation returns; [irr] is their instance at the exact [npv]. *)
Fixpoint irr_widen_with (f : number -> number) (fLo : number) (tries : nat)
  (hi fHi : number) : number * number :=
  match tries with
  | O => (hi, fHi)
  | S tries' =>
      if fLo * fHi >? 0 then
        let hi' := hi * ofZ 2 in
        irr_widen_with f fLo tries' hi' (f hi')
      else (hi, fHi)
  end.

Fixpoint irr_bisect_with (f : number -> number) (fLo : number) (iters : nat)
  (lo hi : number) : option number :=
  match iters with
  | O => Some ((lo + hi) / ofZ 2)
  | S iters' =>
      let mid := (lo + hi) / ofZ 2 in
      let fMid := f mid in
      if negb (isFinite fMid) then None
      else if abs fMid <? ofQ 0.0000001 then Some mid
      else if fLo * fMid <=? 0 then irr_bisect_with f fLo iters' lo mid
      else irr_bisect_with f fLo iters' mid hi
  end.

Definition irr_with (f : number -> number) (cashflows : list number)
  : option number :=
  match irr_signs false false cashflows with
  | None => None
  | Some (hasNeg, hasPos) =>
      if negb hasNeg || negb hasPos then None
      else
        let lo := irr_lo0 in
        let hi := irr_hi0 in
        let fLo := f lo in
        let fHi := f hi in
        let '(hi, fHi) := irr_widen_with f fLo 20 hi fHi in
        if fLo * fHi >? 0 then None
        else irr_bisect_with f fLo 140 lo hi
  end.

(** ** Recommendation classifier *)

Inductive Tone : Type := good | warn | bad | neutral.

Definition Tone_eqb (a b : Tone) : bool :=
  match a, b with
  | good, good | warn, warn | bad, bad | neutral, neutral => true
  | _, _ => false
  end.

(** A note of the recommendation.  Its [text] field is a display string
    built with the locale formatters and is not modelled. *)
Record Note : Type := { note_tone : Tone; note_title : string }.

Record Benchmarks : Type :=
  { bench_dscr : number; bench_coc : number; bench_irr : number }.

Definition BENCH : Benchmarks :=
  {| bench_dscr := ofQ 1.25; bench_coc := ofQ 0.08; bench_irr := ofQ 0.12 |}.

Definition dscr_note (dscr : option number) : Note :=
  match dscr with
  | None => {| note_tone := bad; note_title := "DSCR missing" |}
  | Some d =>
      if d >=? bench_dscr BENCH
      then {| note_tone := good; note_title := "Healthy DSCR" |}
      else if d >=? ofQ 1.05
      then {| note_tone := warn; note_title := "Tight DSCR" |}
      else {| note_tone := bad; note_title := "Weak DSCR" |}
  end.

Definition coc_note (coc : option number) : Note :=
  match coc with
  | None => {| note_tone := bad; note_title := "CoC missing" |}
  | Some c =>
      if c >=? bench_coc BENCH
      then {| note_tone := good; note_title := "Competitive cash yield" |}
      else if c >=? ofQ 0.04
      then {| note_tone := warn; note_title := "Modest cash yield" |}
      else {| note_tone := bad; note_title := "Low cash yield" |}
  end.

Definition irr_note (irrLevered : option number) : Note :=
  match irrLevered with
  | None => {| note_tone := bad; note_title := "IRR missing" |}
  | Some i =>
      if i >=? bench_irr BENCH
      then {| note_tone := good; note_title := "Strong IRR" |}
      else if i >=? ofQ 0.08
      then {| note_tone := warn; note_title := "OK IRR" |}
      else {| note_tone := bad; note_title := "Weak IRR" |}
  end.

Record Recommendation : Type :=
  { headline : string;
    tone : Tone;
    notes : list Note;
    benchmarks : Benchmarks }.

Definition count_tone (t : Tone) (ns : list Note) : nat :=
  List.length (filter (fun n => Tone_eqb (note_tone n) t) ns).

Definition buildRecommendation (dscr coc irrLevered : option number)
  : Recommendation :=
  let notes := [dscr_note dscr; coc_note coc; irr_note irrLevered] in
  let good_n := count_tone good notes in
  let bad_n := count_tone bad notes in
  if (2 <=? bad_n)%nat then
    {| headline := "Likely not worth it (as modeled)";
       tone := bad; notes := notes; benchmarks := BENCH |}
  else if (2 <=? good_n)%nat && (bad_n =? 0)%nat then
    {| headline := "Likely worth pursuing";
       tone := good; notes := notes; benchmarks := BENCH |}
  else
    {| headline := "Borderline — needs diligence";
       tone := warn; notes := notes; benchmarks := BENCH |}.

(** ** The core model engine *)

Inductive AssetClass : Type :=
| Multifamily | Office | Industrial | RetailCommercial | SingleFamilyHome.

Inductive OpexMode : Type :=
| PercentOfRevenue | LineItems | PerUnitYear | Hybrid.

Inductive CapexMode : Type := PSFYear | CapexPerUnitYear.

Inductive RecoveryMode : Type := RecoveryNone | PctOfOpEx | FlatAnnual.

Inductive SensMetric : Type :=
| LeveredIRR | LeveredNPV | CoCY1 | DSCRY1 | ExitPrice.

Definition isMultifamily (a : AssetClass) : bool :=
  match a with Multifamily => true | _ => false end.

(** The argument record of [computeModel]. *)
Record ModelInputs : Type :=
  { assetClass : AssetClass;
    squareFootage : number;
    purchasePrice : number;
    dueDiligenceCosts : number;
    closingCostPct : number;
    saleYear : nat;
    rentGrowth : number;
    otherIncomeGrowth : number;
    vacancyRate : number;
    annualRevenue : number;
    otherIncomeAnnual : number;
    rentRollGPR : number;
    rentRollUnits : number;
    opexMode : OpexMode;
    opexPctOfRev : number;
    opexPerUnitYear : number;
    mgmtFeePct : number;
    reservesPerUnitYear : number;
    opexItemsYear1 : number;
    expenseInflation : number;
    recoveryMode : RecoveryMode;
    recoveryPctOfOpex : number;
    recoveryFlatAnnual : number;
    capexMode : CapexMode;
    capexPsfYear1 : number;
    capexPerUnitYear1 : number;
    capexGrowth : number;
    exitCapRate : number;
    costOfSalePct : number;
    ltv : number;
    interestRate : number;
    amortYears : Z;
    discountRate : number }.

(** Arrays are lists.  Reading past the end gives [undefined], which is
    [NaN] in arithmetic. *)
Definition get (l : list number) (i : nat) : number := nth i l NaN.

(** [l[i] = v] for an index inside the array (every write of
    [computeModel] is). *)
Fixpoint upd (l : list number) (i : nat) (v : number) : list number :=
  match l, i with
  | [], _ => []
  | _ :: l', O => v :: l'
  | x :: l', S i' => x :: upd l' i' v
  end.

(** [new Array(n).fill(0)]. *)
Definition filled (n : nat) : list number := repeat 0 n.

(** [for (let y = 1; y <= n; y++) s = body(y, s)]. *)
Definition for_1_to {S : Type} (n : nat) (body : nat -> S -> S) (s : S) : S :=
  fold_left (fun s y => body y s) (seq 1 n) s.

Section Engine.

Variable args : ModelInputs.

Let SF := squareFootage args.
Let PP := purchasePrice args.
Let DD := dueDiligenceCosts args.
Let closePct := closingCostPct args.
Let N := saleYear args.
Let vac := vacancyRate args.
Let opMode := opexMode args.
Let opPct := opexPctOfRev args.
Let opPU := opexPerUnitYear args.
Let mgmtPct := mgmtFeePct args.
Let resPU := reservesPerUnitYear args.
Let gExp := expenseInflation args.
Let recMode := recoveryMode args.
Let recPct := recoveryPctOfOpex args.
Let recFlat := recoveryFlatAnnual args.
Let capMode := capexMode args.
Let capPsf := capexPsfYear1 args.
Let capPU := capexPerUnitYear1 args.
Let gCapex := capexGrowth args.
Let exitCap := exitCapRate args.
Let saleCost := costOfSalePct args.
Let LTV := ltv args.
Let r := interestRate args.
Let amort := amortYears args.
Let disc := discountRate args.

Definition rentG : number := clampNum (rentGrowth args) 0.
Definition otherG : number := clampNum (otherIncomeGrowth args) rentG.
Definition vacSafe : number := max 0 (clampNum vac 0).
(** [0.000000001] is the source's [1e-9]. *)
Definition exitCapSafe : number :=
  max (ofQ 0.000000001) (clampNum exitCap (ofQ 0.065)).
Definition saleCostSafe : number := max 0 (clampNum saleCost 0).
Definition discSafe : number := max 0 (clampNum disc (ofQ 0.12)).
Definition expG : number := max 0 (clampNum gExp 0).

Definition baseRent1 : number :=
  max 0 (if isMultifamily (assetClass args)
         then rentRollGPR args else annualRevenue args).
Definition baseOther1 : number := max 0 (otherIncomeAnnual args).

Definition loanProceeds : number :=
  max 0 PP * max 0 (min 1 (clampNum LTV 0)).
Definition debtPmtAnnual : number :=
  pmtMonthly loanProceeds (max 0 r) (Z.max 1 amort) * ofZ 12.

(** One turn of the year-by-year balance loop on [(loanBal, payoff)]. *)
Definition payoff_step (t : nat) (s : number * number) : number * number :=
  let '(loanBal, payoff) := s in
  let interest := loanBal * r in
  let principal := max 0 (debtPmtAnnual - interest) in
  let loanBal := max 0 (loanBal - principal) in
  (loanBal, if (t =? N)%nat then loanBal else payoff).

Definition payoff : number :=
  snd (for_1_to N payoff_step (loanProceeds, loanProceeds)).

Definition acquisitionCF : number :=
  - (max 0 PP + max 0 DD + max 0 PP * max 0 closePct).

Definition units : number :=
  if isMultifamily (assetClass args) then max 0 (rentRollUnits args) else 1.

(** [y - 1], the exponent of the growth factors. *)
Definition yexp (y : nat) : Z := (Z.of_nat y - 1)%Z.

(** The values the projection loop writes at index [y] of its arrays; each
    turn reads only what the same turn wrote. *)

Definition rentRev_at (y : nat) : number :=
  baseRent1 * pow (1 + rentG) (yexp y).
Definition otherRev_at (y : nat) : number :=
  baseOther1 * pow (1 + otherG) (yexp y).
Definition revenue_at (y : nat) : number := rentRev_at y + otherRev_at y.

Definition baseOpex_at (y : nat) : number :=
  match opMode with
  | PercentOfRevenue => max 0 opPct * revenue_at y
  | _ =>
      let lineItemsY := max 0 (opexItemsYear1 args) * pow (1 + expG) (yexp y) in
      let perUnitY := (max 0 opPU * units) * pow (1 + expG) (yexp y) in
      match opMode with
      | LineItems => lineItemsY
      | PerUnitYear => perUnitY
      | Hybrid => lineItemsY + perUnitY
      | PercentOfRevenue => 0
      end
  end.

Definition opexAbs_at (y : nat) : number :=
  let mgmt := max 0 mgmtPct * revenue_at y in
  let reserves := (max 0 resPU * units) * pow (1 + expG) (yexp y) in
  max 0 (baseOpex_at y + mgmt + reserves).

Definition recoveries_at (y : nat) : number :=
  match recMode with
  | RecoveryNone => 0
  | PctOfOpEx => max 0 recPct * opexAbs_at y
  | FlatAnnual => max 0 recFlat * pow (1 + rentG) (yexp y)
  end.

Definition vacancyLoss_at (y : nat) : number :=
  - ((revenue_at y + recoveries_at y) * vacSafe).
Definition egr_at (y : nat) : number :=
  revenue_at y + recoveries_at y + vacancyLoss_at y.
Definition noi_at (y : nat) : number := egr_at y - opexAbs_at y.

Definition capexAbs_at (y : nat) : number :=
  match capMode with
  | PSFYear => (max 0 capPsf * max 0 SF) * pow (1 + max 0 gCapex) (yexp y)
  | CapexPerUnitYear => (max 0 capPU * units) * pow (1 + max 0 gCapex) (yexp y)
  end.

(** An array of [N + 2] zeros whose indices [1 .. N + 1] the loop fills. *)
Definition series (f : nat -> number) : list number :=
  for_1_to (N + 1) (fun y a => upd a y (f y)) (filled (N + 2)).

Definition rentRev := series rentRev_at.
Definition otherRev := series otherRev_at.
Definition revenue := series revenue_at.
Definition recoveries := series recoveries_at.
Definition vacancyLoss := series vacancyLoss_at.
Definition egr := series egr_at.
Definition opexAbs := series opexAbs_at.
Definition capexAbs := series capexAbs_at.
Definition noi := series noi_at.

Definition salePrice : number := get noi (N + 1) / exitCapSafe.
Definition saleCosts : number := salePrice * saleCostSafe.
Definition saleNetBeforeDebt : number := salePrice - saleCosts.

Definition unleveredCF : list number :=
  let u := filled (N + 1) in
  let u := upd u 0 acquisitionCF in
  let u := for_1_to N (fun y u => upd u y (get noi y - get capexAbs y)) u in
  upd u N (get u N + saleNetBeforeDebt).

(** Computed by the source and never read afterwards. *)
Definition payoffAtExit : number :=
  max 0 (remainingBalance loanProceeds (max 0 r) (Z.max 1 amort) (Z.of_nat N)).

Definition leveredCF : list number :=
  let l := filled (N + 1) in
  let l := upd l 0 (get unleveredCF 0 + loanProceeds) in
  for_1_to N
    (fun y l =>
       let debtSvc := debtPmtAnnual in
       let l := upd l y ((get noi y - get capexAbs y) - debtSvc) in
       if (y =? N)%nat
       then upd l y (((get noi y - get capexAbs y) - debtSvc)
                     + (saleNetBeforeDebt - payoff))
       else l)
    l.

Definition uIRR : option number := irr unleveredCF.
Definition lIRR : option number := irr leveredCF.
Definition uNPV : number := npv discSafe unleveredCF.
Definition lNPV : number := npv discSafe leveredCF.

Definition noi1 : number := get noi 1.
Definition capRate : option number :=
  if PP >? 0 then Some (noi1 / PP) else None.
Definition dscr : option number :=
  if debtPmtAnnual >? 0 then Some (noi1 / debtPmtAnnual) else None.
Definition equityOut : number := - (get leveredCF 0).
Definition coc : option number :=
  if equityOut >? 0 then Some (get leveredCF 1 / equityOut) else None.

End Engine.

(** The record [computeModel] returns. *)
Record Model : Type :=
  { m_N : nat;
    m_capRate : option number;
    m_dscr : option number;
    m_coc : option number;
    m_equityOut : number;
    m_rentRev : list number;
    m_otherRev : list number;
    m_revenue : list number;
    m_recoveries : list number;
    m_vacancyLoss : list number;
    m_egr : list number;
    m_opexAbs : list number;
    m_noi : list number;
    m_capexAbs : list number;
    m_salePrice : number;
    m_saleCosts : number;
    m_saleNetBeforeDebt : number;
    m_loanProceeds : number;
    m_debtPmtAnnual : number;
    m_payoff : number;
    m_unleveredCF : list number;
    m_leveredCF : list number;
    m_uIRR : option number;
    m_lIRR : option number;
    m_uNPV : number;
    m_lNPV : number;
    m_noi1 : number;
    m_recommendation : Recommendation }.

Definition computeModel (args : ModelInputs) : Model :=
  {| m_N := saleYear args;
     m_capRate := capRate args;
     m_dscr := dscr args;
     m_coc := coc args;
     m_equityOut := equityOut args;
     m_rentRev := rentRev args;
     m_otherRev := otherRev args;
     m_revenue := revenue args;
     m_recoveries := recoveries args;
     m_vacancyLoss := vacancyLoss args;
     m_egr := egr args;
     m_opexAbs := opexAbs args;
     m_noi := noi args;
     m_capexAbs := capexAbs args;
     m_salePrice := salePrice args;
     m_saleCosts := saleCosts args;
     m_saleNetBeforeDebt := saleNetBeforeDebt args;
     m_loanProceeds := loanProceeds args;
     m_debtPmtAnnual := debtPmtAnnual args;
     m_payoff := payoff args;
     m_unleveredCF := unleveredCF args;
     m_leveredCF := leveredCF args;
     m_uIRR := uIRR args;
     m_lIRR := lIRR args;
     m_uNPV := uNPV args;
     m_lNPV := lNPV args;
     m_noi1 := noi1 args;
     m_recommendation :=
       buildRecommendation (dscr args) (coc args) (lIRR args) |}.

Definition metricValue (model : Model) (metric : SensMetric) : option number :=
  match metric with
  | LeveredIRR => m_lIRR model
  | LeveredNPV => Some (m_lNPV model)
  | CoCY1 => m_coc model
  | DSCRY1 => m_dscr model
  | ExitPrice => Some (m_salePrice model)
  end.

(** ** Re-running the engine with some inputs replaced *)

(** The fields the two engines override ([Partial<typeof baseArgs>]). *)
Inductive Override : Type :=
| SetPurchasePrice (v : number)
| SetExitCapRate (v : number)
| SetRentGrowth (v : number)
| SetOtherIncomeGrowth (v : number)
| SetVacancyRate (v : number)
| SetInterestRate (v : number)
| SetOpexPctOfRev (v : number).

Definition withField (a : ModelInputs) (o : Override) : ModelInputs :=
  let pp := match o with SetPurchasePrice v => v | _ => purchasePrice a end in
  let ec := match o with SetExitCapRate v => v | _ => exitCapRate a end in
  let rg := match o with SetRentGrowth v => v | _ => rentGrowth a end in
  let og := match o with SetOtherIncomeGrowth v => v
                    | _ => otherIncomeGrowth a end in
  let vr := match o with SetVacancyRate v => v | _ => vacancyRate a end in
  let ir := match o with SetInterestRate v => v | _ => interestRate a end in
  let op := match o with SetOpexPctOfRev v => v | _ => opexPctOfRev a end in
  {| assetClass := assetClass a;
     squareFootage := squareFootage a;
     purchasePrice := pp;
     dueDiligenceCosts := dueDiligenceCosts a;
     closingCostPct := closingCostPct a;
     saleYear := saleYear a;
     rentGrowth := rg;
     otherIncomeGrowth := og;
     vacancyRate := vr;
     annualRevenue := annualRevenue a;
     otherIncomeAnnual := otherIncomeAnnual a;
     rentRollGPR := rentRollGPR a;
     rentRollUnits := rentRollUnits a;
     opexMode := opexMode a;
     opexPctOfRev := op;
     opexPerUnitYear := opexPerUnitYear a;
     mgmtFeePct := mgmtFeePct a;
     reservesPerUnitYear := reservesPerUnitYear a;
     opexItemsYear1 := opexItemsYear1 a;
     expenseInflation := expenseInflation a;
     recoveryMode := recoveryMode a;
     recoveryPctOfOpex := recoveryPctOfOpex a;
     recoveryFlatAnnual := recoveryFlatAnnual a;
     capexMode := capexMode a;
     capexPsfYear1 := capexPsfYear1 a;
     capexPerUnitYear1 := capexPerUnitYear1 a;
     capexGrowth := capexGrowth a;
     exitCapRate := ec;
     costOfSalePct := costOfSalePct a;
     ltv := ltv a;
     interestRate := ir;
     amortYears := amortYears a;
     discountRate := discountRate a |}.

(** [computeModel({ ...baseArgs, ...overrides })]. *)
Definition simulate (baseArgs : ModelInputs) (overrides : list Override)
  : Model :=
  computeModel (fold_left withField overrides baseArgs).

(** ** Sensitivity grid: purchase price by exit cap rate *)

Record Sensitivity : Type :=
  { ppMultipliers : list number;
    exitCapDeltas : list number;
    ppVals : list number;
    capVals : list number;
    grid : list (list (option number)) }.

(** The callback of the memoized grid, run on the record [baseArgs] of the
    render that calls it; when it runs is [sensitivity_memo], further
    down. *)
Definition sensitivity (baseArgs : ModelInputs) (sensMetric : SensMetric)
  : Sensitivity :=
  let basePP := purchasePrice baseArgs in
  let baseExitCap := exitCapRate baseArgs in
  let ppMultipliers :=
    [ofQ (-0.1); ofQ (-0.05); ofZ 0; ofQ 0.05; ofQ 0.1] in
  let exitCapDeltas :=
    [ofQ (-0.01); ofQ (-0.005); ofZ 0; ofQ 0.005; ofQ 0.01] in
  let ppVals := map (fun m => basePP * (1 + m)) ppMultipliers in
  let capVals :=
    map (fun d => max (ofQ 0.0001) (baseExitCap + d)) exitCapDeltas in
  let grid :=
    map (fun cap =>
           map (fun pp =>
                  let m := simulate baseArgs
                             [SetPurchasePrice pp; SetExitCapRate cap] in
                  metricValue m sensMetric)
               ppVals)
        capVals in
  {| ppMultipliers := ppMultipliers;
     exitCapDeltas := exitCapDeltas;
     ppVals := ppVals;
     capVals := capVals;
     grid := grid |}.

(** The cell at row [i] (exit cap) and column [j] (purchase price). *)
Definition cell (s : Sensitivity) (i j : nat) : option (option number) :=
  match nth_error (grid s) i with
  | Some row => nth_error row j
  | None => None
  end.

(** ** Tornado ranking *)

Record Scenario : Type :=
  { sc_name : string; sc_low : list Override; sc_high : list Override }.

Record TornadoRow : Type :=
  { row_name : string;
    lowV : option number;
    highV : option number;
    dLow : option number;
    dHigh : option number;
    swing : number }.

Record Tornado : Type :=
  { baseV : option number; rows : list TornadoRow; maxSwing : number }.

Definition scenarios (baseArgs : ModelInputs) : list Scenario :=
  [ {| sc_name := "Purchase Price";
       sc_low := [SetPurchasePrice (purchasePrice baseArgs * ofQ 0.95)];
       sc_high := [SetPurchasePrice (purchasePrice baseArgs * ofQ 1.05)] |};
    {| sc_name := "Exit Cap Rate";
       sc_low := [SetExitCapRate
                    (max (ofQ 0.0001) (exitCapRate baseArgs - ofQ 0.005))];
       sc_high := [SetExitCapRate (exitCapRate baseArgs + ofQ 0.005)] |};
    {| sc_name := "Rent Growth";
       sc_low := [SetRentGrowth (rentGrowth baseArgs - ofQ 0.01)];
       sc_high := [SetRentGrowth (rentGrowth baseArgs + ofQ 0.01)] |};
    {| sc_name := "Other Income Growth";
       sc_low := [SetOtherIncomeGrowth (otherIncomeGrowth baseArgs - ofQ 0.01)];
       sc_high :=
         [SetOtherIncomeGrowth (otherIncomeGrowth baseArgs + ofQ 0.01)] |};
    {| sc_name := "Vacancy Rate";
       sc_low := [SetVacancyRate (max 0 (vacancyRate baseArgs - ofQ 0.01))];
       sc_high := [SetVacancyRate (vacancyRate baseArgs + ofQ 0.01)] |};
    {| sc_name := "Interest Rate";
       sc_low := [SetInterestRate (max 0 (interestRate baseArgs - ofQ 0.01))];
       sc_high := [SetInterestRate (interestRate baseArgs + ofQ 0.01)] |};
    {| sc_name := "OpEx (Pct of Rev)";
       sc_low := [SetOpexPctOfRev (max 0 (opexPctOfRev baseArgs - ofQ 0.03))];
       sc_high := [SetOpexPctOfRev (opexPctOfRev baseArgs + ofQ 0.03)] |} ].

(** [v != null && w != null ? w - v : null]. *)
Definition delta (baseV v : option number) : option number :=
  match baseV, v with
  | Some b, Some w => Some (w - b)
  | _, _ => None
  end.

Definition swing_of (dLow dHigh : option number) : number :=
  match dLow, dHigh with
  | Some l, Some h => max (abs l) (abs h)
  | _, _ => 0
  end.

Definition tornadoRow (baseArgs : ModelInputs) (tornadoMetric : SensMetric)
  (baseV : option number) (s : Scenario) : TornadoRow :=
  let lowM := simulate baseArgs (sc_low s) in
  let highM := simulate baseArgs (sc_high s) in
  let lowV := metricValue lowM tornadoMetric in
  let highV := metricValue highM tornadoMetric in
  let dLow := delta baseV lowV in
  let dHigh := delta baseV highV in
  {| row_name := sc_name s; lowV := lowV; highV := highV;
     dLow := dLow; dHigh := dHigh; swing := swing_of dLow dHigh |}.

(** [rows.sort((a, b) => b.swing - a.swing)].  The sort of the language is
    stable, and it puts [b] before [a] exactly where the comparator is
    positive; with a consistent comparator that result is unique, and
    insertion from the right computes it. *)
Definition comparator (a b : TornadoRow) : number := swing b - swing a.

Fixpoint sort_insert (a : TornadoRow) (l : list TornadoRow) : list TornadoRow :=
  match l with
  | [] => [a]
  | b :: l' =>
      if comparator a b >? 0 then b :: sort_insert a l' else a :: b :: l'
  end.

Definition sort_rows (l : list TornadoRow) : list TornadoRow :=
  fold_right sort_insert [] l.

(** [x || 0] on a number: [0] when [x] is zero or [NaN]. *)
Definition orZero (x : number) : number :=
  match ncompare x 0 with
  | None | Some Eq => 0
  | Some _ => x
  end.

Definition tornado (baseArgs : ModelInputs) (tornadoMetric : SensMetric)
  : Tornado :=
  let model := computeModel baseArgs in
  let baseV := metricValue model tornadoMetric in
  let rows :=
    map (tornadoRow baseArgs tornadoMetric baseV) (scenarios baseArgs) in
  let rows := sort_rows rows in
  let maxSwing :=
    fold_left max (map (fun r => orZero (swing r)) rows) (ofQ 0.000001) in
  {| baseV := baseV; rows := rows; maxSwing := maxSwing |}.

(** * Vocabulary of the statements

    Definitions used to state the properties below: decidable identity of
    numbers, the finiteness of an input record, the closed forms of the
    cash-flow vectors, the rational NPV used by the bisection, and the sample
    deals at which concrete cases are evaluated. *)

(** Decidable identity of numbers, to settle concrete cases by evaluation. *)
Definition same (x y : number) : bool :=
  match x, y with
  | Fin a, Fin b => Qc_eq_bool a b
  | PosInf, PosInf | NegInf, NegInf | NaN, NaN => true
  | _, _ => false
  end.

Definition same_opt (x y : option number) : bool :=
  match x, y with
  | Some a, Some b => same a b
  | None, None => true
  | _, _ => false
  end.

(** The fraction of a defined, finite value. *)
Definition finite_part (x : option number) : option Q :=
  match x with
  | Some (Fin a) => Some (this a)
  | _ => None
  end.

(** The rational of a finite number. *)
Definition valQ (x : number) : Qc :=
  match x with Fin a => a | _ => 0%Qc end.

(** [Math.max] and [Math.min] on rationals. *)
Definition Qcmax (a b : Qc) : Qc :=
  match (a ?= b)%Qc with Lt => b | _ => a end.
Definition Qcmin (a b : Qc) : Qc :=
  match (a ?= b)%Qc with Gt => b | _ => a end.

Definition fin (x : number) : Prop := isFinite x = true.

(** The input record as the caller builds it: every number finite, a hold
    period of at least one year. *)
Definition sanitized (a : ModelInputs) : bool :=
  forallb isFinite
    [squareFootage a; purchasePrice a; dueDiligenceCosts a; closingCostPct a;
     rentGrowth a; otherIncomeGrowth a; vacancyRate a; annualRevenue a;
     otherIncomeAnnual a; rentRollGPR a; rentRollUnits a; opexPctOfRev a;
     opexPerUnitYear a; mgmtFeePct a; reservesPerUnitYear a; opexItemsYear1 a;
     expenseInflation a; recoveryPctOfOpex a; recoveryFlatAnnual a;
     capexPsfYear1 a; capexPerUnitYear1 a; capexGrowth a; exitCapRate a;
     costOfSalePct a; ltv a; interestRate a; discountRate a]
  && (1 <=? saleYear a)%nat.

Definition override_value (o : Override) : number :=
  match o with
  | SetPurchasePrice v | SetExitCapRate v | SetRentGrowth v
  | SetOtherIncomeGrowth v | SetVacancyRate v | SetInterestRate v
  | SetOpexPctOfRev v => v
  end.

(** The operating cash flow of year [y], before financing. *)
Definition opCF (args : ModelInputs) (y : nat) : number :=
  noi_at args y - capexAbs_at args y.

(** What the levered loop leaves at index [y]. *)
Definition leveredAt (args : ModelInputs) (y : nat) : number :=
  if (y =? saleYear args)%nat
  then (opCF args y - debtPmtAnnual args)
       + (saleNetBeforeDebt args - payoff args)
  else opCF args y - debtPmtAnnual args.

(** The NPV of finite flows as a rational, and the constants of [irr]. *)
Definition F (cf : list Qc) (r : Qc) : Qc := valQ (npv (Fin r) (map Fin cf)).

Definition lo0 : Qc := Q2Qc (-0.9999).
Definition hi_at (k : nat) : Qc := (Q2Qc 5 * Q2Qc 2 ^ k)%Qc.
Definition tol : Qc := Q2Qc 0.0000001.

(** The bracket invariant of the bisection: the value at the lower end has
    the strict sign of the value at [lo0] (or the lower end is [lo0]), the
    value at the upper end does not. *)
Definition bracket (cf : list Qc) (lo hi : Qc) : Prop :=
  (lo = lo0 \/ (0 < F cf lo0 * F cf lo)%Qc) /\ (F cf lo0 * F cf hi <= 0)%Qc.

(** The tiers of the specification: undefined is bad, at or above the
    benchmark is good, at or above the floor is a warning, else bad. *)
Definition classify (benchmark floor : number) (v : option number) : Tone :=
  match v with
  | None => bad
  | Some x =>
      if x >=? benchmark then good
      else if x >=? floor then warn
      else bad
  end.

Definition at_least_two (a b c : bool) : bool :=
  (a && b) || (a && c) || (b && c).

Definition swing_ge (a b : TornadoRow) : Prop := (swing a >=? swing b) = true.

(** A sample deal: an office bought for 100 with the given loan-to-value
    ratio, a loan at 12% amortized over one year, held one year, flat revenue
    10, no expenses, the given exit cap rate, no cost of sale. *)
Definition deal (loanToValue exitCap : number) : ModelInputs :=
  {| assetClass := Office; squareFootage := 0; purchasePrice := ofZ 100;
     dueDiligenceCosts := 0; closingCostPct := 0; saleYear := 1;
     rentGrowth := 0; otherIncomeGrowth := 0; vacancyRate := 0;
     annualRevenue := ofZ 10; otherIncomeAnnual := 0; rentRollGPR := 0;
     rentRollUnits := 0; opexMode := PercentOfRevenue; opexPctOfRev := 0;
     opexPerUnitYear := 0; mgmtFeePct := 0; reservesPerUnitYear := 0;
     opexItemsYear1 := 0; expenseInflation := 0;
     recoveryMode := RecoveryNone; recoveryPctOfOpex := 0;
     recoveryFlatAnnual := 0; capexMode := PSFYear; capexPsfYear1 := 0;
     capexPerUnitYear1 := 0; capexGrowth := 0; exitCapRate := exitCap;
     costOfSalePct := 0; ltv := loanToValue; interestRate := ofQ 0.12;
     amortYears := 1; discountRate := ofQ 0.12 |}.

(** Fully financed, exit cap 10%. *)
Definition sample_deal : ModelInputs := deal 1 (ofQ 0.1).
(** Without debt. *)
Definition cash_deal : ModelInputs := deal 0 (ofQ 0.1).
(** With an exit cap rate of 0.005%. *)
Definition low_cap_deal : ModelInputs := deal 1 (ofQ 0.00005).

(** The sample deal after the rent growth is edited from 0 to 10%. *)
Definition sample_deal_edited : ModelInputs :=
  withField sample_deal (SetRentGrowth (ofQ 0.1)).

(** A deal with a thin margin, without debt: an office bought for 100, held
    one year, flat revenue 10, operating expenses 98% of revenue, exit cap
    10%.  Three points more of expenses make every cash flow negative. *)
Definition thin_deal : ModelInputs :=
  {| assetClass := Office; squareFootage := 0; purchasePrice := ofZ 100;
     dueDiligenceCosts := 0; closingCostPct := 0; saleYear := 1;
     rentGrowth := 0; otherIncomeGrowth := 0; vacancyRate := 0;
     annualRevenue := ofZ 10; otherIncomeAnnual := 0; rentRollGPR := 0;
     rentRollUnits := 0; opexMode := PercentOfRevenue;
     opexPctOfRev := ofQ 0.98; opexPerUnitYear := 0; mgmtFeePct := 0;
     reservesPerUnitYear := 0; opexItemsYear1 := 0; expenseInflation := 0;
     recoveryMode := RecoveryNone; recoveryPctOfOpex := 0;
     recoveryFlatAnnual := 0; capexMode := PSFYear; capexPsfYear1 := 0;
     capexPerUnitYear1 := 0; capexGrowth := 0; exitCapRate := ofQ 0.1;
     costOfSalePct := 0; ltv := 0; interestRate := ofQ 0.12;
     amortYears := 1; discountRate := ofQ 0.12 |}.

(** The sign of a number: [None] for [NaN]. *)
Definition sgn (x : number) : option comparison := ncompare x 0.

(** A pair of flows of the order of [10^40]. *)
Definition steep_flows : list number :=
  [ofZ (-10000000000000000000000000000000000000000);
   ofZ 11000000000000000000000000000000000000000].

(** The scenario of the specification: price 1,000,000, held one year, flat
    rent 100,000, no growth, vacancy, expenses or capital expenditure, exit
    cap 10%, no cost of sale, no debt. *)
Definition spec_scenario : ModelInputs :=
  {| assetClass := Office; squareFootage := 0; purchasePrice := ofZ 1000000;
     dueDiligenceCosts := 0; closingCostPct := 0; saleYear := 1;
     rentGrowth := 0; otherIncomeGrowth := 0; vacancyRate := 0;
     annualRevenue := ofZ 100000; otherIncomeAnnual := 0; rentRollGPR := 0;
     rentRollUnits := 0; opexMode := PercentOfRevenue; opexPctOfRev := 0;
     opexPerUnitYear := 0; mgmtFeePct := 0; reservesPerUnitYear := 0;
     opexItemsYear1 := 0; expenseInflation := 0;
     recoveryMode := RecoveryNone; recoveryPctOfOpex := 0;
     recoveryFlatAnnual := 0; capexMode := PSFYear; capexPsfYear1 := 0;
     capexPerUnitYear1 := 0; capexGrowth := 0; exitCapRate := ofQ 0.1;
     costOfSalePct := 0; ltv := 0; interestRate := ofQ 0.06;
     amortYears := 30; discountRate := ofQ 0.12 |}.

(** * The page *)

(** ** The form state and the record built from it

    The page keeps every input as the text of its field.  [Number], the
    conversion of the language from a string to a number ([NaN] for a text
    that is no number), is a parameter; [clampNum] calls it on a string. *)

(** [sum(arr)]: [arr.reduce((a, b) => a + b, 0)]. *)
Definition sum (arr : list number) : number := fold_left add arr 0.

(** [Math.floor]. *)
Definition floor (x : number) : number :=
  match x with
  | Fin a => Fin (Q2Qc (inject_Z (Qfloor a)))
  | _ => x
  end.

(** The integer a number holds, for the two inputs the engine takes as
    integers; it is only read off results of [Math.floor] on finite
    numbers. *)
Definition intOf (x : number) : Z :=
  match x with
  | Fin a => Qfloor a
  | _ => 0%Z
  end.

Record UnitRow : Type :=
  { u_id : string; u_name : string; u_units : string; u_rent : string }.

Record OpexRow : Type :=
  { o_id : string; o_name : string; o_annual : string }.

Inductive TopTab : Type := Underwrite | SensitivityTab | Exports | DealLibrary.

(** A saved deal: the texts of the form, with an identifier, a name and a
    creation time. *)
Record DealSnapshot : Type :=
  { d_id : string;
    d_name : string;
    d_createdAt : number;
    d_assetClass : AssetClass;
    d_squareFootage : string;
    d_purchasePrice : string;
    d_dueDiligenceCosts : string;
    d_closingCostPct : string;
    d_saleYear : string;
    d_rentGrowth : string;
    d_otherIncomeGrowth : string;
    d_opexGrowth : string;
    d_vacancyRate : string;
    d_annualRevenue : string;
    d_otherIncomeAnnual : string;
    d_unitTypes : list UnitRow;
    d_opexMode : OpexMode;
    d_opexPctOfRev : string;
    d_opexPerUnitYear : string;
    d_mgmtFeePct : string;
    d_reservesPerUnitYear : string;
    d_opexItems : list OpexRow;
    d_expenseInflation : string;
    d_recoveryMode : RecoveryMode;
    d_recoveryPctOfOpex : string;
    d_recoveryFlatAnnual : string;
    d_capexMode : CapexMode;
    d_capexPsfYear1 : string;
    d_capexPerUnitYear1 : string;
    d_capexGrowth : string;
    d_exitCapRate : string;
    d_costOfSalePct : string;
    d_ltv : string;
    d_interestRate : string;
    d_amortYears : string;
    d_discountRate : string }.

(** The state of the page ([useState] variables). *)
Record PageState : Type :=
  { st_activeTab : TopTab;
    st_assetClass : AssetClass;
    st_squareFootage : string;
    st_purchasePrice : string;
    st_dueDiligenceCosts : string;
    st_closingCostPct : string;
    st_saleYear : string;
    st_rentGrowth : string;
    st_otherIncomeGrowth : string;
    st_opexGrowth : string;
    st_vacancyRate : string;
    st_annualRevenue : string;
    st_otherIncomeAnnual : string;
    st_unitTypes : list UnitRow;
    st_opexMode : OpexMode;
    st_opexPctOfRev : string;
    st_opexPerUnitYear : string;
    st_mgmtFeePct : string;
    st_reservesPerUnitYear : string;
    st_opexItems : list OpexRow;
    st_expenseInflation : string;
    st_recoveryMode : RecoveryMode;
    st_recoveryPctOfOpex : string;
    st_recoveryFlatAnnual : string;
    st_capexMode : CapexMode;
    st_capexPsfYear1 : string;
    st_capexPerUnitYear1 : string;
    st_capexGrowth : string;
    st_exitCapRate : string;
    st_costOfSalePct : string;
    st_ltv : string;
    st_interestRate : string;
    st_amortYears : string;
    st_discountRate : string;
    st_sensMetric : SensMetric;
    st_tornadoMetric : SensMetric;
    st_savedDeals : list DealSnapshot;
    st_dealName : string }.

(** A rent-roll row with its parsed numbers. *)
Record UnitRowN : Type :=
  { un_row : UnitRow; unitsN : number; rentN : number }.

Record RentRoll : Type :=
  { rr_rows : list UnitRowN; totalUnits : number; gpr : number }.

Section Form.

Variable Number : string -> number.

(** [clampNum] on the text of a field; the fallback defaults to 0. *)
Definition clampNumS (v : string) (fallback : number) : number :=
  clampNum (Number v) fallback.

Definition rentRoll (unitTypes : list UnitRow) : RentRoll :=
  let rows :=
    filter (fun r => (unitsN r >? 0) && (rentN r >=? 0))
      (map (fun r =>
              {| un_row := r;
                 unitsN := max 0 (floor (clampNumS (u_units r) 0));
                 rentN := max 0 (clampNumS (u_rent r) 0) |})
           unitTypes) in
  let totalUnits := sum (map unitsN rows) in
  let gpr := sum (map (fun r => unitsN r * rentN r * ofZ 12) rows) in
  {| rr_rows := rows; totalUnits := totalUnits; gpr := gpr |}.

Definition opexItemsYear1_of (opexItems : list OpexRow) : number :=
  sum (map (fun x => max 0 (clampNumS (o_annual x) 0)) opexItems).

Definition baseArgs (st : PageState) : ModelInputs :=
  let N := max 1 (floor (clampNumS (st_saleYear st) (ofZ 7))) in
  {| assetClass := st_assetClass st;
     squareFootage := max 0 (clampNumS (st_squareFootage st) 0);
     purchasePrice := max 0 (clampNumS (st_purchasePrice st) 0);
     dueDiligenceCosts := max 0 (clampNumS (st_dueDiligenceCosts st) 0);
     closingCostPct := max 0 (clampNumS (st_closingCostPct st) 0);
     saleYear := Z.to_nat (intOf N);
     rentGrowth := clampNumS (st_rentGrowth st) 0;
     otherIncomeGrowth := clampNumS (st_otherIncomeGrowth st) 0;
     vacancyRate := clampNumS (st_vacancyRate st) 0;
     annualRevenue := max 0 (clampNumS (st_annualRevenue st) 0);
     otherIncomeAnnual := max 0 (clampNumS (st_otherIncomeAnnual st) 0);
     rentRollGPR := gpr (rentRoll (st_unitTypes st));
     rentRollUnits := totalUnits (rentRoll (st_unitTypes st));
     opexMode := st_opexMode st;
     opexPctOfRev := max 0 (clampNumS (st_opexPctOfRev st) 0);
     opexPerUnitYear := max 0 (clampNumS (st_opexPerUnitYear st) 0);
     mgmtFeePct := max 0 (clampNumS (st_mgmtFeePct st) 0);
     reservesPerUnitYear := max 0 (clampNumS (st_reservesPerUnitYear st) 0);
     opexItemsYear1 := opexItemsYear1_of (st_opexItems st);
     expenseInflation := clampNumS (st_opexGrowth st) 0;
     recoveryMode := st_recoveryMode st;
     recoveryPctOfOpex := max 0 (clampNumS (st_recoveryPctOfOpex st) 0);
     recoveryFlatAnnual := max 0 (clampNumS (st_recoveryFlatAnnual st) 0);
     capexMode := st_capexMode st;
     capexPsfYear1 := max 0 (clampNumS (st_capexPsfYear1 st) 0);
     capexPerUnitYear1 := max 0 (clampNumS (st_capexPerUnitYear1 st) 0);
     capexGrowth := clampNumS (st_capexGrowth st) 0;
     exitCapRate :=
       max (ofQ 0.000000001) (clampNumS (st_exitCapRate st) (ofQ 0.065));
     costOfSalePct := max 0 (clampNumS (st_costOfSalePct st) 0);
     ltv := max 0 (if clampNumS (st_ltv st) 0 >? 1
                   then clampNumS (st_ltv st) 0 / ofZ 100
                   else clampNumS (st_ltv st) 0);
     interestRate :=
       max 0 (if clampNumS (st_interestRate st) 0 >? 1
              then clampNumS (st_interestRate st) 0 / ofZ 100
              else clampNumS (st_interestRate st) 0);
     amortYears := intOf (max 1 (floor (clampNumS (st_amortYears st) (ofZ 30))));
     discountRate := max 0 (clampNumS (st_discountRate st) 0) |}.

(** [const model = computeModel(baseArgs)]. *)
Definition model_of (st : PageState) : Model := computeModel (baseArgs st).

(** The annual rent the rent-roll table shows on the line of a row. *)
Definition unitRowAnnual (r : UnitRow) : number :=
  let u := max 0 (floor (clampNumS (u_units r) 0)) in
  let rent := max 0 (clampNumS (u_rent r) 0) in
  let annual := u * rent * ofZ 12 in
  annual.

End Form.

(** The widths, in percent, of the two bars the tornado chart draws for a
    row. *)
Definition leftPct (t : Tornado) (r : TornadoRow) : number :=
  match dLow r with
  | None => 0
  | Some d => min (ofZ 100) (abs d / maxSwing t * ofZ 100)
  end.

Definition rightPct (t : Tornado) (r : TornadoRow) : number :=
  match dHigh r with
  | None => 0
  | Some d => min (ofZ 100) (abs d / maxSwing t * ofZ 100)
  end.

(** ** Editing the form and the deal library

    Each action of the page is a function on its state.  The identifier
    [uid()] draws, the clock [Date.now()] and [String.prototype.trim] are
    parameters.  What the actions write to the browser's storage is not
    modelled. *)

(** The state setters the actions below use. *)

(** [setUnitTypes(v)]. *)
Definition setUnitTypes (v : list UnitRow) (st : PageState) : PageState :=
  {| st_activeTab := st_activeTab st;
     st_assetClass := st_assetClass st;
     st_squareFootage := st_squareFootage st;
     st_purchasePrice := st_purchasePrice st;
     st_dueDiligenceCosts := st_dueDiligenceCosts st;
     st_closingCostPct := st_closingCostPct st;
     st_saleYear := st_saleYear st;
     st_rentGrowth := st_rentGrowth st;
     st_otherIncomeGrowth := st_otherIncomeGrowth st;
     st_opexGrowth := st_opexGrowth st;
     st_vacancyRate := st_vacancyRate st;
     st_annualRevenue := st_annualRevenue st;
     st_otherIncomeAnnual := st_otherIncomeAnnual st;
     st_unitTypes := v;
     st_opexMode := st_opexMode st;
     st_opexPctOfRev := st_opexPctOfRev st;
     st_opexPerUnitYear := st_opexPerUnitYear st;
     st_mgmtFeePct := st_mgmtFeePct st;
     st_reservesPerUnitYear := st_reservesPerUnitYear st;
     st_opexItems := st_opexItems st;
     st_expenseInflation := st_expenseInflation st;
     st_recoveryMode := st_recoveryMode st;
     st_recoveryPctOfOpex := st_recoveryPctOfOpex st;
     st_recoveryFlatAnnual := st_recoveryFlatAnnual st;
     st_capexMode := st_capexMode st;
     st_capexPsfYear1 := st_capexPsfYear1 st;
     st_capexPerUnitYear1 := st_capexPerUnitYear1 st;
     st_capexGrowth := st_capexGrowth st;
     st_exitCapRate := st_exitCapRate st;
     st_costOfSalePct := st_costOfSalePct st;
     st_ltv := st_ltv st;
     st_interestRate := st_interestRate st;
     st_amortYears := st_amortYears st;
     st_discountRate := st_discountRate st;
     st_sensMetric := st_sensMetric st;
     st_tornadoMetric := st_tornadoMetric st;
     st_savedDeals := st_savedDeals st;
     st_dealName := st_dealName st |}.

(** [setOpexItems(v)]. *)
Definition setOpexItems (v : list OpexRow) (st : PageState) : PageState :=
  {| st_activeTab := st_activeTab st;
     st_assetClass := st_assetClass st;
     st_squareFootage := st_squareFootage st;
     st_purchasePrice := st_purchasePrice st;
     st_dueDiligenceCosts := st_dueDiligenceCosts st;
     st_closingCostPct := st_closingCostPct st;
     st_saleYear := st_saleYear st;
     st_rentGrowth := st_rentGrowth st;
     st_otherIncomeGrowth := st_otherIncomeGrowth st;
     st_opexGrowth := st_opexGrowth st;
     st_vacancyRate := st_vacancyRate st;
     st_annualRevenue := st_annualRevenue st;
     st_otherIncomeAnnual := st_otherIncomeAnnual st;
     st_unitTypes := st_unitTypes st;
     st_opexMode := st_opexMode st;
     st_opexPctOfRev := st_opexPctOfRev st;
     st_opexPerUnitYear := st_opexPerUnitYear st;
     st_mgmtFeePct := st_mgmtFeePct st;
     st_reservesPerUnitYear := st_reservesPerUnitYear st;
     st_opexItems := v;
     st_expenseInflation := st_expenseInflation st;
     st_recoveryMode := st_recoveryMode st;
     st_recoveryPctOfOpex := st_recoveryPctOfOpex st;
     st_recoveryFlatAnnual := st_recoveryFlatAnnual st;
     st_capexMode := st_capexMode st;
     st_capexPsfYear1 := st_capexPsfYear1 st;
     st_capexPerUnitYear1 := st_capexPerUnitYear1 st;
     st_capexGrowth := st_capexGrowth st;
     st_exitCapRate := st_exitCapRate st;
     st_costOfSalePct := st_costOfSalePct st;
     st_ltv := st_ltv st;
     st_interestRate := st_interestRate st;
     st_amortYears := st_amortYears st;
     st_discountRate := st_discountRate st;
     st_sensMetric := st_sensMetric st;
     st_tornadoMetric := st_tornadoMetric st;
     st_savedDeals := st_savedDeals st;
     st_dealName := st_dealName st |}.

(** [setLtv(v)]. *)
Definition setLtv (v : string) (st : PageState) : PageState :=
  {| st_activeTab := st_activeTab st;
     st_assetClass := st_assetClass st;
     st_squareFootage := st_squareFootage st;
     st_purchasePrice := st_purchasePrice st;
     st_dueDiligenceCosts := st_dueDiligenceCosts st;
     st_closingCostPct := st_closingCostPct st;
     st_saleYear := st_saleYear st;
     st_rentGrowth := st_rentGrowth st;
     st_otherIncomeGrowth := st_otherIncomeGrowth st;
     st_opexGrowth := st_opexGrowth st;
     st_vacancyRate := st_vacancyRate st;
     st_annualRevenue := st_annualRevenue st;
     st_otherIncomeAnnual := st_otherIncomeAnnual st;
     st_unitTypes := st_unitTypes st;
     st_opexMode := st_opexMode st;
     st_opexPctOfRev := st_opexPctOfRev st;
     st_opexPerUnitYear := st_opexPerUnitYear st;
     st_mgmtFeePct := st_mgmtFeePct st;
     st_reservesPerUnitYear := st_reservesPerUnitYear st;
     st_opexItems := st_opexItems st;
     st_expenseInflation := st_expenseInflation st;
     st_recoveryMode := st_recoveryMode st;
     st_recoveryPctOfOpex := st_recoveryPctOfOpex st;
     st_recoveryFlatAnnual := st_recoveryFlatAnnual st;
     st_capexMode := st_capexMode st;
     st_capexPsfYear1 := st_capexPsfYear1 st;
     st_capexPerUnitYear1 := st_capexPerUnitYear1 st;
     st_capexGrowth := st_capexGrowth st;
     st_exitCapRate := st_exitCapRate st;
     st_costOfSalePct := st_costOfSalePct st;
     st_ltv := v;
     st_interestRate := st_interestRate st;
     st_amortYears := st_amortYears st;
     st_discountRate := st_discountRate st;
     st_sensMetric := st_sensMetric st;
     st_tornadoMetric := st_tornadoMetric st;
     st_savedDeals := st_savedDeals st;
     st_dealName := st_dealName st |}.

(** [setInterestRate(v)]. *)
Definition setInterestRate (v : string) (st : PageState) : PageState :=
  {| st_activeTab := st_activeTab st;
     st_assetClass := st_assetClass st;
     st_squareFootage := st_squareFootage st;
     st_purchasePrice := st_purchasePrice st;
     st_dueDiligenceCosts := st_dueDiligenceCosts st;
     st_closingCostPct := st_closingCostPct st;
     st_saleYear := st_saleYear st;
     st_rentGrowth := st_rentGrowth st;
     st_otherIncomeGrowth := st_otherIncomeGrowth st;
     st_opexGrowth := st_opexGrowth st;
     st_vacancyRate := st_vacancyRate st;
     st_annualRevenue := st_annualRevenue st;
     st_otherIncomeAnnual := st_otherIncomeAnnual st;
     st_unitTypes := st_unitTypes st;
     st_opexMode := st_opexMode st;
     st_opexPctOfRev := st_opexPctOfRev st;
     st_opexPerUnitYear := st_opexPerUnitYear st;
     st_mgmtFeePct := st_mgmtFeePct st;
     st_reservesPerUnitYear := st_reservesPerUnitYear st;
     st_opexItems := st_opexItems st;
     st_expenseInflation := st_expenseInflation st;
     st_recoveryMode := st_recoveryMode st;
     st_recoveryPctOfOpex := st_recoveryPctOfOpex st;
     st_recoveryFlatAnnual := st_recoveryFlatAnnual st;
     st_capexMode := st_capexMode st;
     st_capexPsfYear1 := st_capexPsfYear1 st;
     st_capexPerUnitYear1 := st_capexPerUnitYear1 st;
     st_capexGrowth := st_capexGrowth st;
     st_exitCapRate := st_exitCapRate st;
     st_costOfSalePct := st_costOfSalePct st;
     st_ltv := st_ltv st;
     st_interestRate := v;
     st_amortYears := st_amortYears st;
     st_discountRate := st_discountRate st;
     st_sensMetric := st_sensMetric st;
     st_tornadoMetric := st_tornadoMetric st;
     st_savedDeals := st_savedDeals st;
     st_dealName := st_dealName st |}.

(** [setSavedDeals(v)]. *)
Definition setSavedDeals (v : list DealSnapshot) (st : PageState) : PageState :=
  {| st_activeTab := st_activeTab st;
     st_assetClass := st_assetClass st;
     st_squareFootage := st_squareFootage st;
     st_purchasePrice := st_purchasePrice st;
     st_dueDiligenceCosts := st_dueDiligenceCosts st;
     st_closingCostPct := st_closingCostPct st;
     st_saleYear := st_saleYear st;
     st_rentGrowth := st_rentGrowth st;
     st_otherIncomeGrowth := st_otherIncomeGrowth st;
     st_opexGrowth := st_opexGrowth st;
     st_vacancyRate := st_vacancyRate st;
     st_annualRevenue := st_annualRevenue st;
     st_otherIncomeAnnual := st_otherIncomeAnnual st;
     st_unitTypes := st_unitTypes st;
     st_opexMode := st_opexMode st;
     st_opexPctOfRev := st_opexPctOfRev st;
     st_opexPerUnitYear := st_opexPerUnitYear st;
     st_mgmtFeePct := st_mgmtFeePct st;
     st_reservesPerUnitYear := st_reservesPerUnitYear st;
     st_opexItems := st_opexItems st;
     st_expenseInflation := st_expenseInflation st;
     st_recoveryMode := st_recoveryMode st;
     st_recoveryPctOfOpex := st_recoveryPctOfOpex st;
     st_recoveryFlatAnnual := st_recoveryFlatAnnual st;
     st_capexMode := st_capexMode st;
     st_capexPsfYear1 := st_capexPsfYear1 st;
     st_capexPerUnitYear1 := st_capexPerUnitYear1 st;
     st_capexGrowth := st_capexGrowth st;
     st_exitCapRate := st_exitCapRate st;
     st_costOfSalePct := st_costOfSalePct st;
     st_ltv := st_ltv st;
     st_interestRate := st_interestRate st;
     st_amortYears := st_amortYears st;
     st_discountRate := st_discountRate st;
     st_sensMetric := st_sensMetric st;
     st_tornadoMetric := st_tornadoMetric st;
     st_savedDeals := v;
     st_dealName := st_dealName st |}.

(** [Partial<UnitRow>] and [Partial<OpexRow>]: the fields a patch holds. *)
Record UnitPatch : Type :=
  { p_id : option string;
    p_name : option string;
    p_units : option string;
    p_rent : option string }.

Record OpexPatch : Type :=
  { q_id : option string; q_name : option string; q_annual : option string }.

(** [x ?? d] on a field of a patch. *)
Definition orElse {A : Type} (o : option A) (d : A) : A :=
  match o with Some v => v | None => d end.

(** [{ ...r, ...patch }]. *)
Definition patchUnit (r : UnitRow) (patch : UnitPatch) : UnitRow :=
  {| u_id := orElse (p_id patch) (u_id r);
     u_name := orElse (p_name patch) (u_name r);
     u_units := orElse (p_units patch) (u_units r);
     u_rent := orElse (p_rent patch) (u_rent r) |}.

Definition patchOpex (r : OpexRow) (patch : OpexPatch) : OpexRow :=
  {| o_id := orElse (q_id patch) (o_id r);
     o_name := orElse (q_name patch) (o_name r);
     o_annual := orElse (q_annual patch) (o_annual r) |}.

Definition updateUnitRow (id : string) (patch : UnitPatch) (st : PageState)
  : PageState :=
  setUnitTypes
    (map (fun r => if String.eqb (u_id r) id then patchUnit r patch else r)
         (st_unitTypes st))
    st.

(** [uid] is the identifier the call draws. *)
Definition addUnitRow (uid : string) (st : PageState) : PageState :=
  setUnitTypes
    (st_unitTypes st
       ++ [{| u_id := uid; u_name := "New"; u_units := "0"; u_rent := "0" |}])
    st.

Definition removeUnitRow (id : string) (st : PageState) : PageState :=
  setUnitTypes
    (filter (fun r => negb (String.eqb (u_id r) id)) (st_unitTypes st)) st.

Definition updateOpexRow (id : string) (patch : OpexPatch) (st : PageState)
  : PageState :=
  setOpexItems
    (map (fun r => if String.eqb (o_id r) id then patchOpex r patch else r)
         (st_opexItems st))
    st.

Definition addOpexRow (uid : string) (st : PageState) : PageState :=
  setOpexItems
    (st_opexItems st
       ++ [{| o_id := uid; o_name := "Custom Expense"; o_annual := "0" |}])
    st.

Definition removeOpexRow (id : string) (st : PageState) : PageState :=
  setOpexItems
    (filter (fun r => negb (String.eqb (o_id r) id)) (st_opexItems st)) st.

Section Library.

Variable trim : string -> string.

(** [s.trim() ? s.trim() : d], and [s.trim() || d]: the empty string is the
    only falsy string. *)
Definition trimmedOr (s d : string) : string :=
  if String.eqb (trim s) EmptyString then d else trim s.

(** [uid] and [now] are what [uid()] and [Date.now()] return. *)
Definition snapshotCurrentDeal (uid : string) (now : number) (st : PageState)
  : DealSnapshot :=
  {| d_id := uid;
     d_name := trimmedOr (st_dealName st) "Untitled Deal";
     d_createdAt := now;
     d_assetClass := st_assetClass st;
     d_squareFootage := st_squareFootage st;
     d_purchasePrice := st_purchasePrice st;
     d_dueDiligenceCosts := st_dueDiligenceCosts st;
     d_closingCostPct := st_closingCostPct st;
     d_saleYear := st_saleYear st;
     d_rentGrowth := st_rentGrowth st;
     d_otherIncomeGrowth := st_otherIncomeGrowth st;
     d_opexGrowth := st_opexGrowth st;
     d_vacancyRate := st_vacancyRate st;
     d_annualRevenue := st_annualRevenue st;
     d_otherIncomeAnnual := st_otherIncomeAnnual st;
     d_unitTypes := st_unitTypes st;
     d_opexMode := st_opexMode st;
     d_opexPctOfRev := st_opexPctOfRev st;
     d_opexPerUnitYear := st_opexPerUnitYear st;
     d_mgmtFeePct := st_mgmtFeePct st;
     d_reservesPerUnitYear := st_reservesPerUnitYear st;
     d_opexItems := st_opexItems st;
     d_expenseInflation := st_expenseInflation st;
     d_recoveryMode := st_recoveryMode st;
     d_recoveryPctOfOpex := st_recoveryPctOfOpex st;
     d_recoveryFlatAnnual := st_recoveryFlatAnnual st;
     d_capexMode := st_capexMode st;
     d_capexPsfYear1 := st_capexPsfYear1 st;
     d_capexPerUnitYear1 := st_capexPerUnitYear1 st;
     d_capexGrowth := st_capexGrowth st;
     d_exitCapRate := st_exitCapRate st;
     d_costOfSalePct := st_costOfSalePct st;
     d_ltv := st_ltv st;
     d_interestRate := st_interestRate st;
     d_amortYears := st_amortYears st;
     d_discountRate := st_discountRate st |}.

(** [[snapshot, ...savedDeals].slice(0, 50)]. *)
Definition saveDeal (uid : string) (now : number) (st : PageState)
  : PageState :=
  let next := firstn 50 (snapshotCurrentDeal uid now st :: st_savedDeals st) in
  setSavedDeals next st.

Definition deleteDeal (id : string) (st : PageState) : PageState :=
  let next :=
    filter (fun x => negb (String.eqb (d_id x) id)) (st_savedDeals st) in
  setSavedDeals next st.

Definition renamed (x : DealSnapshot) (name : string) : DealSnapshot :=
  {| d_id := d_id x;
     d_name := trimmedOr name (d_name x);
     d_createdAt := d_createdAt x;
     d_assetClass := d_assetClass x;
     d_squareFootage := d_squareFootage x;
     d_purchasePrice := d_purchasePrice x;
     d_dueDiligenceCosts := d_dueDiligenceCosts x;
     d_closingCostPct := d_closingCostPct x;
     d_saleYear := d_saleYear x;
     d_rentGrowth := d_rentGrowth x;
     d_otherIncomeGrowth := d_otherIncomeGrowth x;
     d_opexGrowth := d_opexGrowth x;
     d_vacancyRate := d_vacancyRate x;
     d_annualRevenue := d_annualRevenue x;
     d_otherIncomeAnnual := d_otherIncomeAnnual x;
     d_unitTypes := d_unitTypes x;
     d_opexMode := d_opexMode x;
     d_opexPctOfRev := d_opexPctOfRev x;
     d_opexPerUnitYear := d_opexPerUnitYear x;
     d_mgmtFeePct := d_mgmtFeePct x;
     d_reservesPerUnitYear := d_reservesPerUnitYear x;
     d_opexItems := d_opexItems x;
     d_expenseInflation := d_expenseInflation x;
     d_recoveryMode := d_recoveryMode x;
     d_recoveryPctOfOpex := d_recoveryPctOfOpex x;
     d_recoveryFlatAnnual := d_recoveryFlatAnnual x;
     d_capexMode := d_capexMode x;
     d_capexPsfYear1 := d_capexPsfYear1 x;
     d_capexPerUnitYear1 := d_capexPerUnitYear1 x;
     d_capexGrowth := d_capexGrowth x;
     d_exitCapRate := d_exitCapRate x;
     d_costOfSalePct := d_costOfSalePct x;
     d_ltv := d_ltv x;
     d_interestRate := d_interestRate x;
     d_amortYears := d_amortYears x;
     d_discountRate := d_discountRate x |}.

Definition renameDeal (id name : string) (st : PageState) : PageState :=
  let next :=
    map (fun x => if String.eqb (d_id x) id then renamed x name else x)
        (st_savedDeals st) in
  setSavedDeals next st.

End Library.

(** [loadDeal(d)]: every field of the form is set from the snapshot, the
    name of the deal too, and the page goes back to the first tab. *)
Definition loadDeal (d : DealSnapshot) (st : PageState) : PageState :=
  {| st_activeTab := Underwrite;
     st_assetClass := d_assetClass d;
     st_squareFootage := d_squareFootage d;
     st_purchasePrice := d_purchasePrice d;
     st_dueDiligenceCosts := d_dueDiligenceCosts d;
     st_closingCostPct := d_closingCostPct d;
     st_saleYear := d_saleYear d;
     st_rentGrowth := d_rentGrowth d;
     st_otherIncomeGrowth := d_otherIncomeGrowth d;
     st_opexGrowth := d_opexGrowth d;
     st_vacancyRate := d_vacancyRate d;
     st_annualRevenue := d_annualRevenue d;
     st_otherIncomeAnnual := d_otherIncomeAnnual d;
     st_unitTypes := d_unitTypes d;
     st_opexMode := d_opexMode d;
     st_opexPctOfRev := d_opexPctOfRev d;
     st_opexPerUnitYear := d_opexPerUnitYear d;
     st_mgmtFeePct := d_mgmtFeePct d;
     st_reservesPerUnitYear := d_reservesPerUnitYear d;
     st_opexItems := d_opexItems d;
     st_expenseInflation := d_expenseInflation d;
     st_recoveryMode := d_recoveryMode d;
     st_recoveryPctOfOpex := d_recoveryPctOfOpex d;
     st_recoveryFlatAnnual := d_recoveryFlatAnnual d;
     st_capexMode := d_capexMode d;
     st_capexPsfYear1 := d_capexPsfYear1 d;
     st_capexPerUnitYear1 := d_capexPerUnitYear1 d;
     st_capexGrowth := d_capexGrowth d;
     st_exitCapRate := d_exitCapRate d;
     st_costOfSalePct := d_costOfSalePct d;
     st_ltv := d_ltv d;
     st_interestRate := d_interestRate d;
     st_amortYears := d_amortYears d;
     st_discountRate := d_discountRate d;
     st_sensMetric := st_sensMetric st;
     st_tornadoMetric := st_tornadoMetric st;
     st_savedDeals := st_savedDeals st;
     st_dealName := d_name d |}.

(** The state the page starts from ([useState] initial values); the three
    identifiers are what the three [uid()] calls of the expense rows
    return. *)
Definition initialState (id1 id2 id3 : string) : PageState :=
  {| st_activeTab := Underwrite;
     st_assetClass := Multifamily;
     st_squareFootage := "329831";
     st_purchasePrice := "113000000";
     st_dueDiligenceCosts := "225000";
     st_closingCostPct := "0.00";
     st_saleYear := "7";
     st_rentGrowth := "0.03";
     st_otherIncomeGrowth := "0.03";
     st_opexGrowth := "0.00";
     st_vacancyRate := "0.025";
     st_annualRevenue := "7000000";
     st_otherIncomeAnnual := "0";
     st_unitTypes :=
       [{| u_id := "a"; u_name := "1x1"; u_units := "12"; u_rent := "2400" |};
        {| u_id := "b"; u_name := "2x2"; u_units := "8"; u_rent := "3100" |}];
     st_opexMode := PercentOfRevenue;
     st_opexPctOfRev := "0.30";
     st_opexPerUnitYear := "6500";
     st_mgmtFeePct := "0.00";
     st_reservesPerUnitYear := "0";
     st_opexItems :=
       [{| o_id := id1; o_name := "Property Taxes"; o_annual := "0" |};
        {| o_id := id2; o_name := "Insurance"; o_annual := "0" |};
        {| o_id := id3; o_name := "Repairs & Maintenance"; o_annual := "0" |}];
     st_expenseInflation := "0.03";
     st_recoveryMode := RecoveryNone;
     st_recoveryPctOfOpex := "1.00";
     st_recoveryFlatAnnual := "0";
     st_capexMode := PSFYear;
     st_capexPsfYear1 := "0.30";
     st_capexPerUnitYear1 := "350";
     st_capexGrowth := "0.03";
     st_exitCapRate := "0.065";
     st_costOfSalePct := "0.004";
     st_ltv := "0.55";
     st_interestRate := "0.065";
     st_amortYears := "30";
     st_discountRate := "0.12";
     st_sensMetric := LeveredIRR;
     st_tornadoMetric := LeveredIRR;
     st_savedDeals := [];
     st_dealName := "My Deal" |}.

(** ** Memoized values

    [useMemo(calc, deps)]: the value computed at an earlier render is kept
    as long as every dependency is the same value as at that render;
    otherwise [calc] is run, and it reads the variables of the render that
    runs it. *)
Record Memo (D V : Type) : Type := { memo_deps : D; memo_value : V }.

Arguments memo_deps {D V} _.
Arguments memo_value {D V} _.

Definition useMemo {D V : Type} (sameDeps : D -> D -> bool)
    (prev : option (Memo D V)) (calc : unit -> V) (deps : D) : Memo D V :=
  match prev with
  | Some m =>
      if sameDeps (memo_deps m) deps then m
      else {| memo_deps := deps; memo_value := calc tt |}
  | None => {| memo_deps := deps; memo_value := calc tt |}
  end.

(** The sensitivity grid is memoized on
    [[baseArgs.purchasePrice, baseArgs.exitCapRate, sensMetric]]; its
    callback, [sensitivity], reads the whole of [baseArgs]. *)
Definition SensDeps : Type := (number * number * SensMetric)%type.

Definition sameMetric (a b : SensMetric) : bool :=
  match a, b with
  | LeveredIRR, LeveredIRR | LeveredNPV, LeveredNPV | CoCY1, CoCY1
  | DSCRY1, DSCRY1 | ExitPrice, ExitPrice => true
  | _, _ => false
  end.

(** Dependencies are compared entry by entry, numbers as the same value. *)
Definition sameSensDeps (a b : SensDeps) : bool :=
  let '(pa, ca, ma) := a in
  let '(pb, cb, mb) := b in
  same pa pb && same ca cb && sameMetric ma mb.

Definition sensDeps (baseArgs : ModelInputs) (sensMetric : SensMetric)
  : SensDeps :=
  (purchasePrice baseArgs, exitCapRate baseArgs, sensMetric).

(** One render of the page: the grid it shows. *)
Definition sensitivity_memo (prev : option (Memo SensDeps Sensitivity))
    (baseArgs : ModelInputs) (sensMetric : SensMetric)
  : Memo SensDeps Sensitivity :=
  useMemo sameSensDeps prev (fun _ => sensitivity baseArgs sensMetric)
    (sensDeps baseArgs sensMetric).

(** Renders of the page, one record and one selected metric each, after a
    render that left [prev] ([None] before the first render). *)
Definition sensitivity_renders (prev : option (Memo SensDeps Sensitivity))
    (renders : list (ModelInputs * SensMetric))
  : option (Memo SensDeps Sensitivity) :=
  fold_left (fun prev r => Some (sensitivity_memo prev (fst r) (snd r)))
    renders prev.

(** The grid is computed at a render: it is the first one, or a dependency
    is not what it was. *)
Definition recomputed (prev : option (Memo SensDeps Sensitivity))
    (baseArgs : ModelInputs) (sensMetric : SensMetric) : bool :=
  match prev with
  | None => true
  | Some m => negb (sameSensDeps (memo_deps m) (sensDeps baseArgs sensMetric))
  end.

(** * Further vocabulary *)

(** The level payment and the balance of the amortization formulas as
    rationals: monthly rate [m], [n] monthly periods, [k] payments made. *)
Definition pmtQ (L m : Qc) (n : nat) : Qc :=
  if Qc_eq_bool m 0 then (L / Q2Qc (inject_Z (Z.of_nat n)))%Qc
  else (L * m / (1 - / (1 + m) ^ n))%Qc.

Definition balQ (L m : Qc) (n k : nat) : Qc :=
  if Qc_eq_bool m 0
  then (L * (1 - Q2Qc (inject_Z (Z.of_nat k)) / Q2Qc (inject_Z (Z.of_nat n))))%Qc
  else (L * (1 + m) ^ k - pmtQ L m n * (((1 + m) ^ k - 1) / m))%Qc.

(** * Proofs *)

(** ** The scenarios of the specification, evaluated *)

Example spec_scenario_unlevered :
  map (fun x => finite_part (Some x)) (unleveredCF spec_scenario)
  = [Some (-1000000 # 1)%Q; Some (1100000 # 1)%Q].
Proof. now vm_compute. Qed.

Example spec_scenario_cap_rate :
  option_map (fun x => finite_part (Some x)) (capRate spec_scenario)
  = Some (Some (1 # 10)%Q).
Proof. now vm_compute. Qed.

Example spec_scenario_dscr_undefined : dscr spec_scenario = None.
Proof. reflexivity. Qed.

(** ** Rationals: from [Qc] to [Q] *)

Lemma this_plus (a b : Qc) : (this (a + b)%Qc == this a + this b)%Q.
Proof. apply Qred_correct. Qed.
Lemma this_mult (a b : Qc) : (this (a * b)%Qc == this a * this b)%Q.
Proof. apply Qred_correct. Qed.
Lemma this_opp (a : Qc) : (this (- a)%Qc == - this a)%Q.
Proof. apply Qred_correct. Qed.
Lemma this_inv (a : Qc) : (this (/ a)%Qc == / this a)%Q.
Proof. apply Qred_correct. Qed.
Lemma this_Q2Qc (q : Q) : (this (Q2Qc q) == q)%Q.
Proof. apply Qred_correct. Qed.

(** Turns a goal on [Qc] into one on [Q], where [lra] and [nra] work. *)
Ltac qc_to_q :=
  unfold Qcle, Qclt, Qcdiv, Qcminus in *;
  repeat match goal with
  | H : @eq Qc _ _ |- _ =>
      apply (f_equal this) in H;
      match type of H with
      | ?a = ?b => assert (a == b)%Q by (rewrite H; reflexivity); clear H
      end
  | |- @eq Qc _ _ => apply Qc_is_canon
  | |- ~ @eq Qc _ _ => let E := fresh "E" in intro E
  end;
  repeat (rewrite ?this_plus, ?this_mult, ?this_opp, ?this_inv, ?this_Q2Qc in * );
  unfold inject_Z in *.

Lemma Qc_eq_bool_true_iff (a b : Qc) : Qc_eq_bool a b = true <-> a = b.
Proof.
  split; [apply Qc_eq_bool_correct|].
  intros ->. unfold Qc_eq_bool. destruct (Qc_eq_dec b b); congruence.
Qed.

Lemma Qc_eq_bool_false_iff (a b : Qc) : Qc_eq_bool a b = false <-> a <> b.
Proof.
  rewrite <- Qc_eq_bool_true_iff. destruct (Qc_eq_bool a b); split; congruence.
Qed.

Lemma Qccompare_Eq (a b : Qc) : (a ?= b)%Qc = Eq <-> a = b.
Proof. symmetry. apply Qceq_alt. Qed.
Lemma Qccompare_Lt (a b : Qc) : (a ?= b)%Qc = Lt <-> (a < b)%Qc.
Proof. symmetry. apply Qclt_alt. Qed.
Lemma Qccompare_Gt (a b : Qc) : (a ?= b)%Qc = Gt <-> (b < a)%Qc.
Proof. symmetry. apply Qcgt_alt. Qed.

(** Case analysis on a comparison of rationals, with the order facts. *)
Lemma Qccompare_spec (a b : Qc) :
  CompareSpec (a = b) (a < b)%Qc (b < a)%Qc (a ?= b)%Qc.
Proof.
  destruct (a ?= b)%Qc eqn:E; constructor.
  - now apply Qccompare_Eq.
  - now apply Qccompare_Lt.
  - now apply Qccompare_Gt.
Qed.

Lemma Qcpower_gt_1 (a : Qc) (n : nat) :
  (1 < a)%Qc -> (0 < n)%nat -> (1 < a ^ n)%Qc.
Proof.
  intros Ha Hn. destruct n as [|n]; [lia|]. clear Hn.
  induction n as [|n IH].
  - simpl. rewrite Qcmult_1_r. exact Ha.
  - change (a ^ S (S n))%Qc with (a * a ^ S n)%Qc.
    qc_to_q. nra.
Qed.

Lemma Qcpower_ge_1 (a : Qc) (n : nat) : (1 <= a)%Qc -> (1 <= a ^ n)%Qc.
Proof.
  intros Ha. induction n as [|n IH].
  - simpl. qc_to_q. lra.
  - change (a ^ S n)%Qc with (a * a ^ n)%Qc. qc_to_q. nra.
Qed.

(** ** Numbers *)

Lemma isFinite_Fin (x : number) : isFinite x = true -> exists a, x = Fin a.
Proof. destruct x; simpl; try discriminate. eauto. Qed.

Lemma div_Fin (a b : Qc) : b <> 0%Qc -> Fin a / Fin b = Fin (a / b).
Proof.
  intros Hb. simpl. apply Qc_eq_bool_false_iff in Hb. now rewrite Hb.
Qed.

Lemma clampNum_finite (v d : number) :
  isFinite d = true -> isFinite (clampNum v d) = true.
Proof. unfold clampNum. destruct v; simpl; auto. Qed.

Lemma add_0_r (x : number) : x + 0 = x.
Proof.
  destruct x; try reflexivity. simpl. f_equal. apply Qcplus_0_r.
Qed.

Lemma sub_0_r (x : number) : x - 0 = x.
Proof.
  destruct x; try reflexivity. unfold sub. simpl. f_equal.
  qc_to_q. lra.
Qed.

Lemma mul_1_r (x : number) : x * 1 = x.
Proof.
  destruct x; try reflexivity. simpl. f_equal. apply Qcmult_1_r.
Qed.

Lemma gtb_leb_false (x y : number) : (x >? y) = true -> (x <=? y) = false.
Proof.
  unfold gtb, leb. destruct (ncompare x y) as [[]|]; congruence.
Qed.

Ltac cmp_cases a b :=
  simpl; destruct (Qccompare_spec a b);
  split; intros; try congruence; try discriminate; try (exfalso; qc_to_q; lra);
  try (qc_to_q; lra).

Lemma ltb_Fin (a b : Qc) : (Fin a <? Fin b) = true <-> (a < b)%Qc.
Proof. unfold ltb. cmp_cases a b. Qed.

Lemma gtb_Fin (a b : Qc) : (Fin a >? Fin b) = true <-> (b < a)%Qc.
Proof. unfold gtb. cmp_cases a b. Qed.

Lemma leb_Fin (a b : Qc) : (Fin a <=? Fin b) = true <-> (a <= b)%Qc.
Proof. unfold leb. cmp_cases a b. Qed.

Lemma geb_Fin (a b : Qc) : (Fin a >=? Fin b) = true <-> (b <= a)%Qc.
Proof. unfold geb. cmp_cases a b. Qed.

Lemma eqb_Fin (a b : Qc) : (Fin a === Fin b) = true <-> a = b.
Proof. unfold eqb. cmp_cases a b. Qed.

Lemma gtb_Fin_false (a b : Qc) : (Fin a >? Fin b) = false <-> (a <= b)%Qc.
Proof. unfold gtb. cmp_cases a b. Qed.

Lemma leb_Fin_false (a b : Qc) : (Fin a <=? Fin b) = false <-> (b < a)%Qc.
Proof. unfold leb. cmp_cases a b. Qed.

Lemma ltb_Fin_false (a b : Qc) : (Fin a <? Fin b) = false <-> (b <= a)%Qc.
Proof. unfold ltb. cmp_cases a b. Qed.

Lemma eqb_Fin_false (a b : Qc) : (Fin a === Fin b) = false <-> a <> b.
Proof. unfold eqb. cmp_cases a b. Qed.

Lemma max_Fin (a b : Qc) : max (Fin a) (Fin b) = Fin (Qcmax a b).
Proof. unfold max, Qcmax. simpl. destruct (a ?= b)%Qc; reflexivity. Qed.

Lemma min_Fin (a b : Qc) : min (Fin a) (Fin b) = Fin (Qcmin a b).
Proof. unfold min, Qcmin. simpl. destruct (a ?= b)%Qc; reflexivity. Qed.

Lemma Qcmax_spec (a b : Qc) :
  ((a < b)%Qc /\ Qcmax a b = b) \/ ((b <= a)%Qc /\ Qcmax a b = a).
Proof.
  unfold Qcmax. destruct (Qccompare_spec a b).
  - right. subst. split; [apply Qcle_refl|reflexivity].
  - left. auto.
  - right. split; [now apply Qclt_le_weak|reflexivity].
Qed.

Lemma Qcmin_spec (a b : Qc) :
  ((b < a)%Qc /\ Qcmin a b = b) \/ ((a <= b)%Qc /\ Qcmin a b = a).
Proof.
  unfold Qcmin. destruct (Qccompare_spec a b).
  - right. subst. split; [apply Qcle_refl|reflexivity].
  - right. split; [now apply Qclt_le_weak|reflexivity].
  - left. auto.
Qed.

Lemma Qcmax_lub_l (a b : Qc) : (a <= Qcmax a b)%Qc.
Proof.
  destruct (Qcmax_spec a b) as [[H ->]|[H ->]];
    [now apply Qclt_le_weak | apply Qcle_refl].
Qed.

Lemma Qcmax_lub_r (a b : Qc) : (b <= Qcmax a b)%Qc.
Proof.
  destruct (Qcmax_spec a b) as [[H ->]|[H ->]]; [apply Qcle_refl | exact H].
Qed.

(** Arithmetic on finite numbers is arithmetic on rationals. *)
Lemma zero_Fin : 0 = Fin 0%Qc.
Proof. reflexivity. Qed.
Lemma one_Fin : 1 = Fin 1%Qc.
Proof. reflexivity. Qed.
Lemma add_Fin (a b : Qc) : Fin a + Fin b = Fin (a + b).
Proof. reflexivity. Qed.
Lemma neg_Fin (a : Qc) : - Fin a = Fin (- a).
Proof. reflexivity. Qed.
Lemma sub_Fin (a b : Qc) : Fin a - Fin b = Fin (a - b).
Proof. reflexivity. Qed.
Lemma mul_Fin (a b : Qc) : Fin a * Fin b = Fin (a * b).
Proof. reflexivity. Qed.
Lemma abs_Fin (a : Qc) : abs (Fin a) = Fin (Qcabs a).
Proof. reflexivity. Qed.
Lemma pow_Fin_pos (a : Qc) (p : positive) :
  pow (Fin a) (Z.pos p) = Fin (a ^ Pos.to_nat p).
Proof. reflexivity. Qed.
Lemma pow_Fin_neg (a : Qc) (p : positive) :
  a <> 0%Qc -> pow (Fin a) (Z.neg p) = Fin (/ (a ^ Pos.to_nat p)).
Proof.
  intros Ha. simpl. apply Qc_eq_bool_false_iff in Ha. now rewrite Ha.
Qed.
Lemma pow_Fin_nonneg (a : Qc) (k : Z) :
  (0 <= k)%Z -> pow (Fin a) k = Fin (a ^ Z.to_nat k).
Proof.
  intros Hk. destruct k as [|p|p]; try lia; reflexivity.
Qed.

(** ** Amortization *)

Lemma ofZ_neq_0 (z : Z) : z <> 0%Z -> Q2Qc (inject_Z z) <> 0%Qc.
Proof.
  intros Hz E. qc_to_q. unfold Qeq in *. simpl in *. lia.
Qed.

(** Claim C6.  [pmtMonthly] returns 0 whenever the loan amount is not
    positive or the number of monthly periods [amortYears * 12] is not
    positive.  For a positive loan amount, a positive number of periods and an
    annual rate of 0 it returns the loan amount divided by the number of
    periods: [pmtMonthly L 0 y] is [L / (12 y)]. *)
Theorem pmtMonthly_degenerate_and_zero_rate
  (loanAmount annualRate : number) (amortYears : Z) :
  (((loanAmount <=? 0) = true \/ (amortYears * 12 <= 0)%Z) ->
   pmtMonthly loanAmount annualRate amortYears = 0)
  /\
  ((loanAmount >? 0) = true -> (0 < amortYears * 12)%Z -> annualRate = 0 ->
   pmtMonthly loanAmount annualRate amortYears
   = loanAmount / ofZ (12 * amortYears)).
Proof.
  unfold pmtMonthly. split.
  - intros [H|H].
    + now rewrite H.
    + apply Z.leb_le in H. rewrite H. now rewrite orb_true_r.
  - intros HL Hn ->.
    rewrite (gtb_leb_false _ _ HL).
    assert (E : (amortYears * 12 <=? 0)%Z = false) by (apply Z.leb_gt; lia).
    rewrite E. simpl orb. cbv iota.
    replace (0 / ofZ 12 === 0) with true by (symmetry; now vm_compute).
    now rewrite Z.mul_comm.
Qed.

Lemma pmtMonthly_degenerate_and_zero_rate_witness :
  pmtMonthly (ofZ (-5)) (ofQ 0.06) 30 = 0
  /\ pmtMonthly (ofZ 1200) 0 1 = ofZ 1200 / ofZ (12 * 1).
Proof.
  split.
  - apply (proj1 (pmtMonthly_degenerate_and_zero_rate (ofZ (-5)) (ofQ 0.06) 30)).
    left. reflexivity.
  - apply (proj2 (pmtMonthly_degenerate_and_zero_rate (ofZ 1200) 0 1)).
    + reflexivity.
    + reflexivity.
    + reflexivity.
Defined.

Lemma Z_pos_nat (p : positive) : (0 < Pos.to_nat p)%nat.
Proof. apply Pos2Nat.is_pos. Qed.

(** For a positive monthly rate the level payment is a finite number. *)
Lemma annuity_denominator (m : Qc) (n : nat) :
  (0 < m)%Qc -> (0 < n)%nat -> (1 - / ((1 + m) ^ n) <> 0)%Qc.
Proof.
  intros Hm Hn E.
  assert (H1 : (1 < (1 + m) ^ n)%Qc).
  { apply Qcpower_gt_1; [|exact Hn]. qc_to_q. lra. }
  set (A := ((1 + m) ^ n)%Qc) in *.
  assert (HA : (A * / A = 1)%Qc).
  { apply Qcmult_inv_r. intros E0. rewrite E0 in H1. qc_to_q. lra. }
  qc_to_q. nra.
Qed.

(** Claim C7.  For a loan amount [L > 0], an annual rate [r >= 0] and an
    amortization term of [y >= 1] years, the balance left after the full
    schedule of [12 y] monthly payments is 0: in the exact arithmetic of this
    model the annuity-balance identity holds exactly. *)
Theorem remainingBalance_full_schedule (L r : Qc) (y : Z) :
  (0 < L)%Qc -> (0 <= r)%Qc -> (1 <= y)%Z ->
  remainingBalance (Fin L) (Fin r) y (12 * y) = 0.
Proof.
  intros HL Hr Hy. unfold remainingBalance, pmtMonthly.
  assert (EL : (Fin L <=? 0) = false) by (apply leb_Fin_false; exact HL).
  assert (En : (y * 12 <=? 0)%Z = false) by (apply Z.leb_gt; lia).
  rewrite EL, En. simpl orb. cbv iota.
  assert (H12 : Q2Qc (inject_Z 12) <> 0%Qc) by (apply ofZ_neq_0; lia).
  unfold ofZ. rewrite (div_Fin _ _ H12).
  set (m := (r / Q2Qc (inject_Z 12))%Qc).
  replace (12 * y)%Z with (y * 12)%Z by lia.
  rewrite zero_Fin, one_Fin.
  destruct (Fin m === Fin 0%Qc) eqn:Em.
  - assert (Hn : Q2Qc (inject_Z (y * 12)) <> 0%Qc) by (apply ofZ_neq_0; lia).
    rewrite (div_Fin _ _ Hn), sub_Fin, mul_Fin.
    f_equal. field. exact Hn.
  - apply eqb_Fin_false in Em.
    assert (Hm : (0 < m)%Qc).
    { assert (H : (0 <= m)%Qc).
      { unfold m. qc_to_q.
        apply Qmult_le_0_compat; [assumption|]. apply Qinv_le_0_compat. lra. }
      destruct (Qcle_lt_or_eq _ _ H) as [?|E]; [assumption|].
      exfalso. apply Em. symmetry. exact E. }
    destruct (y * 12)%Z as [|p|p] eqn:Ep; try lia.
    assert (Hbase : (1 + m)%Qc <> 0%Qc) by (qc_to_q; lra).
    pose proof (annuity_denominator m (Pos.to_nat p) Hm (Z_pos_nat p)) as Hden.
    simpl Z.opp.
    rewrite add_Fin, pow_Fin_pos, (pow_Fin_neg _ _ Hbase).
    set (A := ((1 + m) ^ Pos.to_nat p)%Qc) in *.
    assert (HA : (1 < A)%Qc).
    { apply Qcpower_gt_1; [|apply Z_pos_nat]. qc_to_q. lra. }
    assert (HA0 : A <> 0%Qc) by (intros E0; rewrite E0 in HA; qc_to_q; lra).
    rewrite !sub_Fin, !mul_Fin, (div_Fin _ _ Hden), (div_Fin _ _ Em).
    rewrite mul_Fin, sub_Fin.
    f_equal. field. repeat split; try assumption.
    intros E. assert (E' : (A - 1)%Qc = 0%Qc) by exact E.
    apply (Qclt_not_eq _ _ HA). symmetry.
    rewrite <- (Qcplus_0_l 1), <- E'. ring.
Qed.

Lemma remainingBalance_full_schedule_witness :
  remainingBalance (Fin (Q2Qc 500000)) (Fin (Q2Qc 0.06)) 30 (12 * 30) = 0.
Proof.
  apply remainingBalance_full_schedule.
  - reflexivity.
  - discriminate.
  - lia.
Defined.

(** ** Arrays and loops *)

Lemma upd_length (l : list number) (i : nat) (v : number) :
  List.length (upd l i v) = List.length l.
Proof.
  revert i. induction l as [|x l IH]; intros [|i]; simpl; auto.
Qed.

Lemma get_upd_same (l : list number) (i : nat) (v : number) :
  (i < List.length l)%nat -> get (upd l i v) i = v.
Proof.
  unfold get. revert i. induction l as [|x l IH]; intros [|i]; simpl; intros H;
    try lia; auto. apply IH. lia.
Qed.

Lemma get_upd_other (l : list number) (i j : nat) (v : number) :
  i <> j -> get (upd l i v) j = get l j.
Proof.
  unfold get. revert i j. induction l as [|x l IH]; intros [|i] [|j] H; simpl;
    try congruence; auto.
Qed.

Lemma upd_upd (l : list number) (i : nat) (v w : number) :
  upd (upd l i v) i w = upd l i w.
Proof.
  revert i. induction l as [|x l IH]; intros [|i]; simpl; auto.
  now rewrite IH.
Qed.

Lemma filled_length (n : nat) : List.length (filled n) = n.
Proof. apply repeat_length. Qed.

Lemma for_1_to_S {S : Type} (n : nat) (body : nat -> S -> S) (s : S) :
  for_1_to (Datatypes.S n) body s = body (Datatypes.S n) (for_1_to n body s).
Proof.
  unfold for_1_to. rewrite seq_S, fold_left_app. reflexivity.
Qed.

Lemma for_1_to_ext {S : Type} (n : nat) (f g : nat -> S -> S) (s : S) :
  (forall y x, (1 <= y <= n)%nat -> f y x = g y x) ->
  for_1_to n f s = for_1_to n g s.
Proof.
  induction n as [|n IH]; intros H; [reflexivity|].
  rewrite !for_1_to_S, IH by (intros; apply H; lia). apply H. lia.
Qed.

(** A loop that writes [f y] at index [y], for [y] from 1 to [n]. *)
Lemma fill_length (n : nat) (f : nat -> number) (l : list number) :
  List.length (for_1_to n (fun y a => upd a y (f y)) l) = List.length l.
Proof.
  induction n as [|n IH]; [reflexivity|].
  now rewrite for_1_to_S, upd_length.
Qed.

Lemma get_fill (n : nat) (f : nat -> number) (l : list number) (i : nat) :
  (n < List.length l)%nat ->
  get (for_1_to n (fun y a => upd a y (f y)) l) i
  = if ((1 <=? i) && (i <=? n))%nat then f i else get l i.
Proof.
  intros Hn. induction n as [|n IH].
  - unfold for_1_to. simpl fold_left.
    destruct (Nat.leb_spec 1 i), (Nat.leb_spec i 0); simpl; try reflexivity; lia.
  - rewrite for_1_to_S. destruct (Nat.eq_dec (S n) i) as [<-|Hne].
    + rewrite get_upd_same by (rewrite fill_length; lia).
      rewrite Nat.leb_refl. reflexivity.
    + rewrite get_upd_other by exact Hne. rewrite IH by lia.
      destruct (Nat.leb_spec 1 i), (Nat.leb_spec i n), (Nat.leb_spec i (S n));
        simpl; try reflexivity; lia.
Qed.

Section EngineFacts.

Variable args : ModelInputs.
Let N := saleYear args.

Lemma get_series (f : nat -> number) (y : nat) :
  (1 <= y <= N + 1)%nat -> get (series args f) y = f y.
Proof.
  intros Hy. unfold series. rewrite get_fill by (rewrite filled_length; fold N; lia).
  fold N. destruct (Nat.leb_spec 1 y), (Nat.leb_spec y (N + 1));
    simpl; try reflexivity; lia.
Qed.

Lemma unleveredCF_length : List.length (unleveredCF args) = (N + 1)%nat.
Proof.
  unfold unleveredCF. now rewrite upd_length, fill_length, upd_length, filled_length.
Qed.

Lemma unlevered_loop_eq :
  for_1_to N (fun y u => upd u y (get (noi args) y - get (capexAbs args) y))
           (upd (filled (N + 1)) 0 (acquisitionCF args))
  = for_1_to N (fun y u => upd u y (opCF args y))
             (upd (filled (N + 1)) 0 (acquisitionCF args)).
Proof.
  apply for_1_to_ext. intros y x Hy. unfold opCF, noi, capexAbs.
  now rewrite !get_series by (fold N; lia).
Qed.

(** Closed form of the unlevered vector. *)
Lemma get_unleveredCF (i : nat) :
  (i <= N)%nat ->
  get (unleveredCF args) i
  = let base := if (i =? 0)%nat then acquisitionCF args else opCF args i in
    if (i =? N)%nat then base + saleNetBeforeDebt args else base.
Proof.
  intros Hi. unfold unleveredCF. fold N. rewrite unlevered_loop_eq.
  set (u := for_1_to N _ _).
  assert (Hlen : List.length u = (N + 1)%nat).
  { unfold u. now rewrite fill_length, upd_length, filled_length. }
  assert (Hu : forall j, (j <= N)%nat ->
               get u j = if (j =? 0)%nat then acquisitionCF args else opCF args j).
  { intros j Hj. unfold u.
    rewrite get_fill by (rewrite upd_length, filled_length; lia).
    destruct (Nat.leb_spec 1 j), (Nat.leb_spec j N), (Nat.eqb_spec j 0);
      simpl andb; cbv iota; try reflexivity; try lia.
    subst j. apply get_upd_same. rewrite filled_length. lia. }
  cbv zeta. destruct (i =? N)%nat eqn:E.
  - apply Nat.eqb_eq in E. subst i.
    rewrite get_upd_same by lia. now rewrite Hu by lia.
  - apply Nat.eqb_neq in E. rewrite get_upd_other by congruence.
    now apply Hu.
Qed.

End EngineFacts.

Lemma same_spec (x y : number) : same x y = true <-> x = y.
Proof.
  destruct x, y; simpl; try (split; congruence).
  rewrite Qc_eq_bool_true_iff. split; congruence.
Qed.

Lemma same_false (x y : number) : same x y = false -> x <> y.
Proof.
  intros H E. apply same_spec in E. congruence.
Qed.

Lemma list_eq_get (l l' : list number) :
  List.length l = List.length l' ->
  (forall i, (i < List.length l)%nat -> get l i = get l' i) ->
  l = l'.
Proof.
  intros Hlen H. apply (nth_ext l l' NaN NaN Hlen). exact H.
Qed.

Lemma for_1_to_length (n : nat) (body : nat -> list number -> list number)
  (l : list number) :
  (forall y a, List.length (body y a) = List.length a) ->
  List.length (for_1_to n body l) = List.length l.
Proof.
  intros H. induction n as [|n IH]; [reflexivity|].
  now rewrite for_1_to_S, H.
Qed.

Section Levered.

Variable args : ModelInputs.
Let N := saleYear args.

Lemma leveredCF_length : List.length (leveredCF args) = (N + 1)%nat.
Proof.
  unfold leveredCF. rewrite for_1_to_length.
  - now rewrite upd_length, filled_length.
  - intros y a. cbv zeta. destruct (y =? saleYear args)%nat;
      now rewrite ?upd_length.
Qed.

Lemma get_leveredCF (i : nat) :
  (i <= N)%nat ->
  get (leveredCF args) i
  = if (i =? 0)%nat then get (unleveredCF args) 0 + loanProceeds args
    else leveredAt args i.
Proof.
  intros Hi. unfold leveredCF. fold N.
  set (l0 := upd _ _ _).
  rewrite (for_1_to_ext N _ (fun y l => upd l y (leveredAt args y))).
  - rewrite get_fill by (unfold l0; rewrite upd_length, filled_length; lia).
    destruct (Nat.leb_spec 1 i), (Nat.leb_spec i N), (Nat.eqb_spec i 0);
      simpl andb; cbv iota; try reflexivity; try lia.
    subst i. unfold l0. apply get_upd_same. rewrite filled_length. lia.
  - intros y x Hy. cbv zeta. unfold leveredAt, opCF, noi, capexAbs.
    rewrite !get_series by (fold N; lia).
    unfold N. destruct (y =? saleYear args)%nat; [apply upd_upd | reflexivity].
Qed.

(** At the exit year the levered flow nets the payoff of the year-by-year
    balance loop against the sale proceeds. *)
Lemma leveredCF_exit :
  (1 <= N)%nat ->
  get (leveredCF args) N
  = ((noi_at args N - capexAbs_at args N) - debtPmtAnnual args)
    + (saleNetBeforeDebt args - payoff args).
Proof.
  intros HN. rewrite get_leveredCF by lia. unfold leveredAt.
  destruct (Nat.eqb_spec N 0); [lia|]. now rewrite Nat.eqb_refl.
Qed.

End Levered.

(** ** A deal without debt *)

Section ZeroLTV.

Variable args : ModelInputs.
Let N := saleYear args.
Hypothesis Hltv : ltv args = 0.
Hypothesis HPP : isFinite (purchasePrice args) = true.
Hypothesis Hr : isFinite (interestRate args) = true.

Lemma zero_ltv_loanProceeds : loanProceeds args = 0.
Proof.
  unfold loanProceeds. rewrite Hltv.
  destruct (isFinite_Fin _ HPP) as [p ->].
  change (max 0 (min 1 (clampNum 0 0))) with (Fin 0%Qc).
  rewrite zero_Fin, max_Fin, mul_Fin. f_equal. apply Qcmult_0_r.
Qed.

Lemma zero_ltv_debtPmtAnnual : debtPmtAnnual args = 0.
Proof.
  unfold debtPmtAnnual. rewrite zero_ltv_loanProceeds. reflexivity.
Qed.

Lemma zero_ltv_payoff : payoff args = 0.
Proof.
  unfold payoff. rewrite zero_ltv_loanProceeds. fold N.
  assert (H : forall n, for_1_to n (payoff_step args) (0, 0) = (0, 0)).
  { induction n as [|n IH]; [reflexivity|].
    rewrite for_1_to_S, IH. unfold payoff_step.
    rewrite zero_ltv_debtPmtAnnual.
    destruct (isFinite_Fin _ Hr) as [r ->].
    rewrite zero_Fin, mul_Fin, Qcmult_0_l.
    change (max (Fin 0%Qc) (Fin 0%Qc - max (Fin 0%Qc) (Fin 0%Qc - Fin 0%Qc)))
      with (Fin 0%Qc).
    now destruct (S n =? saleYear args)%nat. }
  now rewrite H.
Qed.

Lemma zero_ltv_cash_flows : leveredCF args = unleveredCF args.
Proof.
  apply list_eq_get.
  - now rewrite leveredCF_length, unleveredCF_length.
  - intros i Hi. rewrite leveredCF_length in Hi.
    rewrite get_leveredCF by lia.
    rewrite zero_ltv_loanProceeds, add_0_r.
    destruct (Nat.eqb_spec i 0) as [->|Hi0]; [reflexivity|].
    rewrite get_unleveredCF by lia. cbv zeta. unfold leveredAt.
    rewrite zero_ltv_debtPmtAnnual, zero_ltv_payoff, !sub_0_r.
    destruct (Nat.eqb_spec i 0); [contradiction|]. reflexivity.
Qed.

End ZeroLTV.

(** Claim C9.  For an input record with a loan-to-value ratio of 0 (and
    finite purchase price and interest rate, as every sanitized record has),
    the loan proceeds, the annual debt service and the exit payoff are 0, the
    levered cash flow equals the unlevered cash flow at every index [0 .. N],
    and the levered IRR and NPV equal the unlevered IRR and NPV. *)
Theorem zero_ltv_levered_is_unlevered (args : ModelInputs) :
  ltv args = 0 ->
  isFinite (purchasePrice args) = true ->
  isFinite (interestRate args) = true ->
  (loanProceeds args = 0 /\ debtPmtAnnual args = 0 /\ payoff args = 0)
  /\ (forall i, (i <= saleYear args)%nat ->
                get (m_leveredCF (computeModel args)) i
                = get (m_unleveredCF (computeModel args)) i)
  /\ m_lIRR (computeModel args) = m_uIRR (computeModel args)
  /\ m_lNPV (computeModel args) = m_uNPV (computeModel args).
Proof.
  intros Hltv HPP Hr.
  pose proof (zero_ltv_cash_flows args Hltv HPP Hr) as E.
  split; [|split; [|split]].
  - split; [|split].
    + now apply zero_ltv_loanProceeds.
    + now apply zero_ltv_debtPmtAnnual.
    + now apply zero_ltv_payoff.
  - intros i _. simpl. now rewrite E.
  - simpl. unfold lIRR, uIRR. now rewrite E.
  - simpl. unfold lNPV, uNPV. now rewrite E.
Qed.

Lemma zero_ltv_levered_is_unlevered_witness :
  (loanProceeds cash_deal = 0 /\ debtPmtAnnual cash_deal = 0
   /\ payoff cash_deal = 0)
  /\ (forall i, (i <= saleYear cash_deal)%nat ->
                get (m_leveredCF (computeModel cash_deal)) i
                = get (m_unleveredCF (computeModel cash_deal)) i)
  /\ m_lIRR (computeModel cash_deal) = m_uIRR (computeModel cash_deal)
  /\ m_lNPV (computeModel cash_deal) = m_uNPV (computeModel cash_deal).
Proof. apply (zero_ltv_levered_is_unlevered cash_deal); reflexivity. Defined.

(** ** Loan proceeds and the exit payoff *)

(** Claim C10.  For an input record with a finite purchase price, the loan
    proceeds lie between 0 and [max 0 purchasePrice]: the loan-to-value ratio
    is clamped into [0, 1] before it multiplies the purchase price clamped at
    0, whatever ratio is supplied (a non-finite one counts as 0). *)
Theorem loanProceeds_bounds (args : ModelInputs) :
  isFinite (purchasePrice args) = true ->
  (0 <=? loanProceeds args) = true
  /\ (loanProceeds args <=? max 0 (purchasePrice args)) = true.
Proof.
  intros HPP. unfold loanProceeds.
  destruct (isFinite_Fin _ HPP) as [p ->].
  assert (HL : exists f, clampNum (ltv args) 0 = Fin f).
  { apply isFinite_Fin. now apply clampNum_finite. }
  destruct HL as [f ->].
  rewrite zero_Fin, one_Fin, min_Fin, !max_Fin, mul_Fin.
  rewrite leb_Fin, leb_Fin.
  pose proof (Qcmax_lub_l 0 p) as Hp.
  destruct (Qcmax_spec 0 (Qcmin 1 f)) as [[H1 E]|[H1 E]];
    destruct (Qcmin_spec 1 f) as [[H2 E2]|[H2 E2]];
    rewrite E; rewrite ?E2 in *; set (P := Qcmax 0 p) in *;
    split; qc_to_q; nra.
Qed.

Lemma loanProceeds_bounds_witness :
  (0 <=? loanProceeds sample_deal) = true
  /\ (loanProceeds sample_deal <=? max 0 (purchasePrice sample_deal)) = true.
Proof. apply loanProceeds_bounds. reflexivity. Defined.

(** Claim C1, evaluated at the sample deal (price 100, fully financed at 12%
    over one year, held one year).  The exit-year levered cash flow nets the
    payoff of the year-by-year balance loop against the sale proceeds, and it
    differs both from the value the claim gives with the closed-form
    remaining balance as the source computes it ([payoffAtExit], after [N]
    payments) and from the value with the remaining balance after [12 N]
    monthly payments. *)
Theorem levered_exit_nets_simulated_payoff :
  let a := sample_deal in
  let n := saleYear a in
  let operating := (noi_at a n - capexAbs_at a n) - debtPmtAnnual a in
  get (leveredCF a) n = operating + (saleNetBeforeDebt a - payoff a)
  /\ get (leveredCF a) n <> operating + (saleNetBeforeDebt a - payoffAtExit a)
  /\ get (leveredCF a) n
     <> operating
        + (saleNetBeforeDebt a
           - max 0 (remainingBalance (loanProceeds a) (max 0 (interestRate a))
                      (Z.max 1 (amortYears a)) (Z.of_nat n * 12))).
Proof.
  cbv zeta. split; [|split].
  - apply leveredCF_exit. simpl. lia.
  - apply same_false. now vm_compute.
  - apply same_false. now vm_compute.
Qed.

(** ** Sensitivity grid *)

Lemma withField_same_purchasePrice (a : ModelInputs) :
  withField a (SetPurchasePrice (purchasePrice a)) = a.
Proof. destruct a; reflexivity. Qed.

Lemma withField_same_exitCapRate (a : ModelInputs) :
  withField a (SetExitCapRate (exitCapRate a)) = a.
Proof. destruct a; reflexivity. Qed.

Lemma max_floor_id (c x : number) : (x >=? c) = true -> max c x = x.
Proof.
  destruct x as [a| | |], c as [b| | |]; try discriminate; try reflexivity.
  rewrite geb_Fin, max_Fin. intros H. f_equal.
  destruct (Qcmax_spec b a) as [[_ E]|[H' E]]; [exact E|].
  rewrite E. now apply Qcle_antisym.
Qed.

(** The center cell of a grid computed for a record: the value of the
    metric in the model run with the exit cap rate floored at 0.0001; when
    the exit cap rate of the record is at least 0.0001, the value of the
    metric in the base-case model of that record. *)
Lemma sensitivity_callback_center (baseArgs : ModelInputs)
  (sensMetric : SensMetric) :
  cell (sensitivity baseArgs sensMetric) 2 2
  = Some (metricValue
            (simulate baseArgs
               [SetExitCapRate (max (ofQ 0.0001) (exitCapRate baseArgs))])
            sensMetric)
  /\ ((exitCapRate baseArgs >=? ofQ 0.0001) = true ->
      cell (sensitivity baseArgs sensMetric) 2 2
      = Some (metricValue (computeModel baseArgs) sensMetric)).
Proof.
  assert (E : cell (sensitivity baseArgs sensMetric) 2 2
              = Some (metricValue
                        (simulate baseArgs
                           [SetExitCapRate
                              (max (ofQ 0.0001) (exitCapRate baseArgs))])
                        sensMetric)).
  { unfold cell, sensitivity. simpl grid. simpl nth_error.
    unfold simulate. simpl fold_left.
    change (1 + ofZ 0) with 1. rewrite mul_1_r.
    change (ofZ 0) with 0. rewrite add_0_r.
    now rewrite withField_same_purchasePrice. }
  split; [exact E|].
  intros Hcap. etransitivity; [exact E|].
  unfold simulate. cbn [fold_left].
  rewrite (max_floor_id _ _ Hcap), withField_same_exitCapRate.
  reflexivity.
Qed.

(** With an exit cap rate of 0.00005 the center cell is computed at the
    floor 0.0001 and its exit price is not the one of the base case. *)
Lemma sensitivity_center_at_floor :
  cell (sensitivity low_cap_deal ExitPrice) 2 2
  <> Some (metricValue (computeModel low_cap_deal) ExitPrice).
Proof.
  intros E.
  assert (H : option_map finite_part
                (cell (sensitivity low_cap_deal ExitPrice) 2 2)
              = option_map finite_part
                  (Some (metricValue (computeModel low_cap_deal) ExitPrice)))
    by now rewrite E.
  vm_compute in H. discriminate H.
Qed.

Lemma same_refl (x : number) : same x x = true.
Proof.
  destruct x; try reflexivity. cbn [same]. now apply Qc_eq_bool_true_iff.
Qed.

Lemma sameMetric_refl (m : SensMetric) : sameMetric m m = true.
Proof. destruct m; reflexivity. Qed.

Lemma sameSensDeps_eq (a b : ModelInputs) (m : SensMetric) :
  purchasePrice b = purchasePrice a -> exitCapRate b = exitCapRate a ->
  sameSensDeps (sensDeps a m) (sensDeps b m) = true.
Proof.
  intros Hp Hc. unfold sameSensDeps, sensDeps. rewrite Hp, Hc.
  now rewrite !same_refl, sameMetric_refl.
Qed.

(** Renders that leave the price, the exit cap rate and the metric as they
    were keep the grid that was shown. *)
Lemma sensitivity_memo_kept (a : ModelInputs) (m : SensMetric)
    (shown : Memo SensDeps Sensitivity) (edits : list ModelInputs) :
  memo_deps shown = sensDeps a m ->
  Forall (fun b => purchasePrice b = purchasePrice a
                   /\ exitCapRate b = exitCapRate a) edits ->
  fold_left (fun prev r => Some (sensitivity_memo prev (fst r) (snd r)))
    (map (fun b => (b, m)) edits) (Some shown)
  = Some shown.
Proof.
  intros Hd H. induction H as [|b edits [Hp Hc] _ IH]; [reflexivity|].
  cbn [map fold_left fst snd]. unfold sensitivity_memo at 2.
  cbn [useMemo]. rewrite Hd, (sameSensDeps_eq a b m Hp Hc). exact IH.
Qed.

(** Claim C3: what the page shows.  The grid is recomputed only at the
    first render and when the purchase price, the exit cap rate or the
    selected metric is not what it was.  After a render that computed the
    grid for the record [a], renders of records [edits] that have the price
    and the exit cap rate of [a], whatever else they changed, still show the
    grid of [a]: its center cell is the value of the metric in the model of
    [a] run with the exit cap rate floored at 0.0001, and, when that rate is
    at least 0.0001, in the base-case model of [a], not of the record on the
    page. *)
Theorem sensitivity_center_is_of_last_recomputation
    (prev : option (Memo SensDeps Sensitivity)) (a : ModelInputs)
    (sensMetric : SensMetric) (edits : list ModelInputs) :
  recomputed prev a sensMetric = true ->
  Forall (fun b => purchasePrice b = purchasePrice a
                   /\ exitCapRate b = exitCapRate a) edits ->
  exists shown,
    sensitivity_renders prev
      ((a, sensMetric) :: map (fun b => (b, sensMetric)) edits)
    = Some shown
    /\ memo_value shown = sensitivity a sensMetric
    /\ cell (memo_value shown) 2 2
       = Some (metricValue
                 (simulate a
                    [SetExitCapRate (max (ofQ 0.0001) (exitCapRate a))])
                 sensMetric)
    /\ ((exitCapRate a >=? ofQ 0.0001) = true ->
        cell (memo_value shown) 2 2
        = Some (metricValue (computeModel a) sensMetric)).
Proof.
  intros Hnew H.
  exists {| memo_deps := sensDeps a sensMetric;
            memo_value := sensitivity a sensMetric |}.
  split.
  - unfold sensitivity_renders. cbn [fold_left fst snd].
    assert (E : sensitivity_memo prev a sensMetric
                = {| memo_deps := sensDeps a sensMetric;
                     memo_value := sensitivity a sensMetric |}).
    { unfold sensitivity_memo, useMemo. destruct prev as [p|]; [|reflexivity].
      cbn [recomputed] in Hnew. apply negb_true_iff in Hnew.
      now rewrite Hnew. }
    rewrite E. apply (sensitivity_memo_kept a); [reflexivity | exact H].
  - cbn [memo_value]. split; [reflexivity|].
    apply sensitivity_callback_center.
Qed.

Lemma sensitivity_center_is_of_last_recomputation_witness :
  exists shown,
    sensitivity_renders None
      ((sample_deal, ExitPrice)
       :: map (fun b => (b, ExitPrice)) [sample_deal_edited])
    = Some shown
    /\ memo_value shown = sensitivity sample_deal ExitPrice
    /\ cell (memo_value shown) 2 2
       = Some (metricValue
                 (simulate sample_deal
                    [SetExitCapRate
                       (max (ofQ 0.0001) (exitCapRate sample_deal))])
                 ExitPrice)
    /\ ((exitCapRate sample_deal >=? ofQ 0.0001) = true ->
        cell (memo_value shown) 2 2
        = Some (metricValue (computeModel sample_deal) ExitPrice)).
Proof.
  apply (sensitivity_center_is_of_last_recomputation
           None sample_deal ExitPrice [sample_deal_edited]).
  - reflexivity.
  - repeat constructor.
Defined.

Lemma some_some_eq (x y : number) :
  same x y = true -> Some (Some x) = Some (Some y).
Proof. intros H. apply same_spec in H. now subst. Qed.

(** Claim C3, failing input.  The sample deal is shown with the metric
    "Exit Price", then its rent growth is edited from 0 to 10%: the price
    and the exit cap rate (0.1, above the floor 0.0001) are as before, and
    the grid is not recomputed.  Its center cell is still 100, the exit
    price of the deal before the edit, while the base case of the record on
    the page has an exit price of 110. *)
Lemma sensitivity_center_is_stale :
  exists shown,
    sensitivity_renders None
      [(sample_deal, ExitPrice); (sample_deal_edited, ExitPrice)]
    = Some shown
    /\ (exitCapRate sample_deal_edited >=? ofQ 0.0001) = true
    /\ cell (memo_value shown) 2 2 = Some (Some (ofZ 100))
    /\ metricValue (computeModel sample_deal_edited) ExitPrice
       = Some (ofZ 110)
    /\ cell (memo_value shown) 2 2
       <> Some (metricValue (computeModel sample_deal_edited) ExitPrice).
Proof.
  exists {| memo_deps := sensDeps sample_deal ExitPrice;
            memo_value := sensitivity sample_deal ExitPrice |}.
  assert (E1 : cell (sensitivity sample_deal ExitPrice) 2 2
               = Some (Some (ofZ 100))).
  { rewrite (proj2 (sensitivity_callback_center sample_deal ExitPrice))
      by reflexivity.
    apply some_some_eq. now vm_compute. }
  assert (E2 : metricValue (computeModel sample_deal_edited) ExitPrice
               = Some (ofZ 110)).
  { cbn [metricValue]. apply (f_equal Some). apply same_spec.
    now vm_compute. }
  split; [reflexivity|]. split; [reflexivity|]. cbn [memo_value].
  split; [exact E1|]. split; [exact E2|].
  rewrite E1, E2. intros E. inversion E.
Qed.

(** ** Recommendation *)

Section Headline.

Variables d c i : option number.

Let td := classify (ofQ 1.25) (ofQ 1.05) d.
Let tc := classify (ofQ 0.08) (ofQ 0.04) c.
Let ti := classify (ofQ 0.12) (ofQ 0.08) i.
Let two_bad :=
  at_least_two (Tone_eqb td bad) (Tone_eqb tc bad) (Tone_eqb ti bad).
Let two_good :=
  at_least_two (Tone_eqb td good) (Tone_eqb tc good) (Tone_eqb ti good).
Let no_bad :=
  negb (Tone_eqb td bad || Tone_eqb tc bad || Tone_eqb ti bad).

Lemma notes_tones :
  map note_tone (notes (buildRecommendation d c i)) = [td; tc; ti].
Proof.
  assert (H : map note_tone [dscr_note d; coc_note c; irr_note i] = [td; tc; ti]).
  { unfold td, tc, ti, classify, dscr_note, coc_note, irr_note. simpl.
    f_equal; [|f_equal; [|f_equal]].
    - destruct d as [x|]; [|reflexivity].
      change (bench_dscr BENCH) with (ofQ 1.25).
      destruct (x >=? ofQ 1.25), (x >=? ofQ 1.05); reflexivity.
    - destruct c as [x|]; [|reflexivity].
      change (bench_coc BENCH) with (ofQ 0.08).
      destruct (x >=? ofQ 0.08), (x >=? ofQ 0.04); reflexivity.
    - destruct i as [x|]; [|reflexivity].
      change (bench_irr BENCH) with (ofQ 0.12).
      destruct (x >=? ofQ 0.12), (x >=? ofQ 0.08); reflexivity. }
  unfold buildRecommendation.
  destruct (2 <=? _)%nat; [exact H|].
  destruct (_ && _); exact H.
Qed.

(** Claim C5, as amended.  With each of DSCR, cash-on-cash and levered IRR
    classified into good, warning or bad (undefined counting as bad), the
    headline is "Likely not worth it (as modeled)" when at least two of the
    three are bad, "Likely worth pursuing" when at least two are good and
    none is bad, and "Borderline — needs diligence" otherwise. *)
Theorem headline_of_tiers :
  (two_bad = true ->
   headline (buildRecommendation d c i) = "Likely not worth it (as modeled)"%string)
  /\ (two_good = true -> no_bad = true ->
      headline (buildRecommendation d c i) = "Likely worth pursuing"%string)
  /\ (two_bad = false -> two_good && no_bad = false ->
      headline (buildRecommendation d c i) = "Borderline — needs diligence"%string).
Proof.
  pose proof notes_tones as H.
  unfold buildRecommendation in *. unfold count_tone.
  set (ns := [dscr_note d; coc_note c; irr_note i]) in *.
  assert (Hns : map note_tone ns = [td; tc; ti]).
  { destruct (2 <=? _)%nat; [exact H|]. destruct (_ && _); exact H. }
  clear H. unfold ns in *. simpl in Hns. injection Hns as Hd Hc Hi.
  simpl filter. rewrite Hd, Hc, Hi.
  unfold two_bad, two_good, no_bad, at_least_two.
  destruct td, tc, ti; simpl; repeat split; intros; try reflexivity;
    discriminate.
Qed.

End Headline.

Lemma headline_of_tiers_witness :
  headline (buildRecommendation None (Some (ofQ 0.09)) None)
  = "Likely not worth it (as modeled)"%string
  /\ headline (buildRecommendation (Some (ofQ 1.3)) (Some (ofQ 0.09)) (Some (ofQ 0.1)))
     = "Likely worth pursuing"%string
  /\ headline (buildRecommendation (Some (ofQ 1.3)) (Some (ofQ 0.05)) (Some (ofQ 0.1)))
     = "Borderline — needs diligence"%string.
Proof.
  split; [|split].
  - apply (proj1 (headline_of_tiers None (Some (ofQ 0.09)) None)). reflexivity.
  - apply (proj1 (proj2 (headline_of_tiers (Some (ofQ 1.3)) (Some (ofQ 0.09))
                           (Some (ofQ 0.1))))); reflexivity.
  - apply (proj2 (proj2 (headline_of_tiers (Some (ofQ 1.3)) (Some (ofQ 0.05))
                           (Some (ofQ 0.1))))); reflexivity.
Defined.

(** Claim C5, counterexample: three undefined metrics are three bad tiers,
    and the headline is not the text "Likely not worth it". *)
Lemma headline_not_worth_it_text :
  at_least_two
    (Tone_eqb (classify (ofQ 1.25) (ofQ 1.05) None) bad)
    (Tone_eqb (classify (ofQ 0.08) (ofQ 0.04) None) bad)
    (Tone_eqb (classify (ofQ 0.12) (ofQ 0.08) None) bad) = true
  /\ headline (buildRecommendation None None None) <> "Likely not worth it"%string.
Proof.
  split; [reflexivity|]. simpl. discriminate.
Qed.

Lemma same_opt_eq (x y : option number) : same_opt x y = true -> x = y.
Proof.
  destruct x, y; simpl; try discriminate; try reflexivity.
  intros H. apply same_spec in H. now subst.
Qed.

(** ** IRR: the sign test *)

Lemma clampNum_NaN_finite (x : number) :
  isFinite (clampNum x NaN) = isFinite x.
Proof. destruct x; reflexivity. Qed.

Lemma clampNum_NaN_id (x : number) :
  isFinite x = true -> clampNum x NaN = x.
Proof. destruct x; simpl; try discriminate; reflexivity. Qed.

Lemma irr_signs_spec (cashflows : list number) (hasNeg hasPos : bool) :
  irr_signs hasNeg hasPos cashflows
  = if forallb isFinite cashflows
    then Some (hasNeg || existsb (fun x => x <? 0) cashflows,
               hasPos || existsb (fun x => x >? 0) cashflows)
    else None.
Proof.
  revert hasNeg hasPos.
  induction cashflows as [|x l IH]; intros hasNeg hasPos; simpl.
  - now rewrite !orb_false_r.
  - rewrite clampNum_NaN_finite. destruct (isFinite x) eqn:Ex; simpl; [|reflexivity].
    rewrite (clampNum_NaN_id _ Ex), IH.
    destruct (forallb isFinite l); [|reflexivity].
    destruct (x <? 0), (x >? 0), hasNeg, hasPos; reflexivity.
Qed.

Lemma existsb_false_of_all (p : number -> bool) (l : list number) :
  (forall x, In x l -> p x = false) -> existsb p l = false.
Proof.
  intros H. induction l as [|x l IH]; [reflexivity|]. simpl.
  rewrite (H x (or_introl eq_refl)), IH; [reflexivity|].
  intros y Hy. apply H. now right.
Qed.

(** Claim C4.  [irr] is undefined for every cash-flow vector without a
    strictly negative entry or without a strictly positive entry (so whenever
    all entries share a sign), and it returns a root only when both are
    present. *)
Theorem irr_undefined_without_both_signs (cashflows : list number) :
  ((forall x, In x cashflows -> (x <? 0) = false)
   \/ (forall x, In x cashflows -> (x >? 0) = false) ->
   irr cashflows = None)
  /\ (forall r, irr cashflows = Some r ->
      (exists x, In x cashflows /\ (x <? 0) = true)
      /\ (exists x, In x cashflows /\ (x >? 0) = true)).
Proof.
  unfold irr. rewrite irr_signs_spec. split.
  - intros H. destruct (forallb isFinite cashflows); [|reflexivity].
    simpl orb. destruct H as [H|H]; rewrite (existsb_false_of_all _ _ H).
    + reflexivity.
    + now rewrite orb_true_r.
  - intros r. destruct (forallb isFinite cashflows); [|discriminate].
    simpl orb.
    destruct (existsb (fun x => x <? 0) cashflows) eqn:En; [|discriminate].
    destruct (existsb (fun x => x >? 0) cashflows) eqn:Ep;
      [|simpl; discriminate].
    intros _. apply existsb_exists in En, Ep. split; assumption.
Qed.

Lemma irr_undefined_without_both_signs_witness :
  irr [ofZ 3; ofZ 0; ofZ 7] = None
  /\ ((exists x, In x [ofZ (-10); ofZ 11] /\ (x <? 0) = true)
      /\ (exists x, In x [ofZ (-10); ofZ 11] /\ (x >? 0) = true)).
Proof.
  split.
  - apply (proj1 (irr_undefined_without_both_signs [ofZ 3; ofZ 0; ofZ 7])).
    left. intros x [<-|[<-|[<-|[]]]]; reflexivity.
  - apply (proj2 (irr_undefined_without_both_signs [ofZ (-10); ofZ 11])
             (Fin (Q2Qc (268435445943 # 2684354560000)))).
    apply same_opt_eq. now vm_compute.
Defined.

(** ** IRR: bracketing and bisection *)

Lemma Qcpower_neq_0 (a : Qc) (n : nat) : a <> 0%Qc -> (a ^ n)%Qc <> 0%Qc.
Proof.
  intros Ha. induction n as [|n IH].
  - simpl. discriminate.
  - change (a ^ S n)%Qc with (a * a ^ n)%Qc. intros E.
    destruct (Qcmult_integral _ _ E); contradiction.
Qed.

Lemma forallb_isFinite_map_Fin (cf : list Qc) :
  forallb isFinite (map Fin cf) = true.
Proof. induction cf; simpl; auto. Qed.

Section NPVFinite.

Variable cf : list Qc.
Let cfs := map Fin cf.

(** At a rate other than -100% the NPV of finite flows is finite. *)
Lemma npv_from_finite (r : Qc) (l : list Qc) (t : nat) (total : Qc) :
  (1 + r)%Qc <> 0%Qc ->
  exists v, npv_from (Fin r) (Z.of_nat t) (Fin total) (map Fin l) = Fin v.
Proof.
  intros Hr. revert t total. induction l as [|c l IH]; intros t total.
  - simpl. eauto.
  - change (npv_from (Fin r) (Z.of_nat t) (Fin total) (map Fin (c :: l)))
      with (npv_from (Fin r) (Z.of_nat t + 1)
              (Fin total + Fin c / pow (1 + Fin r) (Z.of_nat t)) (map Fin l)).
    rewrite one_Fin, add_Fin, pow_Fin_nonneg by lia.
    rewrite div_Fin by (apply Qcpower_neq_0; exact Hr).
    rewrite add_Fin.
    replace (Z.of_nat t + 1)%Z with (Z.of_nat (S t)) by lia.
    apply IH.
Qed.

Lemma npv_finite (r : Qc) :
  (1 + r)%Qc <> 0%Qc -> npv (Fin r) cfs = Fin (valQ (npv (Fin r) cfs)).
Proof.
  intros Hr.
  destruct (npv_from_finite r cf 0 0%Qc Hr) as [v Hv].
  change (npv (Fin r) cfs)
    with (npv_from (Fin r) (Z.of_nat 0) (Fin 0%Qc) (map Fin cf)).
  rewrite Hv. reflexivity.
Qed.

Lemma rate_ok (r : Qc) : (lo0 <= r)%Qc -> (1 + r)%Qc <> 0%Qc.
Proof. unfold lo0. intros H E. qc_to_q. lra. Qed.

Lemma npv_F (r : Qc) : (lo0 <= r)%Qc -> npv (Fin r) cfs = Fin (F cf r).
Proof. intros H. apply npv_finite. now apply rate_ok. Qed.

Lemma hi_at_pos (k : nat) : (Q2Qc 5 <= hi_at k)%Qc.
Proof.
  unfold hi_at. pose proof (Qcpower_ge_1 (Q2Qc 2) k) as H.
  assert (H1 : (1 <= Q2Qc 2)%Qc) by (qc_to_q; lra).
  specialize (H H1). set (P := (Q2Qc 2 ^ k)%Qc) in *. qc_to_q. lra.
Qed.

Lemma hi_at_ok (k : nat) : (lo0 <= hi_at k)%Qc.
Proof.
  pose proof (hi_at_pos k). unfold lo0. set (h := hi_at k) in *.
  qc_to_q. lra.
Qed.

Lemma hi_at_S (k : nat) : (hi_at k * Q2Qc 2)%Qc = hi_at (S k).
Proof. unfold hi_at. simpl. ring. Qed.

(** The doubling loop, started at the upper bound number [k]: it stops at
    the first upper bound where the product of the end values is not
    positive, or after [tries] doublings. *)
Lemma irr_widen_spec (tries k : nat) :
  exists j, (j <= tries)%nat
    /\ irr_widen cfs (Fin (F cf lo0)) tries (Fin (hi_at k)) (Fin (F cf (hi_at k)))
       = (Fin (hi_at (k + j)), Fin (F cf (hi_at (k + j))))
    /\ (forall j', (j' < j)%nat -> (0 < F cf lo0 * F cf (hi_at (k + j')))%Qc)
    /\ ((j < tries)%nat -> (F cf lo0 * F cf (hi_at (k + j)) <= 0)%Qc).
Proof.
  revert k. induction tries as [|tries IH]; intros k.
  - exists 0%nat. rewrite Nat.add_0_r. simpl. repeat split; intros; lia.
  - cbn [irr_widen]. rewrite mul_Fin.
    destruct (Fin (F cf lo0 * F cf (hi_at k)) >? 0) eqn:E.
    + rewrite zero_Fin in E. apply gtb_Fin in E.
      change (ofZ 2) with (Fin (Q2Qc 2)). rewrite mul_Fin, hi_at_S.
      rewrite (npv_F _ (hi_at_ok (S k))).
      destruct (IH (S k)) as (j & Hj & Heq & Hbefore & Hstop).
      exists (S j). replace (k + S j)%nat with (S k + j)%nat by lia.
      repeat split; try lia; try exact Heq.
      * intros j' Hj'. destruct j' as [|j'].
        -- rewrite Nat.add_0_r. exact E.
        -- replace (k + S j')%nat with (S k + j')%nat by lia.
           apply Hbefore. lia.
      * intros H. apply Hstop. lia.
    + rewrite zero_Fin in E. apply gtb_Fin_false in E.
      exists 0%nat. rewrite Nat.add_0_r. repeat split; try lia.
      intros _. exact E.
Qed.

Lemma bracket_no_same_sign (lo hi : Qc) :
  bracket cf lo hi -> (F cf lo * F cf hi <= 0)%Qc.
Proof.
  intros [[->|Hlo] Hhi]; [exact Hhi|].
  set (a := F cf lo0) in *. set (b := F cf lo) in *. set (c := F cf hi) in *.
  qc_to_q.
  assert (Hab : (0 < (this a * this b) * (this a * this b))%Q) by nra.
  destruct (Qlt_le_dec 0 (this b * this c)) as [H|H]; [|exact H].
  exfalso. nra.
Qed.

Lemma mid_between (lo hi : Qc) :
  (lo < hi)%Qc ->
  (lo < (lo + hi) / Q2Qc 2)%Qc /\ ((lo + hi) / Q2Qc 2 < hi)%Qc.
Proof.
  intros H. assert (E : (/ Q2Qc 2)%Qc = Q2Qc 0.5) by (apply Qc_is_canon; reflexivity).
  unfold Qcdiv. rewrite E. split; qc_to_q; lra.
Qed.

Lemma two_is_1_plus_1 : Q2Qc 2 = (1 + 1)%Qc.
Proof. apply Qc_is_canon. reflexivity. Qed.

Lemma mid_width_l (lo hi : Qc) :
  (((lo + hi) / Q2Qc 2 - lo) * Q2Qc 2)%Qc = (hi - lo)%Qc.
Proof. rewrite two_is_1_plus_1. field. discriminate. Qed.

Lemma mid_width_r (lo hi : Qc) :
  ((hi - (lo + hi) / Q2Qc 2) * Q2Qc 2)%Qc = (hi - lo)%Qc.
Proof. rewrite two_is_1_plus_1. field. discriminate. Qed.

Lemma irr_bisect_spec (iters : nat) (lo hi : Qc) :
  (lo0 <= lo)%Qc -> (lo < hi)%Qc -> bracket cf lo hi ->
  exists lo' hi',
    irr_bisect cfs (Fin (F cf lo0)) iters (Fin lo) (Fin hi)
    = Some (Fin ((lo' + hi') / Q2Qc 2))
    /\ (lo <= lo')%Qc /\ (lo' < hi')%Qc /\ (hi' <= hi)%Qc
    /\ bracket cf lo' hi'
    /\ ((Qcabs (F cf ((lo' + hi') / Q2Qc 2)) < tol)%Qc
        \/ ((hi' - lo') * Q2Qc 2 ^ iters)%Qc = (hi - lo)%Qc).
Proof.
  revert lo hi. induction iters as [|iters IH]; intros lo hi Hlo Hlt Hbr.
  - exists lo, hi. cbn [irr_bisect]. change (ofZ 2) with (Fin (Q2Qc 2)).
    rewrite add_Fin, div_Fin by discriminate.
    repeat split; try assumption; try apply Qcle_refl; try apply Hbr.
    right. change (Q2Qc 2 ^ 0)%Qc with 1%Qc. ring.
  - cbn [irr_bisect]. change (ofZ 2) with (Fin (Q2Qc 2)).
    rewrite add_Fin, div_Fin by discriminate.
    set (mid := ((lo + hi) / Q2Qc 2)%Qc).
    destruct (mid_between lo hi Hlt) as [Hm1 Hm2]. fold mid in Hm1, Hm2.
    assert (Hmid : (lo0 <= mid)%Qc).
    { apply Qcle_trans with lo; [exact Hlo|]. now apply Qclt_le_weak. }
    rewrite (npv_F _ Hmid). simpl isFinite. simpl negb. cbv iota.
    rewrite abs_Fin.
    destruct (Fin (Qcabs (F cf mid)) <? ofQ 0.0000001) eqn:Etol.
    + apply ltb_Fin in Etol. exists lo, hi.
      repeat split; try assumption; try apply Qcle_refl; try apply Hbr.
      left. exact Etol.
    + rewrite mul_Fin, zero_Fin.
      destruct (Fin (F cf lo0 * F cf mid) <=? Fin 0%Qc) eqn:Es.
      * apply leb_Fin in Es.
        destruct (IH lo mid Hlo Hm1) as (lo' & hi' & Heq & H1 & H2 & H3 & H4 & H5).
        { split; [apply Hbr | exact Es]. }
        exists lo', hi'. repeat split; try assumption; try apply H4.
        -- apply Qcle_trans with mid; [exact H3|]. now apply Qclt_le_weak.
        -- destruct H5 as [H5|H5]; [left; exact H5|right].
           change (Q2Qc 2 ^ S iters)%Qc with (Q2Qc 2 * Q2Qc 2 ^ iters)%Qc.
           rewrite <- (mid_width_l lo hi). fold mid. rewrite <- H5. ring.
      * apply leb_Fin_false in Es.
        destruct (IH mid hi Hmid Hm2) as (lo' & hi' & Heq & H1 & H2 & H3 & H4 & H5).
        { split; [right; exact Es | apply Hbr]. }
        exists lo', hi'. repeat split; try assumption; try apply H4.
        -- apply Qcle_trans with mid; [|exact H1]. now apply Qclt_le_weak.
        -- destruct H5 as [H5|H5]; [left; exact H5|right].
           change (Q2Qc 2 ^ S iters)%Qc with (Q2Qc 2 * Q2Qc 2 ^ iters)%Qc.
           rewrite <- (mid_width_r lo hi). fold mid. rewrite <- H5. ring.
Qed.

End NPVFinite.

Lemma existsb_neg_Fin (cf : list Qc) :
  (exists c, In c cf /\ (c < 0)%Qc) ->
  existsb (fun x => x <? 0) (map Fin cf) = true.
Proof.
  intros (c & Hin & Hc). apply existsb_exists. exists (Fin c). split.
  - now apply in_map.
  - rewrite zero_Fin. now apply ltb_Fin.
Qed.

Lemma existsb_pos_Fin (cf : list Qc) :
  (exists c, In c cf /\ (0 < c)%Qc) ->
  existsb (fun x => x >? 0) (map Fin cf) = true.
Proof.
  intros (c & Hin & Hc). apply existsb_exists. exists (Fin c). split.
  - now apply in_map.
  - rewrite zero_Fin. now apply gtb_Fin.
Qed.

Lemma hi_at_0 : hi_at 0 = Q2Qc (inject_Z 5).
Proof. apply Qc_is_canon. reflexivity. Qed.

Lemma lo0_lt_hi_at (k : nat) : (lo0 < hi_at k)%Qc.
Proof.
  pose proof (hi_at_pos k) as H. unfold lo0. set (h := hi_at k) in *.
  qc_to_q. lra.
Qed.

(** The body of [irr] after the sign test, in terms of the rational NPV. *)
Lemma irr_after_signs (cf : list Qc) :
  (exists c, In c cf /\ (c < 0)%Qc) ->
  (exists c, In c cf /\ (0 < c)%Qc) ->
  exists j, (j <= 20)%nat
    /\ (forall j', (j' < j)%nat -> (0 < F cf lo0 * F cf (hi_at j'))%Qc)
    /\ ((j < 20)%nat -> (F cf lo0 * F cf (hi_at j) <= 0)%Qc)
    /\ irr (map Fin cf)
       = if Fin (F cf lo0 * F cf (hi_at j)) >? 0 then None
         else irr_bisect (map Fin cf) (Fin (F cf lo0)) 140
                (Fin lo0) (Fin (hi_at j)).
Proof.
  intros Hneg Hpos. unfold irr.
  rewrite irr_signs_spec, forallb_isFinite_map_Fin.
  rewrite (existsb_neg_Fin _ Hneg), (existsb_pos_Fin _ Hpos).
  simpl orb. simpl negb. cbv iota. cbv zeta.
  change irr_lo0 with (Fin lo0). unfold irr_hi0, ofZ. rewrite <- hi_at_0.
  rewrite (npv_F cf lo0 (Qcle_refl _)), (npv_F cf _ (hi_at_ok 0)).
  destruct (irr_widen_spec cf 20 0) as (j & Hj & Heq & Hbefore & Hstop).
  simpl plus in *. rewrite Heq. rewrite mul_Fin.
  exists j. repeat split; assumption.
Qed.

(** In exact arithmetic the NPV of finite flows is finite at every rate
    above -100%: for finite cash flows with a strictly negative and a
    strictly positive entry, [irr] is undefined exactly when the NPV at
    -0.9999 and the NPV at each upper bound [5 * 2^k], [k = 0 .. 20], have
    the same strict sign; otherwise it returns the midpoint of a bracket
    whose end NPVs do not have the same strict sign. *)
Lemma irr_exact_bracket (cf : list Qc) :
  (exists c, In c cf /\ (c < 0)%Qc) ->
  (exists c, In c cf /\ (0 < c)%Qc) ->
  let cashflows := map Fin cf in
  (irr cashflows = None <->
   forall k, (k <= 20)%nat ->
     (npv (Fin lo0) cashflows * npv (Fin (hi_at k)) cashflows >? 0) = true)
  /\
  (forall r, irr cashflows = Some r ->
   exists (lo hi : Qc) (k : nat),
     (k <= 20)%nat
     /\ (forall j, (j < k)%nat ->
           (npv (Fin lo0) cashflows * npv (Fin (hi_at j)) cashflows >? 0)
           = true)
     /\ (npv (Fin lo0) cashflows * npv (Fin (hi_at k)) cashflows >? 0) = false
     /\ r = Fin ((lo + hi) / Q2Qc 2)
     /\ (lo0 <= lo)%Qc /\ (lo < hi)%Qc /\ (hi <= hi_at k)%Qc
     /\ (npv (Fin lo) cashflows * npv (Fin hi) cashflows >? 0) = false
     /\ ((abs (npv r cashflows) <? ofQ 0.0000001) = true
         \/ ((hi - lo) * Q2Qc 2 ^ 140)%Qc = (hi_at k - lo0)%Qc)).
Proof.
  intros Hneg Hpos cashflows. unfold cashflows.
  destruct (irr_after_signs cf Hneg Hpos) as (j & Hj & Hbefore & Hstop & Hirr).
  rewrite Hirr. clear Hirr.
  assert (Hprod : forall k,
             npv (Fin lo0) (map Fin cf) * npv (Fin (hi_at k)) (map Fin cf)
             = Fin (F cf lo0 * F cf (hi_at k))).
  { intros k. now rewrite (npv_F cf lo0 (Qcle_refl _)), (npv_F cf _ (hi_at_ok k)). }
  destruct (Fin (F cf lo0 * F cf (hi_at j)) >? 0) eqn:E.
  - rewrite zero_Fin in E. pose proof (proj1 (gtb_Fin _ _) E) as E'.
    assert (j = 20)%nat.
    { destruct (Nat.eq_dec j 20) as [|Hne]; [assumption|].
      exfalso. assert (Hlt : (j < 20)%nat) by lia.
      specialize (Hstop Hlt). eapply Qclt_not_le; eauto. }
    subst j. split.
    + split; [|reflexivity]. intros _ k Hk. rewrite Hprod, zero_Fin.
      apply gtb_Fin. destruct (Nat.eq_dec k 20) as [->|Hne]; [exact E'|].
      apply Hbefore. lia.
    + intros r Hr. discriminate Hr.
  - rewrite zero_Fin in E. apply gtb_Fin_false in E.
    destruct (irr_bisect_spec cf 140 lo0 (hi_at j)) as
      (lo & hi & Heq & H1 & H2 & H3 & H4 & H5).
    { apply Qcle_refl. }
    { apply lo0_lt_hi_at. }
    { split; [now left | exact E]. }
    rewrite Heq. split.
    + split; [discriminate|]. intros H. exfalso.
      specialize (H j Hj). rewrite Hprod, zero_Fin in H.
      apply gtb_Fin in H. eapply Qclt_not_le; eauto.
    + intros r Hr. injection Hr as <-.
      assert (Hhi : (lo0 <= hi)%Qc).
      { apply Qcle_trans with lo; [exact H1|]. now apply Qclt_le_weak. }
      assert (Hmid : (lo0 <= (lo + hi) / Q2Qc 2)%Qc).
      { apply Qcle_trans with lo; [exact H1|].
        apply Qclt_le_weak. now apply mid_between. }
      exists lo, hi, j. repeat split; try assumption.
      * intros j' Hj'. rewrite Hprod, zero_Fin. apply gtb_Fin.
        now apply Hbefore.
      * rewrite Hprod, zero_Fin. now apply gtb_Fin_false.
      * rewrite (npv_F cf _ H1), (npv_F cf _ Hhi), mul_Fin, zero_Fin.
        apply gtb_Fin_false. now apply bracket_no_same_sign.
      * rewrite (npv_F cf _ Hmid), abs_Fin.
        destruct H5 as [H5|H5]; [left|right; exact H5].
        apply ltb_Fin. exact H5.
Qed.

(** ** IRR: whatever the evaluation of the NPV returns *)

Lemma irr_widen_with_npv (cashflows : list number) (fLo : number)
    (tries : nat) (hi fHi : number) :
  irr_widen cashflows fLo tries hi fHi
  = irr_widen_with (fun r => npv r cashflows) fLo tries hi fHi.
Proof.
  revert hi fHi. induction tries as [|tries IH]; intros hi fHi;
    [reflexivity|].
  cbn [irr_widen irr_widen_with]. destruct (fLo * fHi >? 0); [|reflexivity].
  apply IH.
Qed.

Lemma irr_bisect_with_npv (cashflows : list number) (fLo : number)
    (iters : nat) (lo hi : number) :
  irr_bisect cashflows fLo iters lo hi
  = irr_bisect_with (fun r => npv r cashflows) fLo iters lo hi.
Proof.
  revert lo hi. induction iters as [|iters IH]; intros lo hi;
    [reflexivity|].
  cbn [irr_bisect irr_bisect_with].
  destruct (negb _); [reflexivity|]. destruct (_ <? _); [reflexivity|].
  destruct (_ <=? _); apply IH.
Qed.

Lemma irr_with_npv (cashflows : list number) :
  irr cashflows = irr_with (fun r => npv r cashflows) cashflows.
Proof.
  unfold irr, irr_with.
  destruct (irr_signs false false cashflows) as [[hn hp]|]; [|reflexivity].
  destruct (negb hn || negb hp); [reflexivity|]. cbv zeta.
  rewrite irr_widen_with_npv.
  destruct (irr_widen_with _ _ _ _ _) as [hi fHi].
  destruct (_ >? 0); [reflexivity|]. apply irr_bisect_with_npv.
Qed.

(** *** Signs of products *)

Lemma sgn_Fin (a : Qc) : sgn (Fin a) = Some (a ?= 0)%Qc.
Proof. reflexivity. Qed.

Lemma gtb_0_sgn (x : number) : (x >? 0) = true <-> sgn x = Some Gt.
Proof.
  unfold gtb, sgn. destruct (ncompare x 0) as [[]|]; split; congruence.
Qed.

Lemma leb_0_sgn (x : number) :
  (x <=? 0) = true <-> sgn x = Some Lt \/ sgn x = Some Eq.
Proof.
  unfold leb, sgn. destruct (ncompare x 0) as [[]|]; split;
    try congruence; auto; intros [|]; congruence.
Qed.

Lemma sgn_inf_of (c : comparison) :
  sgn (inf_of c) = match c with Eq => None | _ => Some c end.
Proof. destruct c; reflexivity. Qed.

Lemma compare_mult (a b : Qc) :
  (a * b ?= 0)%Qc
  = match (a ?= 0)%Qc, (b ?= 0)%Qc with
    | Eq, _ | _, Eq => Eq
    | Lt, Lt | Gt, Gt => Gt
    | _, _ => Lt
    end.
Proof.
  destruct (Qccompare_spec a 0) as [->|Ha|Ha].
  - rewrite Qcmult_0_l. now apply Qccompare_Eq.
  - destruct (Qccompare_spec b 0) as [->|Hb|Hb].
    + rewrite Qcmult_0_r. now apply Qccompare_Eq.
    + apply Qccompare_Gt. qc_to_q. nra.
    + apply Qccompare_Lt. qc_to_q. nra.
  - destruct (Qccompare_spec b 0) as [->|Hb|Hb].
    + rewrite Qcmult_0_r. now apply Qccompare_Eq.
    + apply Qccompare_Lt. qc_to_q. nra.
    + apply Qccompare_Gt. qc_to_q. nra.
Qed.

Lemma compare_0_l (a : Qc) : (0 ?= a)%Qc = CompOpp (a ?= 0)%Qc.
Proof.
  destruct (Qccompare_spec a 0) as [->|Ha|Ha]; cbn [CompOpp].
  - now apply Qccompare_Eq.
  - now apply Qccompare_Gt.
  - now apply Qccompare_Lt.
Qed.

(** The sign of a product: that of the rule of signs, and [NaN] for
    [0 * Infinity]. *)
Lemma sgn_mul (x y : number) :
  sgn (x * y)
  = match sgn x, sgn y with
    | Some Eq, Some Eq => Some Eq
    | Some Eq, Some _ => if isFinite y then Some Eq else None
    | Some _, Some Eq => if isFinite x then Some Eq else None
    | Some Lt, Some Lt | Some Gt, Some Gt => Some Gt
    | Some _, Some _ => Some Lt
    | _, _ => None
    end.
Proof.
  destruct x as [a| | |], y as [b| | |]; try reflexivity;
    cbn [mul]; rewrite ?sgn_Fin, ?sgn_inf_of, ?compare_0_l, ?compare_mult;
    cbn [isFinite];
    repeat match goal with
           | |- context [(?c ?= 0)%Qc] => destruct (c ?= 0)%Qc
           end;
    reflexivity.
Qed.

Lemma sgn_None (x : number) : sgn x = None -> x = NaN.
Proof. destruct x; try discriminate. reflexivity. Qed.

(** The rule the bisection relies on: if [y] is [x] itself, or a finite
    number whose product with [x] is not [<= 0], and the product of [x] and
    [z] is not positive, then the product of [y] and [z] is not positive;
    this needs [x] not to be [NaN]. *)
Lemma no_same_sign (x y z : number) :
  x <> NaN ->
  y = x \/ (isFinite y = true /\ (x * y <=? 0) = false) ->
  (x * z >? 0) = false -> (y * z >? 0) = false.
Proof.
  intros Hx [->|[Hy Hxy]] Hxz; [exact Hxz|].
  apply not_true_iff_false. intros Hyz.
  apply not_true_iff_false in Hxz, Hxy.
  rewrite gtb_0_sgn, sgn_mul in Hxz, Hyz. rewrite leb_0_sgn, sgn_mul in Hxy.
  rewrite Hy in *.
  destruct (sgn x) as [cx|] eqn:Ex; [|now apply Hx, sgn_None].
  destruct cx, (sgn y) as [[]|], (sgn z) as [[]|], (isFinite x),
    (isFinite z); try discriminate Hyz;
    solve [apply Hxz; reflexivity | apply Hxy; auto].
Qed.

(** *** The two loops *)

Section IrrWith.

Variable f : number -> number.

Let fLo := f (Fin lo0).

(** The doubling loop, started at the upper bound number [k]. *)
Lemma irr_widen_with_spec (tries k : nat) :
  exists j, (j <= tries)%nat
    /\ irr_widen_with f fLo tries (Fin (hi_at k)) (f (Fin (hi_at k)))
       = (Fin (hi_at (k + j)), f (Fin (hi_at (k + j))))
    /\ (forall j', (j' < j)%nat ->
          (fLo * f (Fin (hi_at (k + j'))) >? 0) = true)
    /\ ((j < tries)%nat -> (fLo * f (Fin (hi_at (k + j))) >? 0) = false).
Proof.
  revert k. induction tries as [|tries IH]; intros k.
  - exists 0%nat. rewrite Nat.add_0_r. cbn [irr_widen_with].
    repeat split; intros; lia.
  - cbn [irr_widen_with].
    destruct (fLo * f (Fin (hi_at k)) >? 0) eqn:E.
    + change (ofZ 2) with (Fin (Q2Qc 2)). rewrite mul_Fin, hi_at_S.
      destruct (IH (S k)) as (j & Hj & Heq & Hbefore & Hstop).
      exists (S j). replace (k + S j)%nat with (S k + j)%nat by lia.
      repeat split; try lia; try exact Heq.
      * intros j' Hj'. destruct j' as [|j'].
        -- rewrite Nat.add_0_r. exact E.
        -- replace (k + S j')%nat with (S k + j')%nat by lia.
           apply Hbefore. lia.
      * intros H. apply Hstop. lia.
    + exists 0%nat. rewrite Nat.add_0_r. repeat split; try lia.
      intros _. exact E.
Qed.

(** The bisection loop: [None] needs a midpoint whose value is not finite;
    a rate returned is the midpoint of a bracket inside the starting one,
    each end of which is the starting end or a midpoint with a finite
    value, kept below when its product with [fLo] was not [<= 0] and above
    when it was. *)
Lemma irr_bisect_with_spec (iters : nat) (lo hi : Qc) :
  (lo < hi)%Qc ->
  match irr_bisect_with f fLo iters (Fin lo) (Fin hi) with
  | None =>
      exists m, (lo < m)%Qc /\ (m < hi)%Qc /\ isFinite (f (Fin m)) = false
  | Some r =>
      exists lo' hi',
        r = Fin ((lo' + hi') / Q2Qc 2)
        /\ (lo <= lo')%Qc /\ (lo' < hi')%Qc /\ (hi' <= hi)%Qc
        /\ (lo' = lo
            \/ (isFinite (f (Fin lo')) = true
                /\ (fLo * f (Fin lo') <=? 0) = false))
        /\ (hi' = hi
            \/ (isFinite (f (Fin hi')) = true
                /\ (fLo * f (Fin hi') <=? 0) = true))
        /\ ((abs (f r) <? ofQ 0.0000001) = true
            \/ ((hi' - lo') * Q2Qc 2 ^ iters)%Qc = (hi - lo)%Qc)
  end.
Proof.
  revert lo hi. induction iters as [|iters IH]; intros lo hi Hlt.
  - cbn [irr_bisect_with]. change (ofZ 2) with (Fin (Q2Qc 2)).
    rewrite add_Fin, div_Fin by discriminate.
    exists lo, hi. repeat split; auto; try apply Qcle_refl.
    right. change (Q2Qc 2 ^ 0)%Qc with 1%Qc. ring.
  - cbn [irr_bisect_with]. change (ofZ 2) with (Fin (Q2Qc 2)).
    rewrite add_Fin, div_Fin by discriminate.
    set (mid := ((lo + hi) / Q2Qc 2)%Qc).
    destruct (mid_between lo hi Hlt) as [Hm1 Hm2]. fold mid in Hm1, Hm2.
    destruct (isFinite (f (Fin mid))) eqn:Efin; cbn [negb].
    2:{ exists mid. auto. }
    destruct (abs (f (Fin mid)) <? ofQ 0.0000001) eqn:Etol.
    { exists lo, hi. repeat split; auto; try apply Qcle_refl. }
    destruct (fLo * f (Fin mid) <=? 0) eqn:Es.
    + specialize (IH lo mid Hm1).
      destruct (irr_bisect_with f fLo iters (Fin lo) (Fin mid)) as [r|].
      * destruct IH as (lo' & hi' & Hr & H1 & H2 & H3 & H4 & H5 & H6).
        exists lo', hi'. repeat split; try assumption.
        -- apply Qcle_trans with mid; [exact H3|]. now apply Qclt_le_weak.
        -- destruct H5 as [->|H5]; [right; auto | right; exact H5].
        -- destruct H6 as [H6|H6]; [left; exact H6|right].
           change (Q2Qc 2 ^ S iters)%Qc with (Q2Qc 2 * Q2Qc 2 ^ iters)%Qc.
           rewrite <- (mid_width_l lo hi). fold mid. rewrite <- H6. ring.
      * destruct IH as (m & Hm & Hm' & Hf). exists m.
        repeat split; try assumption. now apply Qclt_trans with mid.
    + specialize (IH mid hi Hm2).
      destruct (irr_bisect_with f fLo iters (Fin mid) (Fin hi)) as [r|].
      * destruct IH as (lo' & hi' & Hr & H1 & H2 & H3 & H4 & H5 & H6).
        exists lo', hi'. repeat split; try assumption.
        -- apply Qcle_trans with mid; [|exact H1]. now apply Qclt_le_weak.
        -- destruct H4 as [->|H4]; [right; auto | right; exact H4].
        -- destruct H6 as [H6|H6]; [left; exact H6|right].
           change (Q2Qc 2 ^ S iters)%Qc with (Q2Qc 2 * Q2Qc 2 ^ iters)%Qc.
           rewrite <- (mid_width_r lo hi). fold mid. rewrite <- H6. ring.
      * destruct IH as (m & Hm & Hm' & Hf). exists m.
        repeat split; try assumption. now apply Qclt_trans with mid.
Qed.

End IrrWith.

Lemma irr_signs_both (cashflows : list number) :
  forallb isFinite cashflows = true ->
  (exists x, In x cashflows /\ (x <? 0) = true) ->
  (exists x, In x cashflows /\ (x >? 0) = true) ->
  irr_signs false false cashflows = Some (true, true).
Proof.
  intros Hfin Hneg Hpos. rewrite irr_signs_spec, Hfin.
  replace (existsb (fun x => x <? 0) cashflows) with true
    by (symmetry; now apply existsb_exists).
  replace (existsb (fun x => x >? 0) cashflows) with true
    by (symmetry; now apply existsb_exists).
  reflexivity.
Qed.

(** [irr_with] after the sign test. *)
Lemma irr_with_after_signs (f : number -> number) (cashflows : list number) :
  irr_signs false false cashflows = Some (true, true) ->
  exists j, (j <= 20)%nat
    /\ (forall j', (j' < j)%nat ->
          (f (Fin lo0) * f (Fin (hi_at j')) >? 0) = true)
    /\ ((j < 20)%nat -> (f (Fin lo0) * f (Fin (hi_at j)) >? 0) = false)
    /\ irr_with f cashflows
       = if f (Fin lo0) * f (Fin (hi_at j)) >? 0 then None
         else irr_bisect_with f (f (Fin lo0)) 140 (Fin lo0) (Fin (hi_at j)).
Proof.
  intros Hs. unfold irr_with. rewrite Hs. cbn [negb orb]. cbv zeta.
  change irr_lo0 with (Fin lo0). unfold irr_hi0, ofZ. rewrite <- hi_at_0.
  destruct (irr_widen_with_spec f 20 0) as (j & Hj & Heq & Hbefore & Hstop).
  cbn [plus] in *. rewrite Heq. exists j. repeat split; assumption.
Qed.




(** What an overflow at the lower bound does.  Take the flows
    [-1, 1.500075], whose NPV has its root at 0.500075, and an evaluation
    that is [NaN] at -0.9999 (as when the terms of the sum overflow to
    infinities of both signs) and exact elsewhere: no comparison with the
    value at -0.9999 holds, the lower end moves up at each of the 140
    halvings, and the rate returned is next to the upper bound 5, where the
    NPV is far from 0.  The condition on the NPV at -0.9999 cannot be
    dropped from the sign property of the bracket. *)
Lemma irr_with_NaN_at_lower_bound :
  let cashflows := [ofZ (-1); ofQ 1.500075] in
  let f := fun r => if same r (Fin lo0) then NaN else npv r cashflows in
  exists r,
    irr_with f cashflows = Some r
    /\ (r >? ofQ 4.999) = true
    /\ (f r <? ofQ (-0.7)) = true.
Proof.
  cbv zeta.
  set (f := fun r => if same r (Fin lo0) then NaN
                     else npv r [ofZ (-1); ofQ 1.500075]).
  assert (H : match irr_with f [ofZ (-1); ofQ 1.500075] with
              | Some r => (r >? ofQ 4.999) && (f r <? ofQ (-0.7))
              | None => false
              end = true) by (vm_compute; reflexivity).
  destruct (irr_with f [ofZ (-1); ofQ 1.500075]) as [r|]; [|discriminate H].
  apply andb_prop in H. exists r. split; [reflexivity | exact H].
Qed.

(** ** Finite inputs give finite results *)

Create HintDb fin.

Lemma fin_Fin (a : Qc) : fin (Fin a).
Proof. reflexivity. Qed.
Lemma fin_zero : fin 0.
Proof. reflexivity. Qed.
Lemma fin_one : fin 1.
Proof. reflexivity. Qed.
Lemma fin_ofQ (q : Q) : fin (ofQ q).
Proof. reflexivity. Qed.
Lemma fin_ofZ (z : Z) : fin (ofZ z).
Proof. reflexivity. Qed.

Ltac fin_cases :=
  unfold fin in *;
  repeat match goal with
  | H : isFinite ?x = true |- _ =>
      let a := fresh "a" in
      destruct (isFinite_Fin x H) as [a ->]; clear H
  end.

Lemma fin_add (x y : number) : fin x -> fin y -> fin (x + y).
Proof. intros Hx Hy. fin_cases. reflexivity. Qed.
Lemma fin_neg (x : number) : fin x -> fin (- x).
Proof. intros Hx. fin_cases. reflexivity. Qed.
Lemma fin_sub (x y : number) : fin x -> fin y -> fin (x - y).
Proof. intros Hx Hy. fin_cases. reflexivity. Qed.
Lemma fin_mul (x y : number) : fin x -> fin y -> fin (x * y).
Proof. intros Hx Hy. fin_cases. reflexivity. Qed.
Lemma fin_max (x y : number) : fin x -> fin y -> fin (max x y).
Proof. intros Hx Hy. fin_cases. now rewrite max_Fin. Qed.
Lemma fin_min (x y : number) : fin x -> fin y -> fin (min x y).
Proof. intros Hx Hy. fin_cases. now rewrite min_Fin. Qed.
Lemma fin_abs (x : number) : fin x -> fin (abs x).
Proof. intros Hx. fin_cases. reflexivity. Qed.
Lemma fin_clampNum (v d : number) : fin d -> fin (clampNum v d).
Proof. apply clampNum_finite. Qed.
Lemma fin_pow (x : number) (k : Z) : fin x -> (0 <= k)%Z -> fin (pow x k).
Proof. intros Hx Hk. fin_cases. now rewrite pow_Fin_nonneg. Qed.

Lemma fin_div_pos (x y : number) :
  fin x -> fin y -> (y >? 0) = true -> fin (x / y).
Proof.
  intros Hx Hy Hpos. fin_cases. rewrite zero_Fin in Hpos.
  apply gtb_Fin in Hpos. rewrite div_Fin; [reflexivity|].
  intros E. rewrite E in Hpos. now apply (Qclt_not_eq _ _ Hpos).
Qed.

#[export] Hint Resolve fin_Fin fin_zero fin_one fin_ofQ fin_ofZ fin_add fin_neg
  fin_sub fin_mul fin_max fin_min fin_abs fin_clampNum : fin.

(** A maximum with a positive finite floor is positive. *)
Lemma max_floor_pos (c : Qc) (x : number) :
  (0 < c)%Qc -> fin x -> (max (Fin c) x >? 0) = true.
Proof.
  intros Hc Hx. fin_cases. rewrite max_Fin, zero_Fin. apply gtb_Fin.
  apply Qclt_le_trans with c; [exact Hc | apply Qcmax_lub_l].
Qed.

Lemma max_0_nonneg (x : number) :
  fin x -> exists q, max 0 x = Fin q /\ (0 <= q)%Qc.
Proof.
  intros Hx. fin_cases. rewrite zero_Fin, max_Fin. eexists. split; [reflexivity|].
  apply Qcmax_lub_l.
Qed.

(** The level payment is finite for a finite loan and a non-negative rate. *)
Lemma pmtMonthly_finite (L q : Qc) (y : Z) :
  (0 <= q)%Qc -> fin (pmtMonthly (Fin L) (Fin q) y).
Proof.
  intros Hq. unfold pmtMonthly.
  destruct (Fin L <=? 0); [reflexivity|].
  destruct (Z.leb_spec (y * 12) 0) as [|Hn]; [reflexivity|].
  simpl orb. cbv iota.
  assert (H12 : Q2Qc (inject_Z 12) <> 0%Qc) by (apply ofZ_neq_0; lia).
  unfold ofZ. rewrite !(div_Fin _ _ H12).
  set (m := (q / Q2Qc (inject_Z 12))%Qc).
  rewrite zero_Fin, one_Fin.
  destruct (Fin m === Fin 0%Qc) eqn:Em.
  - unfold ofZ. rewrite div_Fin by (apply ofZ_neq_0; lia). reflexivity.
  - apply eqb_Fin_false in Em.
    assert (Hm : (0 < m)%Qc).
    { assert (H : (0 <= m)%Qc).
      { unfold m. qc_to_q.
        apply Qmult_le_0_compat; [assumption|]. apply Qinv_le_0_compat. lra. }
      destruct (Qcle_lt_or_eq _ _ H) as [?|E]; [assumption|].
      exfalso. apply Em. symmetry. exact E. }
    destruct (y * 12)%Z as [|p|p] eqn:Ep; try lia.
    assert (Hbase : (1 + m)%Qc <> 0%Qc) by (qc_to_q; lra).
    pose proof (annuity_denominator m (Pos.to_nat p) Hm (Z_pos_nat p)) as Hden.
    simpl Z.opp.
    rewrite add_Fin, (pow_Fin_neg _ _ Hbase), sub_Fin, mul_Fin.
    rewrite (div_Fin _ _ Hden). reflexivity.
Qed.

(** [irr] never returns a non-finite number. *)
Lemma irr_widen_finite (cf : list number) (fLo : number) (tries : nat)
  (hi fHi : number) :
  fin hi -> fin (fst (irr_widen cf fLo tries hi fHi)).
Proof.
  revert hi fHi. induction tries as [|tries IH]; intros hi fHi Hhi; [exact Hhi|].
  cbn [irr_widen]. destruct (fLo * fHi >? 0); [|exact Hhi].
  apply IH. auto with fin.
Qed.

Lemma half_finite (lo hi : number) : fin lo -> fin hi -> fin ((lo + hi) / ofZ 2).
Proof.
  intros Hlo Hhi. fin_cases. rewrite add_Fin. unfold ofZ.
  now rewrite div_Fin by discriminate.
Qed.

Lemma irr_bisect_finite (cf : list number) (fLo : number) (iters : nat)
  (lo hi r : number) :
  fin lo -> fin hi -> irr_bisect cf fLo iters lo hi = Some r -> fin r.
Proof.
  revert lo hi. induction iters as [|iters IH]; intros lo hi Hlo Hhi.
  - cbn [irr_bisect]. intros [= <-]. now apply half_finite.
  - cbn [irr_bisect]. pose proof (half_finite lo hi Hlo Hhi) as Hmid.
    destruct (negb _); [discriminate|].
    destruct (_ <? _); [intros [= <-]; exact Hmid|].
    destruct (_ <=? _); now apply IH.
Qed.

Lemma irr_finite (cf : list number) (r : number) : irr cf = Some r -> fin r.
Proof.
  unfold irr. destruct (irr_signs false false cf) as [[hn hp]|]; [|discriminate].
  destruct (negb hn || negb hp); [discriminate|]. cbv zeta.
  pose proof (irr_widen_finite cf (npv irr_lo0 cf) 20 irr_hi0 (npv irr_hi0 cf)
                (fin_ofZ 5)) as H.
  destruct (irr_widen _ _ _ _ _) as [hi fHi]. simpl in H.
  destruct (_ >? _); [discriminate|].
  apply irr_bisect_finite; [reflexivity | exact H].
Qed.

(** A list of finite numbers is a list of rationals. *)
Lemma finite_list (l : list number) :
  (forall i, (i < List.length l)%nat -> fin (get l i)) ->
  exists cf, l = map Fin cf.
Proof.
  induction l as [|x l IH]; intros H.
  - exists []. reflexivity.
  - destruct IH as [cf ->].
    { intros i Hi. apply (H (S i)). simpl. lia. }
    pose proof (H 0%nat ltac:(simpl; lia)) as Hx. unfold get in Hx. simpl in Hx.
    destruct (isFinite_Fin _ Hx) as [a ->]. exists (a :: cf). reflexivity.
Qed.

Lemma npv_finite_list (d : number) (l : list number) :
  fin d -> (d >=? 0) = true ->
  (forall i, (i < List.length l)%nat -> fin (get l i)) ->
  fin (npv d l).
Proof.
  intros Hd Hpos Hl. destruct (finite_list l Hl) as [cf ->].
  fin_cases. rewrite zero_Fin in Hpos. apply geb_Fin in Hpos.
  rewrite npv_finite; [reflexivity|]. intros E. qc_to_q. lra.
Qed.

Section FiniteModel.

Variable args : ModelInputs.
Hypothesis Hsan : sanitized args = true.
Let N := saleYear args.

Lemma sanitized_fields :
  Forall fin
    [squareFootage args; purchasePrice args; dueDiligenceCosts args;
     closingCostPct args; rentGrowth args; otherIncomeGrowth args;
     vacancyRate args; annualRevenue args; otherIncomeAnnual args;
     rentRollGPR args; rentRollUnits args; opexPctOfRev args;
     opexPerUnitYear args; mgmtFeePct args; reservesPerUnitYear args;
     opexItemsYear1 args; expenseInflation args; recoveryPctOfOpex args;
     recoveryFlatAnnual args; capexPsfYear1 args; capexPerUnitYear1 args;
     capexGrowth args; exitCapRate args; costOfSalePct args; ltv args;
     interestRate args; discountRate args].
Proof.
  apply andb_prop in Hsan. destruct Hsan as [H _].
  apply Forall_forall. intros x Hx.
  rewrite forallb_forall in H. now apply H.
Qed.

Lemma sanitized_hold : (1 <= N)%nat.
Proof.
  apply andb_prop in Hsan. destruct Hsan as [_ H]. now apply Nat.leb_le.
Qed.

Ltac field_fin :=
  let H := fresh in
  pose proof sanitized_fields as H;
  rewrite Forall_forall in H; apply H; simpl; tauto.

Lemma fin_squareFootage : fin (squareFootage args). Proof. field_fin. Qed.
Lemma fin_purchasePrice : fin (purchasePrice args). Proof. field_fin. Qed.
Lemma fin_dueDiligenceCosts : fin (dueDiligenceCosts args). Proof. field_fin. Qed.
Lemma fin_closingCostPct : fin (closingCostPct args). Proof. field_fin. Qed.
Lemma fin_annualRevenue : fin (annualRevenue args). Proof. field_fin. Qed.
Lemma fin_otherIncomeAnnual : fin (otherIncomeAnnual args). Proof. field_fin. Qed.
Lemma fin_rentRollGPR : fin (rentRollGPR args). Proof. field_fin. Qed.
Lemma fin_rentRollUnits : fin (rentRollUnits args). Proof. field_fin. Qed.
Lemma fin_opexPctOfRev : fin (opexPctOfRev args). Proof. field_fin. Qed.
Lemma fin_opexPerUnitYear : fin (opexPerUnitYear args). Proof. field_fin. Qed.
Lemma fin_mgmtFeePct : fin (mgmtFeePct args). Proof. field_fin. Qed.
Lemma fin_reservesPerUnitYear : fin (reservesPerUnitYear args). Proof. field_fin. Qed.
Lemma fin_opexItemsYear1 : fin (opexItemsYear1 args). Proof. field_fin. Qed.
Lemma fin_recoveryPctOfOpex : fin (recoveryPctOfOpex args). Proof. field_fin. Qed.
Lemma fin_recoveryFlatAnnual : fin (recoveryFlatAnnual args). Proof. field_fin. Qed.
Lemma fin_capexPsfYear1 : fin (capexPsfYear1 args). Proof. field_fin. Qed.
Lemma fin_capexPerUnitYear1 : fin (capexPerUnitYear1 args). Proof. field_fin. Qed.
Lemma fin_capexGrowth : fin (capexGrowth args). Proof. field_fin. Qed.
Lemma fin_interestRate : fin (interestRate args). Proof. field_fin. Qed.

Hint Resolve fin_squareFootage fin_purchasePrice fin_dueDiligenceCosts
  fin_closingCostPct fin_annualRevenue fin_otherIncomeAnnual fin_rentRollGPR
  fin_rentRollUnits fin_opexPctOfRev fin_opexPerUnitYear fin_mgmtFeePct
  fin_reservesPerUnitYear fin_opexItemsYear1 fin_recoveryPctOfOpex
  fin_recoveryFlatAnnual fin_capexPsfYear1 fin_capexPerUnitYear1
  fin_capexGrowth fin_interestRate : fin.

Lemma fin_rentG : fin (rentG args).
Proof. unfold rentG. auto with fin. Qed.
Lemma fin_otherG : fin (otherG args).
Proof. unfold otherG. pose proof fin_rentG. auto with fin. Qed.
Lemma fin_vacSafe : fin (vacSafe args).
Proof. unfold vacSafe. auto with fin. Qed.
Lemma fin_exitCapSafe : fin (exitCapSafe args).
Proof. unfold exitCapSafe. auto with fin. Qed.
Lemma fin_saleCostSafe : fin (saleCostSafe args).
Proof. unfold saleCostSafe. auto with fin. Qed.
Lemma fin_discSafe : fin (discSafe args).
Proof. unfold discSafe. auto with fin. Qed.
Lemma fin_expG : fin (expG args).
Proof. unfold expG. auto with fin. Qed.
Lemma fin_baseRent1 : fin (baseRent1 args).
Proof. unfold baseRent1. destruct (isMultifamily _); auto with fin. Qed.
Lemma fin_baseOther1 : fin (baseOther1 args).
Proof. unfold baseOther1. auto with fin. Qed.
Lemma fin_units : fin (units args).
Proof. unfold units. destruct (isMultifamily _); auto with fin. Qed.
Lemma fin_loanProceeds : fin (loanProceeds args).
Proof. unfold loanProceeds. auto 10 with fin. Qed.
Lemma fin_acquisitionCF : fin (acquisitionCF args).
Proof. unfold acquisitionCF. auto 10 with fin. Qed.

Hint Resolve fin_rentG fin_otherG fin_vacSafe fin_exitCapSafe
  fin_saleCostSafe fin_discSafe fin_expG fin_baseRent1 fin_baseOther1
  fin_units fin_loanProceeds fin_acquisitionCF : fin.

Lemma fin_debtPmtAnnual : fin (debtPmtAnnual args).
Proof.
  unfold debtPmtAnnual.
  destruct (max_0_nonneg (interestRate args) fin_interestRate) as (q & -> & Hq).
  destruct (isFinite_Fin _ fin_loanProceeds) as [L ->].
  apply fin_mul; [now apply pmtMonthly_finite | apply fin_ofZ].
Qed.

Hint Resolve fin_debtPmtAnnual : fin.

Lemma fin_payoff : fin (payoff args).
Proof.
  unfold payoff.
  assert (H : forall n, fin (fst (for_1_to n (payoff_step args)
                                    (loanProceeds args, loanProceeds args)))
                        /\ fin (snd (for_1_to n (payoff_step args)
                                    (loanProceeds args, loanProceeds args)))).
  { induction n as [|n [IH1 IH2]].
    - split; apply fin_loanProceeds.
    - rewrite for_1_to_S. destruct (for_1_to n _ _) as [bal pay].
      simpl in IH1, IH2. unfold payoff_step.
      assert (Hb : fin (max 0 (bal - max 0 (debtPmtAnnual args
                                             - bal * interestRate args))))
        by auto 10 with fin.
      destruct (S n =? saleYear args)%nat; split; assumption. }
  apply H.
Qed.

Hint Resolve fin_payoff : fin.

(** The projection of a year [y >= 1]. *)
Section Year.

Variable y : nat.
Hypothesis Hy : (1 <= y)%nat.

Lemma yexp_nonneg : (0 <= yexp y)%Z.
Proof. unfold yexp. lia. Qed.

Hint Resolve yexp_nonneg fin_pow : fin.

Lemma fin_revenue_at : fin (revenue_at args y).
Proof. unfold revenue_at, rentRev_at, otherRev_at. auto 10 with fin. Qed.

Hint Resolve fin_revenue_at : fin.

Lemma fin_opexAbs_at : fin (opexAbs_at args y).
Proof.
  unfold opexAbs_at, baseOpex_at. destruct (opexMode args); auto 12 with fin.
Qed.

Hint Resolve fin_opexAbs_at : fin.

Lemma fin_recoveries_at : fin (recoveries_at args y).
Proof.
  unfold recoveries_at. destruct (recoveryMode args); auto 10 with fin.
Qed.

Hint Resolve fin_recoveries_at : fin.

Lemma fin_noi_at : fin (noi_at args y).
Proof. unfold noi_at, egr_at, vacancyLoss_at. auto 12 with fin. Qed.

Lemma fin_capexAbs_at : fin (capexAbs_at args y).
Proof.
  unfold capexAbs_at. destruct (capexMode args); auto 12 with fin.
Qed.

Lemma fin_opCF : fin (opCF args y).
Proof.
  unfold opCF. apply fin_sub; [apply fin_noi_at | apply fin_capexAbs_at].
Qed.

End Year.

Lemma exitCapSafe_pos : (exitCapSafe args >? 0) = true.
Proof.
  unfold exitCapSafe. apply max_floor_pos; [reflexivity | auto with fin].
Qed.

Lemma fin_salePrice : fin (salePrice args).
Proof.
  unfold salePrice, noi. rewrite get_series by lia.
  apply fin_div_pos; [apply fin_noi_at; lia | apply fin_exitCapSafe
                     | apply exitCapSafe_pos].
Qed.

Lemma fin_saleNetBeforeDebt : fin (saleNetBeforeDebt args).
Proof.
  unfold saleNetBeforeDebt, saleCosts. pose proof fin_salePrice.
  auto with fin.
Qed.

Hint Resolve fin_salePrice fin_saleNetBeforeDebt : fin.

Lemma fin_unleveredCF (i : nat) : (i <= N)%nat -> fin (get (unleveredCF args) i).
Proof.
  intros Hi. rewrite get_unleveredCF by exact Hi. cbv zeta.
  assert (Hbase : fin (if (i =? 0)%nat then acquisitionCF args else opCF args i)).
  { destruct (Nat.eqb_spec i 0); [auto with fin | apply fin_opCF; lia]. }
  destruct (i =? saleYear args)%nat; auto with fin.
Qed.

Lemma fin_leveredCF (i : nat) : (i <= N)%nat -> fin (get (leveredCF args) i).
Proof.
  intros Hi. rewrite get_leveredCF by exact Hi.
  destruct (Nat.eqb_spec i 0) as [->|Hi0].
  - pose proof (fin_unleveredCF 0 ltac:(lia)). auto with fin.
  - unfold leveredAt. pose proof (fin_opCF i ltac:(lia)).
    destruct (i =? saleYear args)%nat; auto 10 with fin.
Qed.

Lemma discSafe_nonneg : (discSafe args >=? 0) = true.
Proof.
  unfold discSafe.
  destruct (max_0_nonneg (clampNum (discountRate args) (ofQ 0.12)))
    as (q & -> & Hq); [auto with fin|].
  rewrite zero_Fin. now apply geb_Fin.
Qed.

(** Every metric the two engines read is finite when defined. *)
Lemma metricValue_finite (metric : SensMetric) (v : number) :
  metricValue (computeModel args) metric = Some v -> fin v.
Proof.
  destruct metric; simpl.
  - apply irr_finite.
  - intros [= <-]. unfold lNPV. apply npv_finite_list.
    + apply fin_discSafe.
    + apply discSafe_nonneg.
    + intros i Hi. rewrite leveredCF_length in Hi. apply fin_leveredCF. lia.
  - unfold coc. destruct (equityOut args >? 0) eqn:E; [|discriminate].
    intros [= <-]. apply fin_div_pos; [| |exact E].
    + apply fin_leveredCF. pose proof sanitized_hold. lia.
    + unfold equityOut. apply fin_neg. apply fin_leveredCF. lia.
  - unfold dscr. destruct (debtPmtAnnual args >? 0) eqn:E; [|discriminate].
    intros [= <-]. apply fin_div_pos; [| |exact E].
    + unfold noi1, noi. rewrite get_series by lia. apply fin_noi_at. lia.
    + apply fin_debtPmtAnnual.
  - intros [= <-]. apply fin_salePrice.
Qed.

End FiniteModel.

(** ** Tornado *)

Lemma sanitized_withField (a : ModelInputs) (o : Override) :
  sanitized a = true -> fin (override_value o) ->
  sanitized (withField a o) = true.
Proof.
  unfold sanitized, fin. intros H Ho.
  apply andb_prop in H. destruct H as [H HN].
  apply andb_true_intro. split; [|destruct o; exact HN].
  simpl in H. repeat (apply andb_prop in H; destruct H as [? H]).
  destruct o; simpl in *; repeat (apply andb_true_intro; split); auto.
Qed.

Lemma sanitized_overrides (a : ModelInputs) (os : list Override) :
  sanitized a = true -> Forall (fun o => fin (override_value o)) os ->
  sanitized (fold_left withField os a) = true.
Proof.
  intros Ha Hos. revert a Ha. induction Hos as [|o os Ho _ IH]; intros a Ha.
  - exact Ha.
  - simpl. apply IH. now apply sanitized_withField.
Qed.

Section TornadoFacts.

Variable baseArgs : ModelInputs.
Variable tornadoMetric : SensMetric.
Hypothesis Hsan : sanitized baseArgs = true.

Let base := metricValue (computeModel baseArgs) tornadoMetric.

Lemma scenarios_finite (s : Scenario) :
  In s (scenarios baseArgs) ->
  Forall (fun o => fin (override_value o)) (sc_low s)
  /\ Forall (fun o => fin (override_value o)) (sc_high s).
Proof.
  pose proof (sanitized_fields baseArgs Hsan) as HF.
  rewrite Forall_forall in HF.
  assert (Hf : forall x, In x [purchasePrice baseArgs; exitCapRate baseArgs;
                               rentGrowth baseArgs; otherIncomeGrowth baseArgs;
                               vacancyRate baseArgs; interestRate baseArgs;
                               opexPctOfRev baseArgs] -> fin x).
  { intros x Hx. apply HF. simpl in *. tauto. }
  assert (H1 := Hf _ (or_introl eq_refl)).
  assert (H2 := Hf _ (or_intror (or_introl eq_refl))).
  assert (H3 := Hf _ (or_intror (or_intror (or_introl eq_refl)))).
  assert (H4 := Hf _ (or_intror (or_intror (or_intror (or_introl eq_refl))))).
  assert (H5 := Hf _ (or_intror (or_intror (or_intror (or_intror
                        (or_introl eq_refl)))))).
  assert (H6 := Hf _ (or_intror (or_intror (or_intror (or_intror
                        (or_intror (or_introl eq_refl))))))).
  assert (H7 := Hf _ (or_intror (or_intror (or_intror (or_intror
                        (or_intror (or_intror (or_introl eq_refl)))))))).
  unfold scenarios. intros Hs. simpl in Hs.
  repeat (destruct Hs as [<-|Hs]); try contradiction; simpl;
    split; repeat constructor; simpl; auto with fin.
Qed.

Lemma simulate_metric_finite (os : list Override) (v : number) :
  Forall (fun o => fin (override_value o)) os ->
  metricValue (simulate baseArgs os) tornadoMetric = Some v -> fin v.
Proof.
  intros Hos. unfold simulate. apply metricValue_finite.
  now apply sanitized_overrides.
Qed.

Lemma delta_finite (v d : option number) (x : number) :
  (forall b, base = Some b -> fin b) ->
  (forall w, v = Some w -> fin w) ->
  delta base v = Some x -> fin x.
Proof.
  intros Hb Hv. unfold delta. destruct base as [b|]; [|discriminate].
  destruct v as [w|]; [|discriminate]. intros [= <-].
  apply fin_sub; auto.
Qed.

Lemma swing_of_finite (l h : option number) :
  (forall x, l = Some x -> fin x) -> (forall x, h = Some x -> fin x) ->
  fin (swing_of l h).
Proof.
  intros Hl Hh. unfold swing_of. destruct l as [x|]; [|reflexivity].
  destruct h as [z|]; [|reflexivity]. auto with fin.
Qed.

Lemma tornadoRow_swing_finite (s : Scenario) :
  In s (scenarios baseArgs) ->
  fin (swing (tornadoRow baseArgs tornadoMetric base s)).
Proof.
  intros Hs. destruct (scenarios_finite s Hs) as [Hlow Hhigh].
  unfold tornadoRow. simpl swing.
  assert (Hb : forall b, base = Some b -> fin b).
  { intros b. unfold base. now apply metricValue_finite. }
  apply swing_of_finite; intros x; apply (delta_finite _ None); try exact Hb.
  - intros w. now apply simulate_metric_finite.
  - intros w. now apply simulate_metric_finite.
Qed.

End TornadoFacts.

(** *** The sort *)

Lemma sort_insert_perm (a : TornadoRow) (l : list TornadoRow) :
  Permutation (a :: l) (sort_insert a l).
Proof.
  induction l as [|b l IH]; simpl; [reflexivity|].
  destruct (comparator a b >? 0); [|reflexivity].
  rewrite perm_swap. now apply perm_skip.
Qed.

Lemma sort_rows_perm (l : list TornadoRow) : Permutation l (sort_rows l).
Proof.
  induction l as [|a l IH]; simpl; [reflexivity|].
  rewrite <- sort_insert_perm. now apply perm_skip.
Qed.

Lemma comparator_pos (a b : TornadoRow) :
  fin (swing a) -> fin (swing b) ->
  (comparator a b >? 0) = true -> swing_ge b a.
Proof.
  unfold comparator, swing_ge. intros Ha Hb.
  destruct (isFinite_Fin _ Ha) as [x ->], (isFinite_Fin _ Hb) as [z ->].
  rewrite sub_Fin, zero_Fin, gtb_Fin, geb_Fin. intros H. qc_to_q. lra.
Qed.

Lemma comparator_not_pos (a b : TornadoRow) :
  fin (swing a) -> fin (swing b) ->
  (comparator a b >? 0) = false -> swing_ge a b.
Proof.
  unfold comparator, swing_ge. intros Ha Hb.
  destruct (isFinite_Fin _ Ha) as [x ->], (isFinite_Fin _ Hb) as [z ->].
  rewrite sub_Fin, zero_Fin, gtb_Fin_false, geb_Fin. intros H. qc_to_q. lra.
Qed.

Lemma sort_insert_hd (c a : TornadoRow) (l : list TornadoRow) :
  swing_ge c a -> HdRel swing_ge c l -> HdRel swing_ge c (sort_insert a l).
Proof.
  intros Hca Hl. destruct l as [|b l]; simpl.
  - now constructor.
  - destruct (comparator a b >? 0); constructor; [|exact Hca].
    now inversion Hl.
Qed.

Lemma sort_insert_sorted (a : TornadoRow) (l : list TornadoRow) :
  fin (swing a) -> Forall (fun r => fin (swing r)) l ->
  Sorted swing_ge l -> Sorted swing_ge (sort_insert a l).
Proof.
  intros Ha Hl Hs. induction l as [|b l IH]; simpl.
  - repeat constructor.
  - inversion Hl as [|? ? Hb Hl']; subst. inversion Hs as [|? ? Hs' Hhd]; subst.
    destruct (comparator a b >? 0) eqn:E.
    + constructor; [now apply IH|].
      apply sort_insert_hd; [|exact Hhd]. now apply comparator_pos.
    + constructor; [exact Hs|]. constructor. now apply comparator_not_pos.
Qed.

Lemma sort_rows_sorted (l : list TornadoRow) :
  Forall (fun r => fin (swing r)) l -> Sorted swing_ge (sort_rows l).
Proof.
  induction 1 as [|a l Ha Hl IH]; simpl; [constructor|].
  apply sort_insert_sorted; [exact Ha| |exact IH].
  apply Forall_forall. intros r Hr. rewrite Forall_forall in Hl. apply Hl.
  eapply Permutation_in; [symmetry; apply sort_rows_perm | exact Hr].
Qed.

Lemma Sorted_adjacent (l : list TornadoRow) :
  Sorted swing_ge l ->
  forall i a b, nth_error l i = Some a -> nth_error l (S i) = Some b ->
                swing_ge a b.
Proof.
  induction 1 as [|c l Hs IH Hhd]; intros i a b Ha Hb.
  - destruct i; discriminate.
  - destruct i as [|i]; simpl in *.
    + injection Ha as <-. destruct l as [|d l]; [discriminate|].
      simpl in Hb. injection Hb as <-. now inversion Hhd.
    + now apply (IH i).
Qed.




(** * Further properties of the code *)

(** ** More on amortization *)

Lemma monthly_rate_nonneg (r : Qc) :
  (0 <= r)%Qc -> (0 <= r / Q2Qc (inject_Z 12))%Qc.
Proof.
  intros Hr. qc_to_q.
  apply Qmult_le_0_compat; [assumption|]. apply Qinv_le_0_compat. lra.
Qed.

Lemma monthly_rate_div (r : Qc) :
  Fin r / ofZ 12 = Fin (r / Q2Qc (inject_Z 12)).
Proof. unfold ofZ. apply div_Fin. apply ofZ_neq_0. lia. Qed.

(** On a positive loan with a non-negative rate and a positive term, the two
    formulas compute the rational payment and balance. *)
Lemma pmtMonthly_pmtQ (L r : Qc) (y : Z) :
  (0 < L)%Qc -> (0 <= r)%Qc -> (1 <= y)%Z ->
  pmtMonthly (Fin L) (Fin r) y
  = Fin (pmtQ L (r / Q2Qc (inject_Z 12)) (Z.to_nat (y * 12))).
Proof.
  intros HL Hr Hy. unfold pmtMonthly, pmtQ.
  assert (EL : (Fin L <=? 0) = false) by (apply leb_Fin_false; exact HL).
  assert (En : (y * 12 <=? 0)%Z = false) by (apply Z.leb_gt; lia).
  rewrite EL, En. simpl orb. cbv iota.
  rewrite monthly_rate_div. set (m := (r / Q2Qc (inject_Z 12))%Qc).
  pose proof (monthly_rate_nonneg r Hr) as Hm0. fold m in Hm0.
  rewrite zero_Fin, one_Fin.
  destruct (Qc_eq_bool m 0) eqn:Em.
  - apply Qc_eq_bool_true_iff in Em.
    replace (Fin m === Fin 0%Qc) with true by (symmetry; now apply eqb_Fin).
    unfold ofZ. rewrite div_Fin by (apply ofZ_neq_0; lia).
    now rewrite Z2Nat.id by lia.
  - apply Qc_eq_bool_false_iff in Em.
    replace (Fin m === Fin 0%Qc) with false
      by (symmetry; now apply eqb_Fin_false).
    assert (Hm : (0 < m)%Qc).
    { destruct (Qcle_lt_or_eq _ _ Hm0) as [?|E]; [assumption|].
      exfalso. apply Em. symmetry. exact E. }
    destruct (y * 12)%Z as [|p|p] eqn:Ep; try lia.
    assert (Hbase : (1 + m)%Qc <> 0%Qc) by (qc_to_q; lra).
    pose proof (annuity_denominator m (Pos.to_nat p) Hm (Z_pos_nat p)) as Hden.
    simpl Z.opp. simpl Z.to_nat.
    rewrite add_Fin, (pow_Fin_neg _ _ Hbase), sub_Fin, mul_Fin.
    now rewrite (div_Fin _ _ Hden).
Qed.

Lemma remainingBalance_balQ (L r : Qc) (y k : Z) :
  (0 < L)%Qc -> (0 <= r)%Qc -> (1 <= y)%Z -> (0 <= k)%Z ->
  remainingBalance (Fin L) (Fin r) y k
  = Fin (balQ L (r / Q2Qc (inject_Z 12)) (Z.to_nat (y * 12)) (Z.to_nat k)).
Proof.
  intros HL Hr Hy Hk. unfold remainingBalance.
  rewrite (pmtMonthly_pmtQ L r y HL Hr Hy). unfold balQ.
  assert (EL : (Fin L <=? 0) = false) by (apply leb_Fin_false; exact HL).
  assert (En : (y * 12 <=? 0)%Z = false) by (apply Z.leb_gt; lia).
  rewrite EL, En. simpl orb. cbv iota.
  rewrite monthly_rate_div. set (m := (r / Q2Qc (inject_Z 12))%Qc).
  rewrite zero_Fin, one_Fin.
  destruct (Qc_eq_bool m 0) eqn:Em.
  - apply Qc_eq_bool_true_iff in Em.
    replace (Fin m === Fin 0%Qc) with true by (symmetry; now apply eqb_Fin).
    unfold ofZ. rewrite div_Fin by (apply ofZ_neq_0; lia).
    rewrite sub_Fin, mul_Fin. now rewrite !Z2Nat.id by lia.
  - apply Qc_eq_bool_false_iff in Em.
    replace (Fin m === Fin 0%Qc) with false
      by (symmetry; now apply eqb_Fin_false).
    rewrite add_Fin, pow_Fin_nonneg by exact Hk.
    rewrite mul_Fin, sub_Fin, (div_Fin _ _ Em), mul_Fin, sub_Fin.
    reflexivity.
Qed.

Lemma Qcpower_mono (a : Qc) (k n : nat) :
  (1 <= a)%Qc -> (k <= n)%nat -> (a ^ k <= a ^ n)%Qc.
Proof.
  intros Ha Hkn. induction Hkn as [|n Hkn IH]; [apply Qcle_refl|].
  change (a ^ S n)%Qc with (a * a ^ n)%Qc.
  pose proof (Qcpower_ge_1 a n Ha) as Hn.
  set (x := (a ^ k)%Qc) in *. set (z := (a ^ n)%Qc) in *.
  qc_to_q. nra.
Qed.

(** The balance in one fraction: [L (A^n - A^k) / (A^n - 1)], [A = 1 + m]. *)
Lemma balQ_fraction (L m : Qc) (n k : nat) :
  (0 < m)%Qc -> (0 < n)%nat ->
  (balQ L m n k * ((1 + m) ^ n - 1) = L * ((1 + m) ^ n - (1 + m) ^ k))%Qc.
Proof.
  intros Hm Hn. unfold balQ, pmtQ.
  assert (Em : Qc_eq_bool m 0 = false).
  { apply Qc_eq_bool_false_iff. intros E. rewrite E in Hm.
    now apply (Qclt_not_eq _ _ Hm). }
  rewrite Em.
  pose proof (annuity_denominator m n Hm Hn) as Hden.
  assert (HA : (1 < (1 + m) ^ n)%Qc).
  { apply Qcpower_gt_1; [|exact Hn]. qc_to_q. lra. }
  set (A := ((1 + m) ^ n)%Qc) in *. set (B := ((1 + m) ^ k)%Qc).
  assert (HA0 : A <> 0%Qc) by (intros E0; rewrite E0 in HA; qc_to_q; lra).
  assert (Hm0 : m <> 0%Qc) by (now apply Qc_eq_bool_false_iff).
  field. repeat split; try assumption.
  intros E. assert (E' : (A - 1)%Qc = 0%Qc) by exact E.
  apply (Qclt_not_eq _ _ HA). symmetry.
  rewrite <- (Qcplus_0_l 1), <- E'. ring.
Qed.

Lemma Qc_frac_bounds (a b : Qc) :
  (0 <= a)%Qc -> (a <= b)%Qc -> (0 < b)%Qc ->
  (0 <= a / b)%Qc /\ (a / b <= 1)%Qc.
Proof.
  intros Ha Hab Hb.
  assert (Hi : (b * / b = 1)%Qc).
  { apply Qcmult_inv_r. intros E. rewrite E in Hb.
    now apply (Qclt_not_eq _ _ Hb). }
  assert (Hpos : (0 < / b)%Qc).
  { unfold Qclt. rewrite this_inv. apply Qinv_lt_0_compat. exact Hb. }
  unfold Qcdiv. set (i := (/ b)%Qc) in *. split; qc_to_q; nra.
Qed.

Lemma ofnat_le (k n : nat) :
  (k <= n)%nat ->
  (Q2Qc (inject_Z (Z.of_nat k)) <= Q2Qc (inject_Z (Z.of_nat n)))%Qc.
Proof.
  intros H. unfold Qcle. rewrite !this_Q2Qc. unfold Qle. simpl. lia.
Qed.

Lemma ofnat_pos (n : nat) :
  (0 < n)%nat -> (0 < Q2Qc (inject_Z (Z.of_nat n)))%Qc.
Proof.
  intros H. unfold Qclt. rewrite !this_Q2Qc. unfold Qlt. simpl. lia.
Qed.

Lemma term_months (y : Z) : (1 <= y)%Z -> (0 < Z.to_nat (y * 12))%nat.
Proof. lia. Qed.



Lemma balQ_step (L m : Qc) (n k : nat) :
  (0 <= m)%Qc -> (0 < n)%nat ->
  balQ L m n (S k) = (balQ L m n k * (1 + m) - pmtQ L m n)%Qc.
Proof.
  intros Hm Hn. unfold balQ, pmtQ.
  destruct (Qc_eq_bool m 0) eqn:Em.
  - apply Qc_eq_bool_true_iff in Em. subst m.
    assert (Hn0 : Q2Qc (inject_Z (Z.of_nat n)) <> 0%Qc)
      by (apply ofZ_neq_0; lia).
    assert (ES : Q2Qc (inject_Z (Z.of_nat (S k)))
                 = (Q2Qc (inject_Z (Z.of_nat k)) + 1)%Qc).
    { apply Qc_is_canon. rewrite this_plus, !this_Q2Qc.
      rewrite Nat2Z.inj_succ. unfold Z.succ. rewrite inject_Z_plus.
      reflexivity. }
    rewrite ES. field. exact Hn0.
  - apply Qc_eq_bool_false_iff in Em.
    change ((1 + m) ^ S k)%Qc with ((1 + m) * (1 + m) ^ k)%Qc.
    set (B := ((1 + m) ^ k)%Qc). set (p := (L * m / (1 - / (1 + m) ^ n))%Qc).
    field. exact Em.
Qed.

(** X2.  One more payment: the closed-form balance after [k + 1] payments
    is the balance after [k] payments, plus one month of interest on it,
    minus the level payment of [pmtMonthly]. *)
Theorem remainingBalance_step (L r : Qc) (y k : Z) :
  (0 < L)%Qc -> (0 <= r)%Qc -> (1 <= y)%Z -> (0 <= k)%Z ->
  remainingBalance (Fin L) (Fin r) y (k + 1)
  = remainingBalance (Fin L) (Fin r) y k * (1 + Fin r / ofZ 12)
    - pmtMonthly (Fin L) (Fin r) y.
Proof.
  intros HL Hr Hy Hk.
  rewrite (remainingBalance_balQ L r y (k + 1) HL Hr Hy) by lia.
  rewrite (remainingBalance_balQ L r y k HL Hr Hy Hk).
  rewrite (pmtMonthly_pmtQ L r y HL Hr Hy), monthly_rate_div.
  rewrite one_Fin, add_Fin, mul_Fin, sub_Fin. f_equal.
  replace (Z.to_nat (k + 1)) with (S (Z.to_nat k)) by lia.
  apply balQ_step; [now apply monthly_rate_nonneg | now apply term_months].
Qed.

Lemma remainingBalance_step_witness :
  remainingBalance (Fin (Q2Qc 1200)) (Fin (Q2Qc 0.12)) 1 (3 + 1)
  = remainingBalance (Fin (Q2Qc 1200)) (Fin (Q2Qc 0.12)) 1 3
    * (1 + Fin (Q2Qc 0.12) / ofZ 12)
    - pmtMonthly (Fin (Q2Qc 1200)) (Fin (Q2Qc 0.12)) 1.
Proof.
  apply remainingBalance_step.
  - reflexivity.
  - discriminate.
  - lia.
  - lia.
Defined.

Lemma balQ_bounds (L m : Qc) (n k : nat) :
  (0 < L)%Qc -> (0 <= m)%Qc -> (0 < n)%nat -> (k <= n)%nat ->
  (0 <= balQ L m n k)%Qc /\ (balQ L m n k <= L)%Qc.
Proof.
  intros HL Hm Hn Hk.
  destruct (Qcle_lt_or_eq _ _ Hm) as [Hpos|E].
  - pose proof (balQ_fraction L m n k Hpos Hn) as HF.
    assert (H1 : (1 <= 1 + m)%Qc) by (qc_to_q; lra).
    pose proof (Qcpower_mono (1 + m) k n H1 Hk) as Hkn.
    pose proof (Qcpower_ge_1 (1 + m) k H1) as Hk1.
    assert (HA : (1 < (1 + m) ^ n)%Qc).
    { apply Qcpower_gt_1; [|exact Hn]. qc_to_q. lra. }
    set (A := ((1 + m) ^ n)%Qc) in *. set (B := ((1 + m) ^ k)%Qc) in *.
    set (b := balQ L m n k) in *. split; qc_to_q; nra.
  - subst m. unfold balQ.
    replace (Qc_eq_bool 0 0) with true
      by (symmetry; now apply Qc_eq_bool_true_iff).
    destruct (Qc_frac_bounds (Q2Qc (inject_Z (Z.of_nat k)))
                (Q2Qc (inject_Z (Z.of_nat n)))) as [F1 F2].
    + apply (ofnat_le 0 k). lia.
    + now apply ofnat_le.
    + now apply ofnat_pos.
    + set (f := (Q2Qc (inject_Z (Z.of_nat k)) / Q2Qc (inject_Z (Z.of_nat n)))%Qc)
        in *.
      split; qc_to_q; nra.
Qed.

(** X3.  In exact arithmetic the closed-form balance stays between 0 and
    the loan amount during the term: for [L > 0], [r >= 0], [y >= 1] and
    [0 <= k <= 12 y] payments, [0 <= remainingBalance L r y k <= L].  (In
    double precision the value can miss the interval by a rounding error,
    which is why [computeModel] wraps its call in [Math.max(0, ...)].) *)
Theorem remainingBalance_within_loan (L r : Qc) (y k : Z) :
  (0 < L)%Qc -> (0 <= r)%Qc -> (1 <= y)%Z -> (0 <= k <= 12 * y)%Z ->
  (0 <=? remainingBalance (Fin L) (Fin r) y k) = true
  /\ (remainingBalance (Fin L) (Fin r) y k <=? Fin L) = true.
Proof.
  intros HL Hr Hy [Hk0 Hk].
  rewrite (remainingBalance_balQ L r y k HL Hr Hy Hk0).
  rewrite zero_Fin, !leb_Fin.
  apply balQ_bounds; try assumption.
  - now apply monthly_rate_nonneg.
  - now apply term_months.
  - lia.
Qed.

Lemma remainingBalance_within_loan_witness :
  (0 <=? remainingBalance (Fin (Q2Qc 1200)) (Fin (Q2Qc 0.12)) 1 7) = true
  /\ (remainingBalance (Fin (Q2Qc 1200)) (Fin (Q2Qc 0.12)) 1 7
      <=? Fin (Q2Qc 1200)) = true.
Proof.
  apply remainingBalance_within_loan.
  - reflexivity.
  - discriminate.
  - lia.
  - lia.
Defined.

Lemma pmtQ_above_interest (L m : Qc) (n : nat) :
  (0 < L)%Qc -> (0 <= m)%Qc -> (0 < n)%nat -> (L * m < pmtQ L m n)%Qc.
Proof.
  intros HL Hm Hn. unfold pmtQ.
  destruct (Qcle_lt_or_eq _ _ Hm) as [Hpos|E].
  - assert (Em : Qc_eq_bool m 0 = false).
    { apply Qc_eq_bool_false_iff. intros E. rewrite E in Hpos.
      now apply (Qclt_not_eq _ _ Hpos). }
    rewrite Em.
    assert (HA : (1 < (1 + m) ^ n)%Qc).
    { apply Qcpower_gt_1; [|exact Hn]. qc_to_q. lra. }
    set (A := ((1 + m) ^ n)%Qc) in *.
    assert (HA0 : A <> 0%Qc) by (intros E0; rewrite E0 in HA; qc_to_q; lra).
    assert (HA1 : (A - 1)%Qc <> 0%Qc).
    { intros E. apply (Qclt_not_eq _ _ HA). symmetry.
      rewrite <- (Qcplus_0_l 1), <- E. ring. }
    assert (E : (L * m / (1 - / A))%Qc = (L * m + L * m / (A - 1))%Qc).
    { field. repeat split; assumption. }
    rewrite E.
    assert (Hi : ((A - 1) * / (A - 1) = 1)%Qc) by now apply Qcmult_inv_r.
    assert (Hipos : (0 < / (A - 1))%Qc).
    { unfold Qclt. rewrite this_inv. apply Qinv_lt_0_compat.
      qc_to_q. lra. }
    set (i := (/ (A - 1))%Qc) in *.
    assert (Hlm : (0 < L * m)%Qc) by (qc_to_q; nra).
    set (lm := (L * m)%Qc) in *. unfold Qcdiv. fold i. qc_to_q. nra.
  - subst m.
    replace (Qc_eq_bool 0 0) with true
      by (symmetry; now apply Qc_eq_bool_true_iff).
    pose proof (ofnat_pos n Hn) as Hnn.
    assert (Hipos : (0 < / Q2Qc (inject_Z (Z.of_nat n)))%Qc).
    { unfold Qclt. rewrite this_inv. apply Qinv_lt_0_compat. exact Hnn. }
    set (i := (/ Q2Qc (inject_Z (Z.of_nat n)))%Qc) in *.
    unfold Qcdiv. fold i. rewrite Qcmult_0_r. qc_to_q. nra.
Qed.

(** X4.  In exact arithmetic the level payment amortizes: for [L > 0],
    [r >= 0] and [y >= 1] the monthly payment is strictly larger than one
    month of interest on the whole loan, [L * r / 12], so that it is
    positive and every payment reduces the balance.  (In double precision
    the difference can be lost to rounding.) *)
Theorem pmtMonthly_exceeds_interest (L r : Qc) (y : Z) :
  (0 < L)%Qc -> (0 <= r)%Qc -> (1 <= y)%Z ->
  (pmtMonthly (Fin L) (Fin r) y >? Fin L * (Fin r / ofZ 12)) = true
  /\ (pmtMonthly (Fin L) (Fin r) y >? 0) = true.
Proof.
  intros HL Hr Hy. rewrite (pmtMonthly_pmtQ L r y HL Hr Hy), monthly_rate_div.
  rewrite mul_Fin, zero_Fin, !gtb_Fin.
  pose proof (monthly_rate_nonneg r Hr) as Hm.
  pose proof (pmtQ_above_interest L _ _ HL Hm (term_months y Hy)) as H.
  split; [exact H|].
  set (m := (r / Q2Qc (inject_Z 12))%Qc) in *.
  set (p := pmtQ L m (Z.to_nat (y * 12))) in *.
  qc_to_q. nra.
Qed.

Lemma pmtMonthly_exceeds_interest_witness :
  (pmtMonthly (Fin (Q2Qc 1200)) (Fin (Q2Qc 0.12)) 1
   >? Fin (Q2Qc 1200) * (Fin (Q2Qc 0.12) / ofZ 12)) = true
  /\ (pmtMonthly (Fin (Q2Qc 1200)) (Fin (Q2Qc 0.12)) 1 >? 0) = true.
Proof.
  apply pmtMonthly_exceeds_interest.
  - reflexivity.
  - discriminate.
  - lia.
Defined.

(** ** More on NPV and IRR *)

Lemma npv_from_nonfinite (r : number) (t : Z) (total : number)
  (cashflows : list number) :
  (exists x, In x cashflows /\ isFinite x = false) ->
  npv_from r t total cashflows = NaN.
Proof.
  revert t total. induction cashflows as [|c l IH]; intros t total (x & Hin & Hx).
  - destruct Hin.
  - cbn [npv_from]. rewrite clampNum_NaN_finite.
    destruct (isFinite c) eqn:Ec; [|reflexivity]. simpl negb. cbv iota.
    apply IH. destruct Hin as [->|Hin]; [congruence|]. eauto.
Qed.

(** X5.  [npv] answers [NaN] as soon as the rate or any cash flow is not a
    finite number. *)
Theorem npv_nonfinite (rate : number) (cashflows : list number) :
  isFinite rate = false \/ (exists x, In x cashflows /\ isFinite x = false) ->
  npv rate cashflows = NaN.
Proof.
  intros [Hr|Hx]; unfold npv.
  - rewrite clampNum_NaN_finite, Hr. reflexivity.
  - rewrite clampNum_NaN_finite. destruct (isFinite rate); [|reflexivity].
    simpl negb. cbv iota. now apply npv_from_nonfinite.
Qed.

Lemma npv_nonfinite_witness :
  npv (ofQ 0.1) [ofZ (-100); PosInf; ofZ 5] = NaN.
Proof.
  apply npv_nonfinite. right. exists PosInf. split; [|reflexivity].
  right. left. reflexivity.
Defined.

Lemma finite_list_forallb (l : list number) :
  forallb isFinite l = true -> exists cf, l = map Fin cf.
Proof.
  induction l as [|x l IH]; simpl; intros H.
  - exists []. reflexivity.
  - apply andb_prop in H. destruct H as [Hx Hl].
    destruct (IH Hl) as [cf ->]. destruct (isFinite_Fin _ Hx) as [a ->].
    exists (a :: cf). reflexivity.
Qed.

Lemma npv_from_rate_0 (l : list Qc) (t : nat) (total : Qc) :
  npv_from (Fin 0%Qc) (Z.of_nat t) (Fin total) (map Fin l)
  = fold_left add (map Fin l) (Fin total).
Proof.
  revert t total. induction l as [|c l IH]; intros t total; [reflexivity|].
  change (npv_from (Fin 0%Qc) (Z.of_nat t) (Fin total) (map Fin (c :: l)))
    with (npv_from (Fin 0%Qc) (Z.of_nat t + 1)
            (Fin total + Fin c / pow (1 + Fin 0%Qc) (Z.of_nat t)) (map Fin l)).
  rewrite one_Fin, add_Fin, pow_Fin_nonneg by lia.
  replace (1 + 0)%Qc with 1%Qc by ring. rewrite Qcpower_1.
  rewrite div_Fin by discriminate.
  replace (c / 1)%Qc with c by (field; discriminate).
  replace (Z.of_nat t + 1)%Z with (Z.of_nat (S t)) by lia.
  rewrite add_Fin. cbn [map fold_left]. rewrite add_Fin. apply IH.
Qed.

(** X6.  At a rate of 0 nothing is discounted: the NPV of finite cash flows
    is their plain sum (and the NPV of no flow at all is 0). *)
Theorem npv_rate_0_is_sum (cashflows : list number) :
  forallb isFinite cashflows = true ->
  npv 0 cashflows = sum cashflows.
Proof.
  intros H. destruct (finite_list_forallb _ H) as [cf ->].
  unfold sum. apply (npv_from_rate_0 cf 0 0%Qc).
Qed.

Lemma npv_rate_0_is_sum_witness :
  npv 0 [ofZ (-100); ofZ 60; ofZ 70] = sum [ofZ (-100); ofZ 60; ofZ 70].
Proof. apply npv_rate_0_is_sum. reflexivity. Defined.

(** X7.  [irr] is undefined as soon as one cash flow is not a finite
    number, whatever the signs of the others. *)
Theorem irr_nonfinite_entry (cashflows : list number) :
  (exists x, In x cashflows /\ isFinite x = false) ->
  irr cashflows = None.
Proof.
  intros (x & Hin & Hx). unfold irr. rewrite irr_signs_spec.
  replace (forallb isFinite cashflows) with false; [reflexivity|].
  symmetry. apply not_true_is_false. intros H.
  rewrite forallb_forall in H. specialize (H x Hin). congruence.
Qed.

Lemma irr_nonfinite_entry_witness :
  irr [ofZ (-100); NaN; ofZ 120] = None.
Proof.
  apply irr_nonfinite_entry. exists NaN. split; [|reflexivity].
  right. left. reflexivity.
Defined.

Lemma existsb_Fin_neg (cf : list Qc) :
  existsb (fun x => x <? 0) (map Fin cf) = true ->
  exists c, In c cf /\ (c < 0)%Qc.
Proof.
  intros H. apply existsb_exists in H. destruct H as (x & Hin & Hx).
  apply in_map_iff in Hin. destruct Hin as (c & <- & Hc).
  exists c. split; [exact Hc|]. rewrite zero_Fin in Hx. now apply ltb_Fin.
Qed.

Lemma existsb_Fin_pos (cf : list Qc) :
  existsb (fun x => x >? 0) (map Fin cf) = true ->
  exists c, In c cf /\ (0 < c)%Qc.
Proof.
  intros H. apply existsb_exists in H. destruct H as (x & Hin & Hx).
  apply in_map_iff in Hin. destruct Hin as (c & <- & Hc).
  exists c. split; [exact Hc|]. rewrite zero_Fin in Hx. now apply gtb_Fin.
Qed.

Lemma hi_at_mono (j k : nat) : (j <= k)%nat -> (hi_at j <= hi_at k)%Qc.
Proof.
  intros H. unfold hi_at.
  assert (H2 : (1 <= Q2Qc 2)%Qc) by (qc_to_q; lra).
  pose proof (Qcpower_mono (Q2Qc 2) j k H2 H) as Hp.
  set (a := (Q2Qc 2 ^ j)%Qc) in *. set (b := (Q2Qc 2 ^ k)%Qc) in *.
  qc_to_q. lra.
Qed.



(** ** More on the model engine *)

Lemma series_length (args : ModelInputs) (f : nat -> number) :
  List.length (series args f) = (saleYear args + 2)%nat.
Proof. unfold series. now rewrite fill_length, filled_length. Qed.

Lemma get_series_0 (args : ModelInputs) (f : nat -> number) :
  get (series args f) 0 = 0.
Proof.
  unfold series. rewrite get_fill by (rewrite filled_length; lia).
  simpl andb. cbv iota. unfold get, filled.
  replace (saleYear args + 2)%nat with (S (saleYear args + 1)) by lia.
  reflexivity.
Qed.

(** X9.  Shape of the result: the two cash-flow vectors have [N + 1]
    entries (indices [0 .. N]); each of the nine yearly series has [N + 2]
    entries, with index 0 left at 0 and indices [1 .. N + 1] filled. *)
Theorem computeModel_shapes (args : ModelInputs) :
  let m := computeModel args in
  let N := saleYear args in
  List.length (m_unleveredCF m) = (N + 1)%nat
  /\ List.length (m_leveredCF m) = (N + 1)%nat
  /\ Forall (fun a => List.length a = (N + 2)%nat /\ get a 0 = 0)
       [m_rentRev m; m_otherRev m; m_revenue m; m_recoveries m;
        m_vacancyLoss m; m_egr m; m_opexAbs m; m_noi m; m_capexAbs m].
Proof.
  cbv zeta. split; [apply unleveredCF_length|].
  split; [apply leveredCF_length|].
  repeat constructor; try apply series_length; apply get_series_0.
Qed.

(** X10.  The columns of the result agree with each other.  At every year
    [1 <= y <= N + 1]: revenue is rent plus other income, effective gross
    income is revenue plus recoveries plus the (negative) vacancy loss, NOI is
    effective gross income minus operating expenses; and at every year
    [1 <= y < N] the unlevered cash flow is NOI minus capital expenditure and
    the levered cash flow is that minus the annual debt service. *)
Theorem computeModel_columns_agree (args : ModelInputs) (y : nat) :
  let m := computeModel args in
  (1 <= y <= saleYear args + 1)%nat ->
  get (m_revenue m) y = get (m_rentRev m) y + get (m_otherRev m) y
  /\ get (m_vacancyLoss m) y
     = - ((get (m_revenue m) y + get (m_recoveries m) y) * vacSafe args)
  /\ get (m_egr m) y
     = get (m_revenue m) y + get (m_recoveries m) y + get (m_vacancyLoss m) y
  /\ get (m_noi m) y = get (m_egr m) y - get (m_opexAbs m) y
  /\ ((y < saleYear args)%nat ->
      get (m_unleveredCF m) y = get (m_noi m) y - get (m_capexAbs m) y
      /\ get (m_leveredCF m) y
         = get (m_unleveredCF m) y - m_debtPmtAnnual m).
Proof.
  cbv zeta. intros Hy. cbn [m_revenue m_rentRev m_otherRev m_vacancyLoss
    m_recoveries m_egr m_noi m_opexAbs m_unleveredCF m_leveredCF m_capexAbs
    m_debtPmtAnnual computeModel].
  unfold revenue, rentRev, otherRev, vacancyLoss, recoveries, egr, noi,
    opexAbs, capexAbs.
  rewrite !get_series by exact Hy.
  repeat split; try reflexivity.
  - rewrite get_unleveredCF by lia. cbv zeta.
    destruct (Nat.eqb_spec y 0); [lia|].
    destruct (Nat.eqb_spec y (saleYear args)); [lia|]. reflexivity.
  - rewrite get_leveredCF by lia. unfold leveredAt.
    destruct (Nat.eqb_spec y 0); [lia|].
    rewrite get_unleveredCF by lia. cbv zeta.
    destruct (Nat.eqb_spec y 0); [lia|].
    destruct (Nat.eqb_spec y (saleYear args)); [lia|]. reflexivity.
Qed.

Lemma computeModel_columns_agree_witness :
  let m := computeModel spec_scenario in
  get (m_revenue m) 2 = get (m_rentRev m) 2 + get (m_otherRev m) 2
  /\ get (m_vacancyLoss m) 2
     = - ((get (m_revenue m) 2 + get (m_recoveries m) 2)
          * vacSafe spec_scenario)
  /\ get (m_egr m) 2
     = get (m_revenue m) 2 + get (m_recoveries m) 2 + get (m_vacancyLoss m) 2
  /\ get (m_noi m) 2 = get (m_egr m) 2 - get (m_opexAbs m) 2
  /\ ((2 < saleYear spec_scenario)%nat ->
      get (m_unleveredCF m) 2 = get (m_noi m) 2 - get (m_capexAbs m) 2
      /\ get (m_leveredCF m) 2
         = get (m_unleveredCF m) 2 - m_debtPmtAnnual m).
Proof.
  apply (computeModel_columns_agree spec_scenario 2). simpl. lia.
Defined.

Lemma max_0_Fin (a : Qc) : max 0 (Fin a) = Fin (Qcmax 0 a).
Proof. now rewrite zero_Fin, max_Fin. Qed.

Lemma Qcmin_le_l (a b : Qc) : (Qcmin a b <= a)%Qc.
Proof.
  destruct (Qcmin_spec a b) as [[H ->]|[H ->]];
    [now apply Qclt_le_weak | apply Qcle_refl].
Qed.

(** X11.  Equity is never negative.  For finite purchase price, due-diligence
    cost and closing-cost rate and a hold of at least one year, the equity
    invested is the acquisition outlay (price, due diligence and closing
    costs, each clamped at 0) minus the loan proceeds, and it is at least 0,
    because the loan never exceeds the clamped price. *)
Theorem equityOut_nonnegative (args : ModelInputs) :
  isFinite (purchasePrice args) = true ->
  isFinite (dueDiligenceCosts args) = true ->
  isFinite (closingCostPct args) = true ->
  (1 <= saleYear args)%nat ->
  m_equityOut (computeModel args)
  = (max 0 (purchasePrice args) + max 0 (dueDiligenceCosts args)
     + max 0 (purchasePrice args) * max 0 (closingCostPct args))
    - m_loanProceeds (computeModel args)
  /\ (m_equityOut (computeModel args) >=? 0) = true.
Proof.
  intros HPP HDD HC HN. cbn [m_equityOut m_loanProceeds computeModel].
  unfold equityOut. rewrite get_leveredCF, get_unleveredCF by lia.
  cbv zeta. simpl (0 =? 0)%nat. cbv iota.
  destruct (Nat.eqb_spec 0 (saleYear args)); [lia|].
  unfold acquisitionCF, loanProceeds.
  destruct (isFinite_Fin _ HPP) as [p ->].
  destruct (isFinite_Fin _ HDD) as [d ->].
  destruct (isFinite_Fin _ HC) as [c ->].
  assert (HL : exists f, clampNum (ltv args) 0 = Fin f).
  { apply isFinite_Fin. now apply clampNum_finite. }
  destruct HL as [f ->].
  rewrite one_Fin, min_Fin, !max_0_Fin.
  rewrite !mul_Fin, !add_Fin, neg_Fin, add_Fin, neg_Fin, sub_Fin.
  split.
  - f_equal. ring.
  - rewrite zero_Fin, geb_Fin.
    pose proof (Qcmax_lub_l 0 p) as Hp. pose proof (Qcmax_lub_l 0 d) as Hd.
    pose proof (Qcmax_lub_l 0 c) as Hc.
    pose proof (Qcmin_le_l 1 f) as Hf.
    assert (Hlt : (Qcmax 0 (Qcmin 1 f) <= 1)%Qc).
    { destruct (Qcmax_spec 0 (Qcmin 1 f)) as [[_ ->]|[_ ->]];
        [exact Hf | qc_to_q; lra]. }
    set (P := Qcmax 0 p) in *. set (D := Qcmax 0 d) in *.
    set (C := Qcmax 0 c) in *. set (T := Qcmax 0 (Qcmin 1 f)) in *.
    qc_to_q. nra.
Qed.

Lemma equityOut_nonnegative_witness :
  m_equityOut (computeModel sample_deal)
  = (max 0 (purchasePrice sample_deal) + max 0 (dueDiligenceCosts sample_deal)
     + max 0 (purchasePrice sample_deal) * max 0 (closingCostPct sample_deal))
    - m_loanProceeds (computeModel sample_deal)
  /\ (m_equityOut (computeModel sample_deal) >=? 0) = true.
Proof.
  apply equityOut_nonnegative; first [reflexivity | simpl; lia].
Defined.

Lemma headline_needs_dscr (c i : option number) :
  tone (buildRecommendation None c i) <> good
  /\ headline (buildRecommendation None c i) <> "Likely worth pursuing"%string.
Proof.
  unfold buildRecommendation, count_tone. cbn [dscr_note].
  destruct (coc_note c) as [tc ?], (irr_note i) as [ti ?].
  destruct tc, ti; simpl; split; discriminate.
Qed.

(** X12.  A deal without debt has no DSCR and is never rated "Likely worth
    pursuing": with a loan-to-value ratio of 0 (and a finite purchase price)
    the debt service is 0, DSCR is undefined, its note is the bad
    "DSCR missing", and the headline tone is not good. *)
Theorem no_debt_no_dscr (args : ModelInputs) :
  ltv args = 0 ->
  isFinite (purchasePrice args) = true ->
  let m := computeModel args in
  m_dscr m = None
  /\ nth_error (notes (m_recommendation m)) 0
     = Some {| note_tone := bad; note_title := "DSCR missing" |}
  /\ tone (m_recommendation m) <> good
  /\ headline (m_recommendation m) <> "Likely worth pursuing"%string.
Proof.
  intros Hltv HPP. cbv zeta. cbn [m_dscr m_recommendation computeModel].
  assert (E : dscr args = None).
  { unfold dscr. now rewrite (zero_ltv_debtPmtAnnual args Hltv HPP). }
  rewrite E. split; [reflexivity|]. split.
  - unfold buildRecommendation.
    destruct (2 <=? _)%nat; [reflexivity|]. destruct (_ && _); reflexivity.
  - apply headline_needs_dscr.
Qed.

Lemma no_debt_no_dscr_witness :
  let m := computeModel cash_deal in
  m_dscr m = None
  /\ nth_error (notes (m_recommendation m)) 0
     = Some {| note_tone := bad; note_title := "DSCR missing" |}
  /\ tone (m_recommendation m) <> good
  /\ headline (m_recommendation m) <> "Likely worth pursuing"%string.
Proof. apply (no_debt_no_dscr cash_deal); reflexivity. Defined.

(** X13.  The recommendation is consistent: it always carries three notes,
    for DSCR, cash-on-cash and IRR in that order; its tone is bad, good or
    warning exactly with the headlines "Likely not worth it (as modeled)",
    "Likely worth pursuing" and "Borderline — needs diligence"; and a good
    tone requires every metric to be defined. *)
Theorem recommendation_consistent (d c i : option number) :
  let r := buildRecommendation d c i in
  notes r = [dscr_note d; coc_note c; irr_note i]
  /\ ((tone r = bad
       /\ headline r = "Likely not worth it (as modeled)"%string)
      \/ (tone r = good /\ headline r = "Likely worth pursuing"%string
          /\ d <> None /\ c <> None /\ i <> None)
      \/ (tone r = warn
          /\ headline r = "Borderline — needs diligence"%string)).
Proof.
  cbv zeta. unfold buildRecommendation, count_tone.
  destruct (2 <=? _)%nat eqn:E2; [split; [reflexivity | left; split; reflexivity]|].
  destruct (_ && _) eqn:E3;
    [|split; [reflexivity | right; right; split; reflexivity]].
  split; [reflexivity|]. right. left.
  apply andb_prop in E3. destruct E3 as [_ E3]. apply Nat.eqb_eq in E3.
  assert (Hd : d = None -> note_tone (dscr_note d) = bad)
    by (intros ->; reflexivity).
  assert (Hc : c = None -> note_tone (coc_note c) = bad)
    by (intros ->; reflexivity).
  assert (Hi : i = None -> note_tone (irr_note i) = bad)
    by (intros ->; reflexivity).
  destruct (dscr_note d) as [td ?], (coc_note c) as [tc ?],
    (irr_note i) as [ti ?].
  simpl in Hd, Hc, Hi, E3.
  repeat split; intros H;
    [apply Hd in H | apply Hc in H | apply Hi in H]; subst;
    repeat match goal with t : Tone |- _ => destruct t end;
    simpl in E3; discriminate.
Qed.

Lemma Qcmax_0_nonneg (a : Qc) : (0 <= Qcmax 0 a)%Qc.
Proof. apply Qcmax_lub_l. Qed.

Lemma Qcmax_0_le (a b : Qc) : (0 <= b)%Qc -> (a <= b)%Qc -> (Qcmax 0 a <= b)%Qc.
Proof.
  intros Hb Hab. destruct (Qcmax_spec 0 a) as [[_ ->]|[_ ->]]; assumption.
Qed.

Section PayoffBounds.

Variable args : ModelInputs.
Hypothesis Hsan : sanitized args = true.

Lemma payoff_loop_bounds (L : Qc) (n : nat) :
  loanProceeds args = Fin L -> (0 <= L)%Qc ->
  exists b p,
    for_1_to n (payoff_step args) (Fin L, Fin L) = (Fin b, Fin p)
    /\ (0 <= b)%Qc /\ (b <= L)%Qc /\ (0 <= p)%Qc /\ (p <= L)%Qc.
Proof.
  intros EL HL. induction n as [|n (b & p & E & Hb0 & HbL & Hp0 & HpL)].
  - exists L, L. repeat split; try assumption; apply Qcle_refl.
  - rewrite for_1_to_S, E. unfold payoff_step.
    destruct (isFinite_Fin _ (fin_debtPmtAnnual args Hsan)) as [D ->].
    destruct (isFinite_Fin _ (fin_interestRate args Hsan)) as [rho ->].
    rewrite mul_Fin, sub_Fin, max_0_Fin, sub_Fin, max_0_Fin.
    set (pr := Qcmax 0 (D - b * rho)).
    assert (Hpr : (0 <= pr)%Qc) by apply Qcmax_0_nonneg.
    assert (Hb' : (Qcmax 0 (b - pr) <= b)%Qc).
    { apply Qcmax_0_le; [exact Hb0|]. qc_to_q. lra. }
    pose proof (Qcmax_0_nonneg (b - pr)) as Hb'0.
    destruct (S n =? saleYear args)%nat; eexists; eexists;
      (split; [reflexivity|]); repeat split; try assumption;
      eapply Qcle_trans; eauto.
Qed.

End PayoffBounds.



Lemma mul_0_l_fin (x : number) : fin x -> 0 * x = 0.
Proof.
  intros H. destruct (isFinite_Fin _ H) as [a ->].
  rewrite zero_Fin, mul_Fin. f_equal. apply Qcmult_0_l.
Qed.

Lemma mul_0_r_fin (x : number) : fin x -> x * 0 = 0.
Proof.
  intros H. destruct (isFinite_Fin _ H) as [a ->].
  rewrite zero_Fin, mul_Fin. f_equal. apply Qcmult_0_r.
Qed.

Lemma pow_one (k : Z) : (0 <= k)%Z -> pow (1 + 0) k = 1.
Proof.
  intros Hk. rewrite zero_Fin, one_Fin, add_Fin, pow_Fin_nonneg by exact Hk.
  f_equal. replace (1 + 0)%Qc with 1%Qc by ring. apply Qcpower_1.
Qed.

Lemma max_0_0 : max 0 0 = 0.
Proof. reflexivity. Qed.

Lemma add_0_l (x : number) : 0 + x = x.
Proof.
  destruct x; try reflexivity. rewrite zero_Fin, add_Fin. f_equal.
  apply Qcplus_0_l.
Qed.

Section FlatDeal.

Variable args : ModelInputs.
Hypothesis Hsan : sanitized args = true.
Hypothesis Hrent : rentGrowth args = 0.
Hypothesis Hother : otherIncomeGrowth args = 0.
Hypothesis Hvac : vacancyRate args = 0.
Hypothesis Hpct : opexPctOfRev args = 0.
Hypothesis Hitems : opexItemsYear1 args = 0.
Hypothesis Hpu : opexPerUnitYear args = 0.
Hypothesis Hmgmt : mgmtFeePct args = 0.
Hypothesis Hres : reservesPerUnitYear args = 0.
Hypothesis Hrecp : recoveryPctOfOpex args = 0.
Hypothesis Hrecf : recoveryFlatAnnual args = 0.
Hypothesis Hpsf : capexPsfYear1 args = 0.
Hypothesis Hcpu : capexPerUnitYear1 args = 0.

Variable y : nat.
Hypothesis Hy : (1 <= y)%nat.

Lemma flat_revenue : revenue_at args y = baseRent1 args + baseOther1 args.
Proof.
  unfold revenue_at, rentRev_at, otherRev_at, otherG, rentG.
  rewrite Hrent, Hother. repeat change (clampNum 0 0) with 0.
  assert (Hk : (0 <= yexp y)%Z) by (unfold yexp; lia).
  rewrite !(pow_one _ Hk). now rewrite !mul_1_r.
Qed.

Lemma flat_growth_finite : fin (pow (1 + expG args) (yexp y)).
Proof.
  apply fin_pow; [|unfold yexp; lia].
  apply fin_add; [apply fin_one | now apply fin_expG].
Qed.

Lemma flat_opex : opexAbs_at args y = 0.
Proof.
  pose proof (fin_revenue_at args Hsan y Hy) as Hrev.
  pose proof (fin_units args Hsan) as Hu.
  pose proof flat_growth_finite as Hg.
  unfold opexAbs_at, baseOpex_at. rewrite Hpct, Hitems, Hpu, Hmgmt, Hres.
  rewrite max_0_0, !(mul_0_l_fin _ Hu), !(mul_0_l_fin _ Hrev),
    !(mul_0_l_fin _ Hg).
  destruct (opexMode args); reflexivity.
Qed.

Lemma flat_recoveries : recoveries_at args y = 0.
Proof.
  unfold recoveries_at. rewrite Hrecp, Hrecf, flat_opex, max_0_0.
  destruct (recoveryMode args); try reflexivity.
  apply mul_0_l_fin. apply fin_pow; [|unfold yexp; lia].
  apply fin_add; [apply fin_one | now apply fin_rentG].
Qed.

Lemma flat_noi : noi_at args y = baseRent1 args + baseOther1 args.
Proof.
  unfold noi_at, egr_at, vacancyLoss_at, vacSafe.
  rewrite flat_recoveries, flat_opex, Hvac, flat_revenue.
  change (max 0 (clampNum 0 0)) with 0.
  assert (Hb : fin (baseRent1 args + baseOther1 args)).
  { apply fin_add; [now apply fin_baseRent1 | now apply fin_baseOther1]. }
  rewrite !add_0_r, (mul_0_r_fin _ Hb).
  change (- 0) with 0. now rewrite add_0_r, sub_0_r.
Qed.

Lemma flat_capex : capexAbs_at args y = 0.
Proof.
  unfold capexAbs_at. rewrite Hpsf, Hcpu, max_0_0.
  assert (Hg : fin (pow (1 + max 0 (capexGrowth args)) (yexp y))).
  { apply fin_pow; [|unfold yexp; lia].
    apply fin_add; [apply fin_one|].
    apply fin_max; [apply fin_zero | now apply fin_capexGrowth]. }
  destruct (capexMode args).
  - rewrite (mul_0_l_fin (max 0 (squareFootage args))), (mul_0_l_fin _ Hg);
      [reflexivity|].
    apply fin_max; [apply fin_zero | now apply fin_squareFootage].
  - now rewrite (mul_0_l_fin _ (fin_units args Hsan)), (mul_0_l_fin _ Hg).
Qed.

End FlatDeal.



(** ** More on the sensitivity grid and the tornado *)

Lemma cell_spec (a : ModelInputs) (metric : SensMetric) (i j : nat) :
  cell (sensitivity a metric) i j
  = match nth_error (capVals (sensitivity a metric)) i,
          nth_error (ppVals (sensitivity a metric)) j with
    | Some cap, Some pp =>
        Some (metricValue
                (simulate a [SetPurchasePrice pp; SetExitCapRate cap]) metric)
    | _, _ => None
    end.
Proof.
  unfold cell. cbn [grid capVals ppVals sensitivity].
  rewrite nth_error_map.
  destruct (nth_error _ i) as [cap|]; [|reflexivity]. cbn [option_map].
  rewrite nth_error_map.
  destruct (nth_error _ j) as [pp|]; reflexivity.
Qed.

Lemma salePrice_ignores_price (a : ModelInputs) (pp pp' cap : number) :
  salePrice (fold_left withField [SetPurchasePrice pp; SetExitCapRate cap] a)
  = salePrice (fold_left withField [SetPurchasePrice pp'; SetExitCapRate cap] a).
Proof. reflexivity. Qed.

Lemma dscr_ignores_exit_cap (a : ModelInputs) (pp cap cap' : number) :
  dscr (fold_left withField [SetPurchasePrice pp; SetExitCapRate cap] a)
  = dscr (fold_left withField [SetPurchasePrice pp; SetExitCapRate cap'] a).
Proof. reflexivity. Qed.

(** X16.  What the two swept inputs cannot change.  The exit price does not
    depend on the purchase price: in the Exit Price grid the five cells of a
    row are equal.  DSCR does not depend on the exit cap rate: in the DSCR
    grid the five cells of a column are equal. *)
Theorem sensitivity_constant_lines (baseArgs : ModelInputs) :
  (forall i j j', (j < 5)%nat -> (j' < 5)%nat ->
     cell (sensitivity baseArgs ExitPrice) i j
     = cell (sensitivity baseArgs ExitPrice) i j')
  /\ (forall i i' j, (i < 5)%nat -> (i' < 5)%nat ->
        cell (sensitivity baseArgs DSCRY1) i j
        = cell (sensitivity baseArgs DSCRY1) i' j).
Proof.
  split.
  - intros i j j' Hj Hj'. rewrite !cell_spec.
    destruct (nth_error (capVals _) i) as [cap|]; [|reflexivity].
    assert (H : forall k, (k < 5)%nat ->
              exists pp, nth_error (ppVals (sensitivity baseArgs ExitPrice)) k
                         = Some pp).
    { intros k Hk. do 5 (destruct k as [|k]; [eexists; reflexivity|]). lia. }
    destruct (H j Hj) as [pp ->], (H j' Hj') as [pp' ->].
    unfold simulate. cbn [metricValue m_salePrice computeModel].
    apply (f_equal (fun x => Some (Some x))). apply salePrice_ignores_price.
  - intros i i' j Hi Hi'. rewrite !cell_spec.
    assert (H : forall k, (k < 5)%nat ->
              exists cap, nth_error (capVals (sensitivity baseArgs DSCRY1)) k
                          = Some cap).
    { intros k Hk. do 5 (destruct k as [|k]; [eexists; reflexivity|]). lia. }
    destruct (H i Hi) as [cap ->], (H i' Hi') as [cap' ->].
    destruct (nth_error (ppVals _) j) as [pp|]; [|reflexivity].
    unfold simulate. cbn [metricValue m_dscr computeModel].
    apply (f_equal (@Some (option number))). apply dscr_ignores_exit_cap.
Qed.

Lemma sensitivity_constant_lines_witness :
  cell (sensitivity sample_deal ExitPrice) 1 0
  = cell (sensitivity sample_deal ExitPrice) 1 4.
Proof.
  apply (proj1 (sensitivity_constant_lines sample_deal)); lia.
Defined.

(** X17.  Shape and floor of the grid: for a finite base exit cap rate the
    grid has five rows of five cells, no cell exists outside them, and every
    exit cap rate the grid evaluates is at least 0.0001. *)
Theorem sensitivity_shape (baseArgs : ModelInputs) (metric : SensMetric) :
  isFinite (exitCapRate baseArgs) = true ->
  let s := sensitivity baseArgs metric in
  List.length (grid s) = 5%nat
  /\ Forall (fun row => List.length row = 5%nat) (grid s)
  /\ (forall i j, (5 <= i)%nat \/ (5 <= j)%nat -> cell s i j = None)
  /\ Forall (fun cap => (cap >=? ofQ 0.0001) = true) (capVals s).
Proof.
  intros Hcap. cbv zeta. split; [reflexivity|]. split.
  - cbn [grid sensitivity]. repeat constructor.
  - split.
    + intros i j H. rewrite cell_spec.
      destruct H as [H|H].
      * replace (nth_error (capVals (sensitivity baseArgs metric)) i)
          with (@None number); [reflexivity|].
        symmetry. apply nth_error_None. simpl. lia.
      * replace (nth_error (ppVals (sensitivity baseArgs metric)) j)
          with (@None number);
          [now destruct (nth_error (capVals _) i)|].
        symmetry. apply nth_error_None. simpl. lia.
    + cbn [capVals sensitivity]. destruct (isFinite_Fin _ Hcap) as [e ->].
      unfold ofQ, ofZ.
      repeat constructor; rewrite add_Fin, max_Fin, geb_Fin;
        apply Qcmax_lub_l.
Qed.

Lemma sensitivity_shape_witness :
  let s := sensitivity sample_deal LeveredNPV in
  List.length (grid s) = 5%nat
  /\ Forall (fun row => List.length row = 5%nat) (grid s)
  /\ (forall i j, (5 <= i)%nat \/ (5 <= j)%nat -> cell s i j = None)
  /\ Forall (fun cap => (cap >=? ofQ 0.0001) = true) (capVals s).
Proof. apply sensitivity_shape. reflexivity. Defined.

Lemma orZero_finite (x : number) : fin x -> orZero x = x.
Proof.
  intros H. destruct (isFinite_Fin _ H) as [a ->]. unfold orZero.
  rewrite zero_Fin. cbn [ncompare].
  destruct (Qccompare_spec a 0) as [->| |]; reflexivity.
Qed.

(** [Math.max(init, ...xs)] on finite numbers: at least [init] and at least
    every [x]. *)
Lemma fold_max_bounds (xs : list number) (init : Qc) :
  Forall fin xs ->
  exists M, fold_left max xs (Fin init) = Fin M
            /\ (init <= M)%Qc
            /\ forall x, In x xs -> (x <=? Fin M) = true.
Proof.
  intros H. revert init. induction H as [|x xs Hx _ IH]; intros init.
  - exists init. repeat split; [apply Qcle_refl | intros x []].
  - destruct (isFinite_Fin _ Hx) as [a ->]. cbn [fold_left].
    rewrite max_Fin. destruct (IH (Qcmax init a)) as (M & E & HM & Hall).
    exists M. split; [exact E|]. split.
    + eapply Qcle_trans; [apply Qcmax_lub_l | exact HM].
    + intros z [<-|Hz]; [|now apply Hall].
      apply leb_Fin. eapply Qcle_trans; [apply Qcmax_lub_r | exact HM].
Qed.

Lemma swing_of_bounds (l h : option number) :
  fin (swing_of l h) ->
  (0 <=? swing_of l h) = true
  /\ (forall x z, l = Some x -> h = Some z ->
        (abs x <=? swing_of l h) = true /\ (abs z <=? swing_of l h) = true).
Proof.
  unfold swing_of. destruct l as [x|], h as [z|]; intros H;
    try (split; [reflexivity | intros; discriminate]).
  destruct x as [a| | |], z as [b| | |]; try discriminate H.
  rewrite !abs_Fin, max_Fin, zero_Fin, leb_Fin. split.
  - eapply Qcle_trans; [apply Qcabs_nonneg | apply Qcmax_lub_l].
  - intros x' z' [= <-] [= <-]. rewrite !abs_Fin, !leb_Fin.
    split; [apply Qcmax_lub_l | apply Qcmax_lub_r].
Qed.

(** What the rows of the chart and its scale satisfy, for a sanitized
    record. *)
Lemma tornado_rows_facts (baseArgs : ModelInputs) (tornadoMetric : SensMetric) :
  sanitized baseArgs = true ->
  let t := tornado baseArgs tornadoMetric in
  exists M, maxSwing t = Fin M /\ (Q2Qc 0.000001 <= M)%Qc
    /\ forall row, In row (rows t) ->
         fin (swing row)
         /\ swing row = swing_of (dLow row) (dHigh row)
         /\ (swing row <=? Fin M) = true
         /\ (forall x, dLow row = Some x -> fin x)
         /\ (forall x, dHigh row = Some x -> fin x).
Proof.
  intros Hsan. cbv zeta. unfold tornado. cbn [maxSwing rows].
  set (base := metricValue (computeModel baseArgs) tornadoMetric).
  set (unsorted := map (tornadoRow baseArgs tornadoMetric base)
                       (scenarios baseArgs)).
  assert (Hb : forall b, base = Some b -> fin b).
  { intros b. unfold base. now apply metricValue_finite. }
  assert (Hrows : forall row, In row (sort_rows unsorted) ->
             fin (swing row)
             /\ swing row = swing_of (dLow row) (dHigh row)
             /\ (forall x, dLow row = Some x -> fin x)
             /\ (forall x, dHigh row = Some x -> fin x)).
  { intros row Hrow.
    apply (Permutation_in _ (Permutation_sym (sort_rows_perm unsorted)))
      in Hrow.
    unfold unsorted in Hrow. apply in_map_iff in Hrow.
    destruct Hrow as (s & <- & Hs).
    destruct (scenarios_finite baseArgs Hsan s Hs) as [Hlow Hhigh].
    split; [now apply tornadoRow_swing_finite|].
    split; [reflexivity|].
    cbn [tornadoRow dLow dHigh].
    split; intros x; apply (delta_finite baseArgs tornadoMetric _ None);
      try exact Hb; intros w; now apply simulate_metric_finite. }
  assert (Hmap : map (fun r => orZero (swing r)) (sort_rows unsorted)
                 = map swing (sort_rows unsorted)).
  { apply map_ext_in. intros r Hr. apply orZero_finite. now apply Hrows. }
  rewrite Hmap.
  destruct (fold_max_bounds (map swing (sort_rows unsorted))
              (Q2Qc 0.000001)) as (M & E & HM & Hall).
  { apply Forall_forall. intros x Hx. apply in_map_iff in Hx.
    destruct Hx as (r & <- & Hr). now apply Hrows. }
  exists M. split; [exact E|]. split; [exact HM|].
  intros row Hin. destruct (Hrows row Hin) as (H1 & H2 & H3 & H4).
  repeat split; try assumption. apply Hall. now apply in_map.
Qed.



(** ** The record built from the form *)

Lemma fin_floor (x : number) : fin x -> fin (floor x).
Proof. intros H. destruct (isFinite_Fin _ H) as [a ->]. reflexivity. Qed.

Lemma fin_fold_add (l : list number) (init : number) :
  fin init -> Forall fin l -> fin (fold_left add l init).
Proof.
  intros Hi Hl. revert init Hi. induction Hl as [|x l Hx _ IH]; intros init Hi.
  - exact Hi.
  - cbn [fold_left]. apply IH. now apply fin_add.
Qed.

Lemma fin_sum (l : list number) : Forall fin l -> fin (sum l).
Proof. apply fin_fold_add. apply fin_zero. Qed.

Lemma ge_0_Fin (x : number) :
  (x >=? 0) = true -> fin x -> exists q, x = Fin q /\ (0 <= q)%Qc.
Proof.
  intros H Hx. destruct (isFinite_Fin _ Hx) as [q ->]. exists q.
  split; [reflexivity|]. rewrite zero_Fin in H. now apply geb_Fin.
Qed.

Lemma fold_add_nonneg (l : list number) (init : number) :
  fin init -> (init >=? 0) = true ->
  Forall (fun x => fin x /\ (x >=? 0) = true) l ->
  (fold_left add l init >=? 0) = true.
Proof.
  intros Hi H0 Hl. revert init Hi H0.
  induction Hl as [|x l [Hx Hx0] _ IH]; intros init Hi H0.
  - exact H0.
  - cbn [fold_left]. apply IH; [now apply fin_add|].
    destruct (ge_0_Fin _ H0 Hi) as (a & -> & Ha).
    destruct (ge_0_Fin _ Hx0 Hx) as (b & -> & Hb).
    rewrite add_Fin, zero_Fin, geb_Fin. qc_to_q. lra.
Qed.

Lemma max_0_ge_0 (x : number) : fin x -> (max 0 x >=? 0) = true.
Proof.
  intros H. destruct (max_0_nonneg x H) as (q & -> & Hq).
  rewrite zero_Fin. now apply geb_Fin.
Qed.

Lemma Qfloor_Q2Qc (q : Q) : Qfloor (Q2Qc q) = Qfloor q.
Proof. apply Qfloor_comp. apply this_Q2Qc. Qed.

Lemma intOf_max_1_floor (x : number) :
  fin x -> (1 <= intOf (max 1 (floor x)))%Z.
Proof.
  intros H. destruct (isFinite_Fin _ H) as [a ->]. cbn [floor].
  rewrite one_Fin, max_Fin. cbn [intOf].
  pose proof (Qcmax_lub_l 1 (Q2Qc (inject_Z (Qfloor a)))) as Hm.
  apply Qfloor_resp_le in Hm.
  change (Qfloor (this 1%Qc)) with 1%Z in Hm. exact Hm.
Qed.

Section FormFacts.

Variable Number : string -> number.

Lemma fin_clampNumS (v : string) (d : number) :
  fin d -> fin (clampNumS Number v d).
Proof. apply fin_clampNum. Qed.

Lemma fin_percent (x : number) :
  fin x -> fin (max 0 (if x >? 1 then x / ofZ 100 else x)).
Proof.
  intros H. apply fin_max; [apply fin_zero|].
  destruct (x >? 1); [|exact H].
  destruct (isFinite_Fin _ H) as [a ->]. unfold ofZ.
  now rewrite div_Fin by (apply ofZ_neq_0; lia).
Qed.

Lemma rentRoll_rows (unitTypes : list UnitRow) :
  Forall (fun r => (fin (unitsN r) /\ (unitsN r >=? 0) = true)
                   /\ (fin (rentN r) /\ (rentN r >=? 0) = true))
    (rr_rows (rentRoll Number unitTypes)).
Proof.
  cbn [rr_rows rentRoll]. apply Forall_forall. intros r Hr.
  apply filter_In in Hr. destruct Hr as [Hr _].
  apply in_map_iff in Hr. destruct Hr as (u & <- & _). cbn [unitsN rentN].
  assert (H1 : fin (floor (clampNumS Number (u_units u) 0)))
    by (apply fin_floor, fin_clampNumS, fin_zero).
  assert (H2 : fin (clampNumS Number (u_rent u) 0))
    by (apply fin_clampNumS, fin_zero).
  repeat split; try (now apply max_0_ge_0);
    apply fin_max; try apply fin_zero; assumption.
Qed.

Lemma rentRoll_totals (unitTypes : list UnitRow) :
  let rr := rentRoll Number unitTypes in
  (fin (totalUnits rr) /\ (totalUnits rr >=? 0) = true)
  /\ (fin (gpr rr) /\ (gpr rr >=? 0) = true).
Proof.
  cbv zeta. pose proof (rentRoll_rows unitTypes) as H.
  cbn [totalUnits gpr rentRoll] in *.
  set (rows := filter _ _) in *. cbn [rr_rows] in H. fold rows in H.
  assert (HU : Forall (fun x => fin x /\ (x >=? 0) = true) (map unitsN rows)).
  { apply Forall_forall. intros x Hx. apply in_map_iff in Hx.
    destruct Hx as (r & <- & Hr). rewrite Forall_forall in H.
    apply (H r Hr). }
  assert (HG : Forall (fun x => fin x /\ (x >=? 0) = true)
                 (map (fun r => unitsN r * rentN r * ofZ 12) rows)).
  { apply Forall_forall. intros x Hx. apply in_map_iff in Hx.
    destruct Hx as (r & <- & Hr). rewrite Forall_forall in H.
    destruct (H r Hr) as [[Hu Hu0] [Hr' Hr0]].
    destruct (ge_0_Fin _ Hu0 Hu) as (a & -> & Ha).
    destruct (ge_0_Fin _ Hr0 Hr') as (b & -> & Hb).
    unfold ofZ. rewrite !mul_Fin. split; [reflexivity|].
    rewrite zero_Fin, geb_Fin.
    assert (H12 : (0 <= Q2Qc (inject_Z 12))%Qc) by discriminate.
    generalize dependent (Q2Qc (inject_Z 12)). intros c Hc.
    assert (Hab : (0 <= a * b)%Qc) by (qc_to_q; nra).
    generalize dependent (a * b)%Qc. intros ab Hab. qc_to_q. nra. }
  unfold sum. repeat split.
  - apply fin_fold_add; [apply fin_zero|].
    eapply Forall_impl; [|exact HU]. now intros x [? _].
  - apply fold_add_nonneg; [apply fin_zero | reflexivity | exact HU].
  - apply fin_fold_add; [apply fin_zero|].
    eapply Forall_impl; [|exact HG]. now intros x [? _].
  - apply fold_add_nonneg; [apply fin_zero | reflexivity | exact HG].
Qed.

Lemma fin_opexItemsYear1_of (items : list OpexRow) :
  fin (opexItemsYear1_of Number items).
Proof.
  unfold opexItemsYear1_of. apply fin_sum. apply Forall_forall.
  intros x Hx. apply in_map_iff in Hx. destruct Hx as (r & <- & _).
  apply fin_max; [apply fin_zero | apply fin_clampNumS, fin_zero].
Qed.

End FormFacts.


Lemma clampNum_fin (x d : number) : fin x -> clampNum x d = x.
Proof. intros H. unfold clampNum. now rewrite H. Qed.

Lemma max_floor_idem (c : Qc) (x : number) :
  fin x -> max (Fin c) (max (Fin c) x) = max (Fin c) x.
Proof.
  intros H. destruct (isFinite_Fin _ H) as [a ->]. rewrite !max_Fin.
  f_equal. destruct (Qcmax_spec c (Qcmax c a)) as [[_ E]|[L E]]; [exact E|].
  rewrite E. apply Qcle_antisym; [apply Qcmax_lub_l | exact L].
Qed.

Lemma max_0_of_nonneg (x : number) :
  fin x -> (x >=? 0) = true -> max 0 x = x.
Proof.
  intros H H0. destruct (ge_0_Fin _ H0 H) as (q & -> & Hq).
  rewrite zero_Fin, max_Fin. f_equal.
  destruct (Qcmax_spec 0 q) as [[_ E]|[L E]]; [exact E|].
  rewrite E. now apply Qcle_antisym.
Qed.

Lemma min_1_nonneg (x : number) :
  fin x -> (x >=? 0) = true -> fin (min 1 x) /\ (min 1 x >=? 0) = true.
Proof.
  intros H H0. destruct (ge_0_Fin _ H0 H) as (q & -> & Hq).
  rewrite one_Fin, min_Fin. split; [reflexivity|].
  rewrite zero_Fin, geb_Fin.
  destruct (Qcmin_spec 1 q) as [[_ ->]|[_ ->]]; [exact Hq | discriminate].
Qed.

Section GuardsIdle.

Variable Number : string -> number.
Variable st : PageState.

Let a := baseArgs Number st.

Lemma form_field_max (v : string) :
  fin (max 0 (clampNumS Number v 0))
  /\ max 0 (max 0 (clampNumS Number v 0)) = max 0 (clampNumS Number v 0).
Proof.
  assert (H : fin (clampNumS Number v 0)) by apply fin_clampNumS, fin_zero.
  split; [apply fin_max; [apply fin_zero | exact H]|].
  rewrite zero_Fin. now apply max_floor_idem.
Qed.

Lemma form_percent (v : string) :
  let x := max 0 (if clampNumS Number v 0 >? 1
                  then clampNumS Number v 0 / ofZ 100
                  else clampNumS Number v 0) in
  fin x /\ (x >=? 0) = true.
Proof.
  cbv zeta. set (c := clampNumS Number v 0).
  assert (Hc : fin c) by apply fin_clampNumS, fin_zero.
  assert (H : fin (if c >? 1 then c / ofZ 100 else c)).
  { destruct (c >? 1); [|exact Hc].
    destruct (isFinite_Fin _ Hc) as [q ->]. unfold ofZ.
    now rewrite div_Fin by (apply ofZ_neq_0; lia). }
  split; [apply fin_max; [apply fin_zero | exact H] | now apply max_0_ge_0].
Qed.

Lemma guards_loanProceeds :
  loanProceeds a = purchasePrice a * min 1 (ltv a).
Proof.
  unfold loanProceeds, a. cbn [baseArgs purchasePrice ltv].
  destruct (form_field_max (st_purchasePrice st)) as [_ ->].
  destruct (form_percent (st_ltv st)) as [HL HL0]. cbv zeta in HL, HL0.
  rewrite (clampNum_fin _ 0 HL).
  destruct (min_1_nonneg _ HL HL0) as [Hm Hm0].
  now rewrite (max_0_of_nonneg _ Hm Hm0).
Qed.

Lemma guards_debtPmtAnnual :
  debtPmtAnnual a
  = pmtMonthly (loanProceeds a) (interestRate a) (amortYears a) * ofZ 12.
Proof.
  unfold debtPmtAnnual. f_equal. f_equal.
  - unfold a. cbn [baseArgs interestRate].
    destruct (form_percent (st_interestRate st)) as [HL HL0].
    cbv zeta in HL, HL0. now apply max_0_of_nonneg.
  - unfold a. cbn [baseArgs amortYears].
    pose proof (intOf_max_1_floor _
      (fin_clampNumS Number (st_amortYears st) (ofZ 30) (fin_ofZ 30))).
    lia.
Qed.

End GuardsIdle.

(** X20.  On a record built from the form the engine's own guards are idle:
    the growth rates, the exit cap rate, the cost of sale and the discount
    rate are used as given (the fallbacks 0.065 and 0.12 of the engine never
    apply), the rent-roll totals are used as given, the loan is the purchase
    price times the loan-to-value ratio capped at 1, the annual debt service
    is twelve payments at the given rate and term, and the acquisition
    outflow is the price plus the due-diligence and closing costs. *)
Theorem engine_guards_idle_on_form (Number : string -> number)
    (st : PageState) :
  let a := baseArgs Number st in
  rentG a = rentGrowth a
  /\ otherG a = otherIncomeGrowth a
  /\ exitCapSafe a = exitCapRate a
  /\ saleCostSafe a = costOfSalePct a
  /\ discSafe a = discountRate a
  /\ baseRent1 a
     = (if isMultifamily (assetClass a) then rentRollGPR a
        else annualRevenue a)
  /\ units a
     = (if isMultifamily (assetClass a) then rentRollUnits a else 1)
  /\ loanProceeds a = purchasePrice a * min 1 (ltv a)
  /\ debtPmtAnnual a
     = pmtMonthly (loanProceeds a) (interestRate a) (amortYears a) * ofZ 12
  /\ acquisitionCF a
     = - (purchasePrice a + dueDiligenceCosts a
          + purchasePrice a * closingCostPct a).
Proof.
  cbv zeta.
  assert (Hc : forall v d, fin d -> fin (clampNumS Number v d))
    by (intros; now apply fin_clampNumS).
  destruct (rentRoll_totals Number (st_unitTypes st)) as [[HU HU0] [HG HG0]].
  repeat split.
  - unfold rentG. cbn [baseArgs rentGrowth]. apply clampNum_fin, Hc, fin_zero.
  - unfold otherG. cbn [baseArgs otherIncomeGrowth].
    apply clampNum_fin, Hc, fin_zero.
  - unfold exitCapSafe. cbn [baseArgs exitCapRate]. unfold ofQ.
    rewrite clampNum_fin
      by (apply fin_max; [apply fin_Fin | apply Hc, fin_Fin]).
    apply max_floor_idem, Hc, fin_Fin.
  - unfold saleCostSafe. cbn [baseArgs costOfSalePct].
    destruct (form_field_max Number (st_costOfSalePct st)) as [H E].
    now rewrite (clampNum_fin _ 0 H).
  - unfold discSafe. cbn [baseArgs discountRate].
    destruct (form_field_max Number (st_discountRate st)) as [H E].
    now rewrite (clampNum_fin _ _ H).
  - unfold baseRent1. cbn [baseArgs assetClass rentRollGPR annualRevenue].
    destruct (isMultifamily (st_assetClass st)).
    + now apply max_0_of_nonneg.
    + apply (form_field_max Number (st_annualRevenue st)).
  - unfold units. cbn [baseArgs assetClass rentRollUnits].
    destruct (isMultifamily (st_assetClass st)); [|reflexivity].
    now apply max_0_of_nonneg.
  - apply guards_loanProceeds.
  - apply guards_debtPmtAnnual.
  - unfold acquisitionCF.
    cbn [baseArgs purchasePrice dueDiligenceCosts closingCostPct].
    destruct (form_field_max Number (st_purchasePrice st)) as [_ ->].
    destruct (form_field_max Number (st_dueDiligenceCosts st)) as [_ ->].
    destruct (form_field_max Number (st_closingCostPct st)) as [_ ->].
    reflexivity.
Qed.

(** ** Percent or fraction *)

Lemma percent_reading (x : number) (w : Qc) :
  x = Fin w -> (1 < w)%Qc -> (w <= Q2Qc (inject_Z 100))%Qc ->
  max 0 (if x >? 1 then x / ofZ 100 else x)
  = max 0 (if Fin w / ofZ 100 >? 1 then Fin w / ofZ 100 / ofZ 100
           else Fin w / ofZ 100).
Proof.
  intros -> H1 H100.
  rewrite one_Fin, (proj2 (gtb_Fin w 1) H1). unfold ofZ.
  rewrite div_Fin by (apply ofZ_neq_0; lia).
  assert (E : (Fin (w / Q2Qc (inject_Z 100)) >? Fin 1) = false).
  { apply gtb_Fin_false. qc_to_q.
    assert (E : (/ (100 # 1) == 1 # 100)%Q) by reflexivity.
    rewrite E. lra. }
  now rewrite E.
Qed.



(** ** The rent roll and the rows of the form *)

Lemma Qfloor_lt_1 (a : Qc) : (a < 1)%Qc -> (Qfloor a <= 0)%Z.
Proof.
  intros H. assert (L : (Qfloor a < 1)%Z); [|lia].
  rewrite Zlt_Qlt. apply Qle_lt_trans with (this a); [apply Qfloor_le|].
  exact H.
Qed.

Lemma small_row_units (x : number) :
  fin x -> (x <? 1) = true -> (max 0 (floor x) >? 0) = false.
Proof.
  intros Hx H. destruct (isFinite_Fin _ Hx) as [a ->].
  rewrite one_Fin in H. apply ltb_Fin in H. apply Qfloor_lt_1 in H.
  cbn [floor]. rewrite zero_Fin, max_Fin. apply gtb_Fin_false.
  destruct (Qcmax_spec 0 (Q2Qc (inject_Z (Qfloor a)))) as [[L _]|[_ ->]];
    [|apply Qcle_refl].
  exfalso. unfold Qclt in L. rewrite !this_Q2Qc in L.
  assert (0 < Qfloor a)%Z by (rewrite Zlt_Qlt; exact L). lia.
Qed.

Lemma rentRoll_of_rows (Number : string -> number) (l l' : list UnitRow) :
  rr_rows (rentRoll Number l) = rr_rows (rentRoll Number l') ->
  rentRoll Number l = rentRoll Number l'.
Proof.
  unfold rentRoll. cbn [rr_rows]. intros ->. reflexivity.
Qed.

Lemma rentRoll_drop (Number : string -> number)
    (l1 l2 : list UnitRow) (r : UnitRow) :
  (clampNumS Number (u_units r) 0 <? 1) = true ->
  rentRoll Number (l1 ++ r :: l2) = rentRoll Number (l1 ++ l2).
Proof.
  intros H. apply rentRoll_of_rows. unfold rentRoll. cbn [rr_rows].
  rewrite !map_app, !filter_app. cbn [map filter unitsN rentN].
  rewrite (small_row_units _ (fin_clampNumS Number _ 0 fin_zero) H).
  reflexivity.
Qed.

(** X22.  A row of the rent roll whose unit count reads below 1 (zero, a
    fraction, a negative number, or a text that is no number) counts for
    nothing, wherever it stands: the rows kept, the total of units and the
    gross potential rent are those of the list without it. *)
Theorem rentRoll_ignores_rows_without_units (Number : string -> number)
    (l1 l2 : list UnitRow) (r : UnitRow) :
  (clampNumS Number (u_units r) 0 <? 1) = true ->
  rentRoll Number (l1 ++ r :: l2) = rentRoll Number (l1 ++ l2).
Proof. apply rentRoll_drop. Qed.

Lemma rentRoll_ignores_rows_without_units_witness :
  let Number := fun s : string =>
    if String.eqb s "12" then ofZ 12
    else if String.eqb s "2400" then ofZ 2400 else NaN in
  let r1 := {| u_id := "a"; u_name := "1x1"; u_units := "12";
               u_rent := "2400" |} in
  let r := {| u_id := "c"; u_name := "New"; u_units := "n/a";
              u_rent := "2400" |} in
  (clampNumS Number (u_units r) 0 <? 1) = true
  /\ rentRoll Number ([r1] ++ r :: []) = rentRoll Number ([r1] ++ []).
Proof.
  cbv zeta. split; [reflexivity|].
  apply rentRoll_ignores_rows_without_units. reflexivity.
Defined.

Lemma sum_app_0 (l : list number) : sum (l ++ [0]) = sum l.
Proof.
  unfold sum. rewrite fold_left_app. cbn [fold_left]. apply add_0_r.
Qed.

Section Rows.

Variable Number : string -> number.
Hypothesis Number_0 : Number "0"%string = 0.

Lemma baseArgs_addUnitRow (uid : string) (st : PageState) :
  baseArgs Number (addUnitRow uid st) = baseArgs Number st.
Proof.
  assert (E : rentRoll Number (st_unitTypes (addUnitRow uid st))
              = rentRoll Number (st_unitTypes st)).
  { unfold addUnitRow, setUnitTypes. cbn [st_unitTypes].
    rewrite <- (app_nil_r (st_unitTypes st)) at 2.
    apply rentRoll_drop. cbn [u_units]. unfold clampNumS.
    rewrite Number_0. reflexivity. }
  unfold baseArgs. rewrite E. reflexivity.
Qed.

Lemma baseArgs_addOpexRow (uid : string) (st : PageState) :
  baseArgs Number (addOpexRow uid st) = baseArgs Number st.
Proof.
  assert (E : opexItemsYear1_of Number (st_opexItems (addOpexRow uid st))
              = opexItemsYear1_of Number (st_opexItems st)).
  { unfold addOpexRow, setOpexItems. cbn [st_opexItems].
    unfold opexItemsYear1_of. rewrite map_app. cbn [map o_annual].
    unfold clampNumS at 2. rewrite Number_0.
    change (max 0 (clampNum 0 0)) with 0. apply sum_app_0. }
  unfold baseArgs. rewrite E. reflexivity.
Qed.

End Rows.

Lemma filter_all (A : Type) (p : A -> bool) (l : list A) :
  (forall x, In x l -> p x = true) -> filter p l = l.
Proof.
  induction l as [|x l IH]; intros H; [reflexivity|].
  cbn [filter]. rewrite (H x (or_introl eq_refl)).
  f_equal. apply IH. intros y Hy. apply H. now right.
Qed.

(** X23.  A new row changes nothing until it is filled in, and removing it
    undoes the addition: when ["0"] reads as zero, the record built after
    [addUnitRow] or [addOpexRow] is the one built before; and when the
    identifier drawn is not in use, [removeUnitRow] and [removeOpexRow] on
    it give back the rows there were. *)
Theorem new_rows_are_neutral (Number : string -> number)
    (uid : string) (st : PageState) :
  Number "0"%string = 0 ->
  ~ In uid (map u_id (st_unitTypes st)) ->
  ~ In uid (map o_id (st_opexItems st)) ->
  baseArgs Number (addUnitRow uid st) = baseArgs Number st
  /\ baseArgs Number (addOpexRow uid st) = baseArgs Number st
  /\ st_unitTypes (removeUnitRow uid (addUnitRow uid st)) = st_unitTypes st
  /\ st_opexItems (removeOpexRow uid (addOpexRow uid st)) = st_opexItems st.
Proof.
  intros H0 Hu Ho. split; [now apply baseArgs_addUnitRow|].
  split; [now apply baseArgs_addOpexRow|]. split.
  - unfold removeUnitRow, addUnitRow, setUnitTypes. cbn [st_unitTypes].
    rewrite filter_app. cbn [filter u_id]. rewrite String.eqb_refl.
    cbn [negb]. rewrite app_nil_r. apply filter_all. intros x Hx.
    apply negb_true_iff. apply String.eqb_neq. intros E. apply Hu.
    rewrite <- E. now apply in_map.
  - unfold removeOpexRow, addOpexRow, setOpexItems. cbn [st_opexItems].
    rewrite filter_app. cbn [filter o_id]. rewrite String.eqb_refl.
    cbn [negb]. rewrite app_nil_r. apply filter_all. intros x Hx.
    apply negb_true_iff. apply String.eqb_neq. intros E. apply Ho.
    rewrite <- E. now apply in_map.
Qed.

Lemma new_rows_are_neutral_witness :
  let Number := fun s : string => if String.eqb s "0"%string then 0 else NaN in
  let st := initialState "x" "y" "z" in
  baseArgs Number (addUnitRow "u" st) = baseArgs Number st
  /\ baseArgs Number (addOpexRow "u" st) = baseArgs Number st
  /\ st_unitTypes (removeUnitRow "u" (addUnitRow "u" st)) = st_unitTypes st
  /\ st_opexItems (removeOpexRow "u" (addOpexRow "u" st)) = st_opexItems st.
Proof.
  cbv zeta. apply new_rows_are_neutral.
  - reflexivity.
  - cbn. intros [H|[H|[]]]; discriminate H.
  - cbn. intros [H|[H|[H|[]]]]; discriminate H.
Defined.

(** ** The deal library *)

(** X24.  Saving puts the snapshot of the form first in the library, moves
    the deals already there one place down, and keeps 50 deals at most: the
    deal at place 49, if any, is dropped.  The form itself is untouched. *)
Theorem saveDeal_caps_library (Number : string -> number)
    (trim : string -> string) (uid : string) (now : number)
    (st : PageState) :
  let saved := st_savedDeals st in
  let st' := saveDeal trim uid now st in
  let saved' := st_savedDeals st' in
  List.length saved' = Nat.min 50 (S (List.length saved))
  /\ nth_error saved' 0 = Some (snapshotCurrentDeal trim uid now st)
  /\ (forall i : nat, (i < 49)%nat ->
        nth_error saved' (S i) = nth_error saved i)
  /\ (forall i : nat, (49 <= i)%nat -> nth_error saved' (S i) = None)
  /\ baseArgs Number st' = baseArgs Number st.
Proof.
  cbv zeta. unfold saveDeal, setSavedDeals. cbn [st_savedDeals].
  repeat split.
  - rewrite length_firstn. reflexivity.
  - intros i Hi. rewrite nth_error_firstn.
    destruct (Nat.ltb_spec (S i) 50); [reflexivity | lia].
  - intros i Hi. rewrite nth_error_firstn.
    destruct (Nat.ltb_spec (S i) 50); [lia | reflexivity].
Qed.

(** X25.  Loading a snapshot of the form restores every input: the record
    built from the restored form, hence the model, is the one of the form
    that was saved, whatever the form held in between.  The page goes to the
    first tab, the name of the deal becomes the snapshot's (trimmed, or
    ["Untitled Deal"] for a blank name), and the library and the two metric
    selectors are left as they were. *)
Theorem snapshot_then_load_restores (Number : string -> number)
    (trim : string -> string) (uid : string) (now : number)
    (st st' : PageState) :
  let d := snapshotCurrentDeal trim uid now st in
  let r := loadDeal d st' in
  baseArgs Number r = baseArgs Number st
  /\ model_of Number r = model_of Number st
  /\ st_expenseInflation r = st_expenseInflation st
  /\ st_activeTab r = Underwrite
  /\ st_dealName r = trimmedOr trim (st_dealName st) "Untitled Deal"
  /\ st_savedDeals r = st_savedDeals st'
  /\ st_sensMetric r = st_sensMetric st'
  /\ st_tornadoMetric r = st_tornadoMetric st'.
Proof.
  cbv zeta.
  assert (E : baseArgs Number
                (loadDeal (snapshotCurrentDeal trim uid now st) st')
              = baseArgs Number st) by reflexivity.
  split; [exact E|]. split; [unfold model_of; now rewrite E|].
  repeat split.
Qed.

Lemma filter_length_le (A : Type) (p : A -> bool) (l : list A) :
  (List.length (filter p l) <= List.length l)%nat.
Proof.
  induction l as [|x l IH]; [apply le_n|].
  cbn [filter]. destruct (p x); cbn [List.length]; lia.
Qed.

(** X26.  Deleting by identifier removes every deal with that identifier
    and no other: a deal is in the library afterwards exactly when it was
    there before under another identifier.  The library never grows, it is
    unchanged when no deal has the identifier, and the form is untouched. *)
Theorem deleteDeal_removes_only_id (Number : string -> number)
    (id : string) (st : PageState) :
  let saved := st_savedDeals st in
  let st' := deleteDeal id st in
  let saved' := st_savedDeals st' in
  (forall d, In d saved' <-> In d saved /\ d_id d <> id)
  /\ (List.length saved' <= List.length saved)%nat
  /\ (~ In id (map d_id saved) -> saved' = saved)
  /\ baseArgs Number st' = baseArgs Number st.
Proof.
  cbv zeta. unfold deleteDeal, setSavedDeals. cbn [st_savedDeals].
  repeat split.
  - now apply filter_In in H.
  - apply filter_In in H. destruct H as [_ H].
    apply negb_true_iff in H. now apply String.eqb_neq.
  - intros [H1 H2]. apply filter_In. split; [exact H1|].
    apply negb_true_iff. now apply String.eqb_neq.
  - apply filter_length_le.
  - intros H. apply filter_all. intros x Hx. apply negb_true_iff.
    apply String.eqb_neq. intros E. apply H. rewrite <- E. now apply in_map.
Qed.

(** X27.  Deleting the deal just saved gives back the library there was,
    when the identifier drawn for it was not in use and the library held
    fewer than 50 deals. *)
Theorem delete_undoes_save (trim : string -> string) (uid : string)
    (now : number) (st : PageState) :
  ~ In uid (map d_id (st_savedDeals st)) ->
  (List.length (st_savedDeals st) < 50)%nat ->
  st_savedDeals (deleteDeal uid (saveDeal trim uid now st))
  = st_savedDeals st.
Proof.
  intros Hfresh Hlen.
  unfold deleteDeal, saveDeal, setSavedDeals. cbn [st_savedDeals].
  rewrite firstn_all2 by (cbn [List.length]; lia).
  cbn [filter snapshotCurrentDeal d_id]. rewrite String.eqb_refl.
  cbn [negb]. apply filter_all. intros x Hx. apply negb_true_iff.
  apply String.eqb_neq. intros E. apply Hfresh. rewrite <- E.
  now apply in_map.
Qed.

Lemma delete_undoes_save_witness :
  let st := saveDeal (fun s => s) "a" (ofZ 1) (initialState "x" "y" "z") in
  List.length (st_savedDeals st) = 1%nat
  /\ st_savedDeals (deleteDeal "k" (saveDeal (fun s => s) "k" (ofZ 2) st))
     = st_savedDeals st.
Proof.
  cbv zeta. split; [reflexivity|]. apply delete_undoes_save.
  - cbn. intros [H|[]]. discriminate H.
  - cbn. lia.
Defined.

Lemma loadDeal_renamed (trim : string -> string) (Number : string -> number)
    (x : DealSnapshot) (name : string) (st : PageState) :
  baseArgs Number (loadDeal (renamed trim x name) st)
  = baseArgs Number (loadDeal x st).
Proof. reflexivity. Qed.

Lemma map_ext_cond (A B : Type) (f : A -> B) (c : A -> bool) (g : A -> A)
    (l : list A) :
  (forall x, f (g x) = f x) ->
  map f (map (fun x => if c x then g x else x) l) = map f l.
Proof.
  intros H. rewrite map_map. apply map_ext. intros x.
  destruct (c x); [apply H | reflexivity].
Qed.

(** X28.  Renaming changes names only: the library keeps its deals in
    their places with their identifiers and creation times, and each deal
    still loads to the same inputs.  Deals with another identifier are
    unchanged, and a blank name (empty once trimmed) changes nothing. *)
Theorem renameDeal_changes_names_only (Number : string -> number)
    (trim : string -> string) (id name : string) (st : PageState) :
  let saved := st_savedDeals st in
  let saved' := st_savedDeals (renameDeal trim id name st) in
  map d_id saved' = map d_id saved
  /\ map d_createdAt saved' = map d_createdAt saved
  /\ (forall st0,
        map (fun d => baseArgs Number (loadDeal d st0)) saved'
        = map (fun d => baseArgs Number (loadDeal d st0)) saved)
  /\ (forall i d, nth_error saved i = Some d -> d_id d <> id ->
                  nth_error saved' i = Some d)
  /\ (trim name = EmptyString -> saved' = saved).
Proof.
  cbv zeta. unfold renameDeal, setSavedDeals. cbn [st_savedDeals].
  split; [now apply map_ext_cond|].
  split; [now apply map_ext_cond|].
  split; [intros st0; now apply map_ext_cond|].
  split.
  - intros i d Hd Hid. rewrite nth_error_map, Hd. cbn [option_map].
    apply String.eqb_neq in Hid. now rewrite Hid.
  - intros Hblank. rewrite <- (map_id (st_savedDeals st)) at 2.
    apply map_ext. intros x. destruct (String.eqb (d_id x) id); [|reflexivity].
    unfold renamed, trimmedOr. rewrite Hblank. cbn [String.eqb].
    now destruct x.
Qed.

(** ** What the page displays *)

Lemma not_gtb_0 (x : number) :
  fin x -> (x >=? 0) = true -> (x >? 0) = false -> x = 0.
Proof.
  intros Hx H0 Hn. destruct (ge_0_Fin _ H0 Hx) as (q & -> & Hq).
  rewrite zero_Fin in *. apply gtb_Fin_false in Hn.
  f_equal. now apply Qcle_antisym.
Qed.

Section RentTable.

Variable Number : string -> number.

Lemma rent_table_fold (l : list UnitRow) (acc : number) :
  fold_left add (map (unitRowAnnual Number) l) acc
  = fold_left add
      (map (fun r => unitsN r * rentN r * ofZ 12)
           (rr_rows (rentRoll Number l)))
      acc.
Proof.
  unfold rentRoll. cbn [rr_rows]. revert acc.
  induction l as [|r l IH]; intros acc; [reflexivity|].
  cbn [map filter unitsN rentN fold_left].
  set (u := max 0 (floor (clampNumS Number (u_units r) 0))).
  set (rent := max 0 (clampNumS Number (u_rent r) 0)).
  assert (Hu : fin u)
    by (apply fin_max; [apply fin_zero|];
        apply fin_floor, fin_clampNumS, fin_zero).
  assert (Hu0 : (u >=? 0) = true)
    by (apply max_0_ge_0, fin_floor, fin_clampNumS, fin_zero).
  assert (Hr : fin rent)
    by (apply fin_max; [apply fin_zero | apply fin_clampNumS, fin_zero]).
  assert (Hr0 : (rent >=? 0) = true)
    by (apply max_0_ge_0, fin_clampNumS, fin_zero).
  rewrite Hr0, andb_true_r.
  change (unitRowAnnual Number r) with (u * rent * ofZ 12).
  destruct (u >? 0) eqn:E.
  - cbn [map fold_left]. apply IH.
  - rewrite (not_gtb_0 u Hu Hu0 E).
    destruct (isFinite_Fin _ Hr) as [q ->].
    replace (0 * Fin q * ofZ 12) with 0.
    + rewrite add_0_r. apply IH.
    + unfold ofZ. now rewrite zero_Fin, !mul_Fin, !Qcmult_0_l.
Qed.

End RentTable.

(** X29.  The rent-roll table adds up: the gross potential rent under the
    table is the sum, in the order of the rows, of the annual rents shown on
    the lines, although the total is taken over the rows with at least one
    unit only and the lines show every row. *)
Theorem rent_table_adds_up (Number : string -> number)
    (unitTypes : list UnitRow) :
  gpr (rentRoll Number unitTypes)
  = sum (map (unitRowAnnual Number) unitTypes).
Proof.
  unfold sum. rewrite rent_table_fold. reflexivity.
Qed.

Lemma Qc_div_nonneg (a b : Qc) :
  (0 <= a)%Qc -> (0 < b)%Qc -> (0 <= a / b)%Qc.
Proof.
  intros Ha Hb.
  assert (Hpos : (0 < / b)%Qc).
  { unfold Qclt. rewrite this_inv. apply Qinv_lt_0_compat. exact Hb. }
  unfold Qcdiv. set (i := (/ b)%Qc) in *. qc_to_q. nra.
Qed.

(** A bar of the chart: [Math.min(100, (Math.abs(d) / maxSwing) * 100)]. *)
Lemma bar_bounds (d M : Qc) :
  (0 < M)%Qc ->
  let w := min (ofZ 100) (abs (Fin d) / Fin M * ofZ 100) in
  (0 <=? w) = true /\ (w <=? ofZ 100) = true
  /\ ((Qcabs d <= M)%Qc -> w = abs (Fin d) / Fin M * ofZ 100).
Proof.
  intros HM. cbv zeta. unfold ofZ.
  assert (HM0 : M <> 0%Qc)
    by (intros E; rewrite E in HM; now apply (Qclt_not_eq _ _ HM)).
  rewrite abs_Fin, (div_Fin _ _ HM0), mul_Fin, min_Fin, zero_Fin.
  pose proof (Qc_div_nonneg _ _ (Qcabs_nonneg d) HM) as Hq.
  set (q := (Qcabs d / M)%Qc) in *.
  set (c := Q2Qc (inject_Z 100)).
  assert (Hc : (0 < c)%Qc) by reflexivity.
  assert (Hqc : (0 <= q * c)%Qc) by (qc_to_q; nra).
  rewrite !leb_Fin. split; [|split].
  - destruct (Qcmin_spec c (q * c)) as [[_ ->]|[_ ->]];
      [exact Hqc | now apply Qclt_le_weak].
  - destruct (Qcmin_spec c (q * c)) as [[H ->]|[_ ->]];
      [now apply Qclt_le_weak | apply Qcle_refl].
  - intros Hd. f_equal.
    destruct (Qc_frac_bounds _ _ (Qcabs_nonneg d) Hd HM) as [_ H1].
    fold q in H1.
    assert (Hle : (q * c <= c)%Qc) by (qc_to_q; nra).
    destruct (Qcmin_spec c (q * c)) as [[_ ->]|[H ->]]; [reflexivity|].
    now apply Qcle_antisym.
Qed.


